(** * SteamTasteMatch: the review-collection and scoring pipeline

    A shallow embedding of the background script of the extension
    (background.js, the main logic for fetching and analyzing review
    data), followed by the properties of its components: the HTML review
    extractor, the paginated profile fetcher, reviewer discovery, the bulk
    profile collector, the scoring engine and the orchestrator.

    Conventions of the embedding.
    - A JavaScript string is a [string]; its characters are the code units
      below 256.  The regular expressions of the script only name ASCII
      characters, so a code unit above 127 behaves like any other character
      that is not named.
    - A JavaScript Number that is used as a counter or an index is a [nat];
      the integers read from the sliders ([parseInt]) are [Z]; a Number
      that is the result of a division is an IEEE 754 binary64 value, a
      [spec_float] of the Standard Library, computed with its rounding.
    - An async function is a computation in the monad [M]: it reads the
      cancellation flag, calls the network, waits, writes the extension
      storage, and either completes normally or throws an [Error] with a
      message.
    - The network, the arrival of the cancel message, [JSON.parse] and
      [encodeURIComponent] are given by a [World]; the calls of [fetch] and
      the waits of a run are recorded in a trace.
    - [logProgress] only appends a line to [analysisLogs] and swallows its
      own failures; log lines are not part of the embedding.  Neither are
      the text of a notification nor, within a run, the flag
      [analysisInProgress] and the write of [analysisRunning] and
      [analysisProgress] by the listener of the cancel message, which
      leaves the result and error keys alone.
    - The listeners of the messages of the popup are embedded apart from
      the runs, over the three global variables of the script and the calls
      of [startBackgroundAnalysis] that they make.  The content script and
      the popup contribute the app id that they read from a URL. *)

From Stdlib Require Import ZArith String Ascii List Bool Arith Lia.
From Stdlib Require Import Sorted SpecFloat DecimalString.
From stdpp Require Import gmap strings.
Import ListNotations.

Local Open Scope string_scope.
Local Open Scope list_scope.
Local Open Scope nat_scope.

(** ** JavaScript strings *)

Module JS.

(** The double quote, which the string notation cannot hold. *)
Definition dq : ascii := "034"%char.

(** [s.substring(a, b)] for [a <= b]. *)
Definition substring (a b : nat) (s : string) : string :=
  String.substring a (b - a) s.

(** The samples of markup below are written with an apostrophe where the
    page has a double quote; [markup] puts the double quotes back. *)
Fixpoint markup (s : string) : string :=
  match s with
  | EmptyString => EmptyString
  | String c s' => String (if Ascii.eqb c "'"%char then dq else c) (markup s')
  end.

(** Template literal [`${n}`] for a non-negative integer. *)
Definition showNat (n : nat) : string := NilZero.string_of_uint (Nat.to_uint n).

End JS.

(** ** Regular expressions

    A backtracking matcher with the priorities of the ECMAScript one:
    alternatives left to right, greedy quantifiers longest first.  Every
    quantifier of the script ranges over a character class. *)

Module RegExp.

Inductive regex : Type :=
| Eps
| Chr (c : ascii)
| Class (p : ascii -> bool)
| Cat (r1 r2 : regex)
| Alt (r1 r2 : regex)
| Star (p : ascii -> bool)
| Group (i : nat) (r : regex)
| Bos
| Eos.

(** [p+] is [p p*]. *)
Definition Plus (p : ascii -> bool) : regex := Cat (Class p) (Star p).

Fixpoint Lit (s : string) : regex :=
  match s with
  | EmptyString => Eps
  | String c s' => Cat (Chr c) (Lit s')
  end.

(** Canonicalize of the [i] flag, on the characters the patterns name:
    a lower-case ASCII letter becomes upper case, and no character above
    127 is canonicalized to an ASCII one. *)
Definition canonicalize (c : ascii) : ascii :=
  let n := nat_of_ascii c in
  if (97 <=? n) && (n <=? 122) then ascii_of_nat (n - 32) else c.

Definition chr_eq (ignoreCase : bool) (x a : ascii) : bool :=
  if ignoreCase then Ascii.eqb (canonicalize x) (canonicalize a)
  else Ascii.eqb x a.

(** Character classes. *)
Definition isDigit (c : ascii) : bool :=
  let n := nat_of_ascii c in (48 <=? n) && (n <=? 57).
Definition notChr (x : ascii) (c : ascii) : bool := negb (Ascii.eqb c x).
Definition isSpace (c : ascii) : bool :=
  let n := nat_of_ascii c in
  (n =? 32) || ((9 <=? n) && (n <=? 13)) || (n =? 160).

(** Captures: group number, start and end index. *)
Definition captures := list (nat * (nat * nat)).
Definition cont := string -> nat -> captures -> option (nat * captures).

Fixpoint star (p : ascii -> bool) (k : cont) (s : string) (pos : nat)
    (c : captures) : option (nat * captures) :=
  match s with
  | String a s' =>
      if p a then
        match star p k s' (S pos) c with
        | Some r => Some r
        | None => k s pos c
        end
      else k s pos c
  | EmptyString => k s pos c
  end.

Fixpoint run (ignoreCase : bool) (r : regex) (k : cont) (s : string)
    (pos : nat) (c : captures) : option (nat * captures) :=
  match r with
  | Eps => k s pos c
  | Chr x =>
      match s with
      | String a s' => if chr_eq ignoreCase x a then k s' (S pos) c else None
      | EmptyString => None
      end
  | Class p =>
      match s with
      | String a s' => if p a then k s' (S pos) c else None
      | EmptyString => None
      end
  | Cat r1 r2 => run ignoreCase r1 (run ignoreCase r2 k) s pos c
  | Alt r1 r2 =>
      match run ignoreCase r1 k s pos c with
      | Some res => Some res
      | None => run ignoreCase r2 k s pos c
      end
  | Star p => star p k s pos c
  | Group i r' =>
      run ignoreCase r' (fun s' pos' c' => k s' pos' ((i, (pos, pos')) :: c')) s pos c
  | Bos => if pos =? 0 then k s pos c else None
  | Eos => match s with EmptyString => k s pos c | _ => None end
  end.

(** A match: its index, the index after its last character, its groups. *)
Record Match : Type := mkMatch {
  index : nat;
  endIndex : nat;
  groups : captures
}.

(** The match that starts at [pos], where [s] is the input from [pos] on. *)
Definition matchHere (ignoreCase : bool) (r : regex) (s : string) (pos : nat)
  : option Match :=
  match run ignoreCase r (fun _ e c => Some (e, c)) s pos [] with
  | Some (e, c) => Some (mkMatch pos e c)
  | None => None
  end.

(** [RegExp.prototype.exec] from [pos]: the leftmost match. *)
Fixpoint execFrom (ignoreCase : bool) (r : regex) (s : string) (pos : nat)
  : option Match :=
  match matchHere ignoreCase r s pos with
  | Some m => Some m
  | None =>
      match s with
      | String _ s' => execFrom ignoreCase r s' (S pos)
      | EmptyString => None
      end
  end.

(** [str.match(re)] without the [g] flag. *)
Definition exec (ignoreCase : bool) (r : regex) (s : string) : option Match :=
  execFrom ignoreCase r s 0.

(** [[...str.matchAll(re)]] with the [g] flag: after a match the search
    resumes at its end, one further on when the match is empty.  [skip]
    counts the characters still to pass before the next attempt. *)
Fixpoint matchAllFrom (ignoreCase : bool) (r : regex) (s : string)
    (pos skip : nat) : list Match :=
  match skip with
  | S k =>
      match s with
      | String _ s' => matchAllFrom ignoreCase r s' (S pos) k
      | EmptyString => []
      end
  | 0 =>
      match matchHere ignoreCase r s pos with
      | Some m =>
          m :: match s with
               | String _ s' =>
                   matchAllFrom ignoreCase r s' (S pos) (endIndex m - pos - 1)
               | EmptyString => []
               end
      | None =>
          match s with
          | String _ s' => matchAllFrom ignoreCase r s' (S pos) 0
          | EmptyString => []
          end
      end
  end.

Definition matchAll (ignoreCase : bool) (r : regex) (s : string) : list Match :=
  matchAllFrom ignoreCase r s 0 0.

(** [m[i]]: the text of group [i] of a match in [s]. *)
Definition group (s : string) (m : Match) (i : nat) : string :=
  match List.find (fun e => fst e =? i) (groups m) with
  | Some (_, (a, b)) => JS.substring a b s
  | None => ""
  end.

(** [str.replace(re, '')] without the [g] flag. *)
Definition removeFirst (ignoreCase : bool) (r : regex) (s : string) : string :=
  match exec ignoreCase r s with
  | Some m =>
      JS.substring 0 (index m) s +:+ JS.substring (endIndex m) (String.length s) s
  | None => s
  end.

End RegExp.

(** ** The HTML review extractor *)

Import RegExp.

Record Review : Type := mkReview {
  appId : string;
  isPositive : bool
}.

(** [reviewImgPattern], flags [g] and [i]: the text [<img], one or more
    characters other than [>], the text [src=] and a double quote; group 1,
    made of any number of characters other than a double quote, the text
    [icon_thumbs], group 2 ([Up] or [Down]) and any number of characters
    other than a double quote; a double quote. *)
Definition reviewImgPattern : regex :=
  Cat (Lit "<img")
 (Cat (Plus (notChr ">"%char))
 (Cat (Lit "src=")
 (Cat (Chr JS.dq)
 (Cat (Group 1
        (Cat (Star (notChr JS.dq))
        (Cat (Lit "icon_thumbs")
        (Cat (Group 2 (Alt (Lit "Up") (Lit "Down")))
             (Star (notChr JS.dq))))))
      (Chr JS.dq))))).

(** [appLinkPattern], flags [g] and [i]: the text [href=] and a double
    quote, any number of characters other than a double quote, the text
    [/app/], and group 1, one or more digits. *)
Definition appLinkPattern : regex :=
  Cat (Lit "href=")
 (Cat (Chr JS.dq)
 (Cat (Star (notChr JS.dq))
 (Cat (Lit "/app/")
      (Group 1 (Plus isDigit))))).

(** The lookback distance of the search for the app link. *)
Definition lookback : nat := 2000.

(** [html.substring(Math.max(0, imgIndex - 2000), imgIndex)] *)
Definition contextBefore (html : string) (imgIndex : nat) : string :=
  JS.substring (imgIndex - lookback) imgIndex html.

(** [[...contextBefore.matchAll(appLinkPattern)]] *)
Definition appLinks (html : string) (imgIndex : nat) : list Match :=
  matchAll true appLinkPattern (contextBefore html imgIndex).

(** [reviews.find(r => r.appId === appId && r.isPositive === isPositive)] *)
Definition sameReview (a : string) (p : bool) (r : Review) : bool :=
  String.eqb (appId r) a && Bool.eqb (isPositive r) p.

(** What the loop of [parseReviewsFromHTML] holds: the reviews, and the
    entries of [skipReasons.noAppId] (thumb type and position). *)
Record ParseState : Type := mkParseState {
  reviewsSoFar : list Review;
  noAppId : list (string * nat)
}.

(** The body of the loop over the vote images.  The last of the links is
    [appLinks[appLinks.length - 1]]; there is none when
    [appLinks.length === 0]. *)
Definition parseStep (html : string) (st : ParseState) (imgMatch : Match)
  : ParseState :=
  let thumbType := group html imgMatch 2 in
  let imgIndex := index imgMatch in
  let isPositive := String.eqb thumbType "Up" in
  let links := appLinks html imgIndex in
  match List.last (map Some links) None with
  | None =>
      mkParseState (reviewsSoFar st) (noAppId st ++ [(thumbType, imgIndex)])
  | Some closestAppLink =>
      let appId := group (contextBefore html imgIndex) closestAppLink 1 in
      if existsb (sameReview appId isPositive) (reviewsSoFar st)
      then st
      else mkParseState (reviewsSoFar st ++ [mkReview appId isPositive]) (noAppId st)
  end.

Definition parseLoop (html : string) : ParseState :=
  fold_left (parseStep html) (matchAll true reviewImgPattern html)
            (mkParseState [] []).

(** [parseReviewsFromHTML(html)]: the reviews of the page. *)
Definition parseReviewsFromHTML (html : string) : list Review :=
  reviewsSoFar (parseLoop html).

(** ** JavaScript Numbers that come from a division *)

Module Num.

Definition prec : Z := 53.
Definition emax : Z := 1024.

Definition number : Type := spec_float.

Definition NaN : number := S754_nan.
Definition zero : number := S754_zero false.

(** The Number of an integer (exact below [2^53]). *)
Definition ofZ (z : Z) : number := binary_normalize prec emax z 0 false.
Definition ofNat (n : nat) : number := ofZ (Z.of_nat n).

Definition div (x y : number) : number := SFdiv prec emax x y.
Definition mul (x y : number) : number := SFmul prec emax x y.

(** [x >= y]; false as soon as one side is NaN. *)
Definition ge (x y : number) : bool := SFleb y x.

(** [Math.round(x)]: the integer nearest to [x], the larger one on a tie;
    NaN, the infinities and the zeros are returned as they are. *)
Definition round (x : number) : number :=
  match x with
  | S754_finite s m e =>
      if (0 <=? e)%Z then x
      else
        let d := (2 ^ (- e))%Z in
        let n := ((2 * (if s then Z.neg m else Z.pos m) + d) / (2 * d))%Z in
        if (n =? 0)%Z then S754_zero s else ofZ n
  | _ => x
  end.

End Num.

(** ** The scoring engine *)

Record ReviewerRecord : Type := mkReviewerRecord {
  steamId : string;
  reviews : list Review
}.

Record AnalysisResult : Type := mkAnalysisResult {
  score : Num.number;
  totalReviewers : nat;
  matchingReviewers : nat;
  positiveCount : nat;
  avgOverlap : Num.number;
  minOverlap : Z;
  minSimilarity : Z
}.

(** [userReviewMap]: the last verdict set for an app wins. *)
Definition userReviewMapOf (userReviews : list Review) : gmap string bool :=
  fold_left (fun m review => <[appId review := isPositive review]> m)
            userReviews ∅.

(** The inner loop: [(overlapCount, agreementCount)] after one review. *)
Definition countStep (userReviewMap : gmap string bool) (c : nat * nat)
    (review : Review) : nat * nat :=
  match userReviewMap !! appId review with
  | Some verdict =>
      (S (fst c),
       if Bool.eqb verdict (isPositive review) then S (snd c) else snd c)
  | None => c
  end.

Definition overlapAgreement (userReviewMap : gmap string bool)
    (reviewer : ReviewerRecord) : nat * nat :=
  fold_left (countStep userReviewMap) (reviews reviewer) (0, 0).

(** [(agreementCount / overlapCount) * 100] *)
Definition similarityOf (overlapCount agreementCount : nat) : Num.number :=
  Num.mul (Num.div (Num.ofNat agreementCount) (Num.ofNat overlapCount))
          (Num.ofNat 100).

(** [targetReview && targetReview.isPositive] *)
Definition targetPositive (targetAppId : string) (reviewer : ReviewerRecord)
  : bool :=
  match List.find (fun r => String.eqb (appId r) targetAppId) (reviews reviewer) with
  | Some targetReview => isPositive targetReview
  | None => false
  end.

(** The counters of the outer loop. *)
Record Tally : Type := mkTally {
  tMatchingReviewers : nat;
  tPositiveCount : nat;
  tTotalOverlap : nat
}.

(** The body of the loop over [reviewerData]. *)
Definition scoreStep (userReviewMap : gmap string bool) (targetAppId : string)
    (minOverlap minSimilarity : Z) (t : Tally) (reviewer : ReviewerRecord)
  : Tally :=
  let (overlapCount, agreementCount) := overlapAgreement userReviewMap reviewer in
  if (minOverlap <=? Z.of_nat overlapCount)%Z then
    let similarity := similarityOf overlapCount agreementCount in
    if Num.ge similarity (Num.ofZ minSimilarity) then
      mkTally (S (tMatchingReviewers t))
              (if targetPositive targetAppId reviewer
               then S (tPositiveCount t) else tPositiveCount t)
              (tTotalOverlap t + overlapCount)
    else t
  else t.

Definition calculateScore (userReviews : list Review)
    (reviewerData : list ReviewerRecord) (targetAppId : string)
    (minOverlap minSimilarity : Z) : AnalysisResult :=
  let userReviewMap := userReviewMapOf userReviews in
  let t := fold_left (scoreStep userReviewMap targetAppId minOverlap minSimilarity)
                     reviewerData (mkTally 0 0 0) in
  let score :=
    if 0 <? tMatchingReviewers t
    then Num.round (Num.mul (Num.div (Num.ofNat (tPositiveCount t))
                                     (Num.ofNat (tMatchingReviewers t)))
                            (Num.ofNat 100))
    else Num.zero in
  let avgOverlap :=
    if 0 <? tMatchingReviewers t
    then Num.div (Num.ofNat (tTotalOverlap t)) (Num.ofNat (tMatchingReviewers t))
    else Num.zero in
  mkAnalysisResult score (List.length reviewerData) (tMatchingReviewers t)
                   (tPositiveCount t) avgOverlap minOverlap minSimilarity.

(** ** The world outside the script *)

(** The outcome of one call of [fetch]: a rejected promise, or a response
    with its [ok] flag, its status and its text. *)
Inductive FetchResult : Type :=
| NetworkError (message : string)
| Response (ok : bool) (status : nat) (text : string).

(** A body of the reviewer feed, once parsed.  An entry of
    [data.reviews] gives [review.author.steamid] and [review.voted_up], or
    it has no [author], and then the reading of [review.author.steamid]
    throws a TypeError.  A body is [None] for [JSON_parse] when it does not
    parse, and also when its value makes the loop body of discovery throw
    before it pushes an entry: the handler of the loop is the same. *)
Record FeedReview : Type := mkFeedReview {
  author_steamid : string;
  voted_up : bool
}.

Inductive FeedEntry : Type :=
| WithAuthor (review : FeedReview)
| WithoutAuthor.

Record FeedData : Type := mkFeedData {
  success : bool;
  feedReviews : option (list FeedEntry);
  feedCursor : option string
}.

(** What a run depends on and does not control: when the cancel message
    arrives, what the network answers, and two functions of the platform.
    [shouldCancel] is only ever set during a run, so what the run sees of
    it is the number of the first read that finds it set. *)
Record World : Type := mkWorld {
  cancelRequestedAt : option nat;
  network : nat -> string -> FetchResult;
  JSON_parse : string -> option FeedData;
  encodeURIComponent : string -> string
}.

(** The texts of [analysisProgress], with the numbers they show. *)
Inductive Progress : Type :=
| ProgressStarting
| ProgressFetchingHistory
| ProgressFoundReviews (n : nat)
| ProgressCollected (totalFetched : nat)
| ProgressAnalyzingProfiles (n : nat)
| ProgressAnalyzingProfile (processed total : nat)
| ProgressCalculating
| ProgressCancelled
| ProgressComplete
| ProgressError.

(** The keys of [chrome.storage.local] that the run writes. *)
Record Storage : Type := mkStorage {
  analysisRunning : bool;
  analysisProgress : Progress;
  analysisResult : option AnalysisResult;
  analysisError : option string
}.

Inductive Event : Type :=
| EvFetch (url : string)
| EvDelay (ms : nat)
| EvNotify (title : string).

Record State : Type := mkState {
  flagReads : nat;
  fetchCalls : nat;
  trace : list Event;
  storage : Storage
}.

(** ** Async functions *)

(** How a call ends: a value, a thrown [Error] with its message, or the
    bound of a loop of the embedding is used up (which the results below
    exclude). *)
Inductive Completion (A : Type) : Type :=
| Normal (a : A)
| Throw (message : string)
| OutOfFuel.
Arguments Normal {A} a.
Arguments Throw {A} message.
Arguments OutOfFuel {A}.

Definition M (A : Type) : Type := State -> Completion A * State.

Definition ret {A : Type} (a : A) : M A := fun st => (Normal a, st).

Definition bind {A B : Type} (c : M A) (k : A -> M B) : M B :=
  fun st =>
    match c st with
    | (Normal a, st') => k a st'
    | (Throw message, st') => (Throw message, st')
    | (OutOfFuel, st') => (OutOfFuel, st')
    end.

Definition throw {A : Type} (message : string) : M A :=
  fun st => (Throw message, st).

Definition outOfFuel {A : Type} : M A := fun st => (OutOfFuel, st).

(** [try { c } catch (error) { handler(error.message) }] *)
Definition tryCatch {A : Type} (c : M A) (handler : string -> M A) : M A :=
  fun st =>
    match c st with
    | (Throw message, st') => handler message st'
    | r => r
    end.

Notation "'let!' x ':=' c 'in' k" := (bind c (fun x => k))
  (at level 10, x name, c at level 100, k at level 200).
Notation "c1 ;; c2" := (bind c1 (fun _ => c2))
  (at level 100, right associativity).

(** How an iteration of a loop ends. *)
Inductive LoopStep (A : Type) : Type :=
| Break (a : A)
| Continue (a : A).
Arguments Break {A} a.
Arguments Continue {A} a.

Section Pipeline.

Variable w : World.

(** *** The effects *)

(** A read of the global [shouldCancel]. *)
Definition readShouldCancel : M bool :=
  fun st =>
    (Normal (match cancelRequestedAt w with
             | Some n => n <=? flagReads st
             | None => false
             end),
     mkState (S (flagReads st)) (fetchCalls st) (trace st) (storage st)).

(** [await fetch(url, ...)] *)
Definition fetch (url : string) : M FetchResult :=
  fun st =>
    (Normal (network w (fetchCalls st) url),
     mkState (flagReads st) (S (fetchCalls st)) (trace st ++ [EvFetch url])
             (storage st)).

Definition emit (e : Event) : M unit :=
  fun st =>
    (Normal tt,
     mkState (flagReads st) (fetchCalls st) (trace st ++ [e]) (storage st)).

(** [await delay(ms)] *)
Definition delay (ms : nat) : M unit := emit (EvDelay ms).

(** [await chrome.notifications.create({ title, ... })] *)
Definition notify (title : string) : M unit := emit (EvNotify title).

(** [await chrome.storage.local.set({...})] *)
Definition storageSet (f : Storage -> Storage) : M unit :=
  fun st =>
    (Normal tt,
     mkState (flagReads st) (fetchCalls st) (trace st) (f (storage st))).

Definition updateProgress (p : Progress) : M unit :=
  storageSet (fun s =>
    mkStorage (analysisRunning s) p (analysisResult s) (analysisError s)).

(** *** Constants *)

Definition STEAM_API_REVIEW_URL : string :=
  "https://store.steampowered.com/appreviews/".
Definition STEAM_COMMUNITY_URL : string := "https://steamcommunity.com".
Definition DELAY_BETWEEN_REQUESTS : nat := 1000.

(** *** fetchWithRetry *)

(** The message of the error that an attempt ends with. *)
Definition failureMessage (r : FetchResult) : option string :=
  match r with
  | NetworkError message => Some message
  | Response false status _ =>
      Some ("HTTP error! status: " +:+ JS.showNat status)
  | Response true _ _ => None
  end.

(** Iteration [i] of the loop, with [remaining = retries - 1 - i]. *)
Fixpoint fetchWithRetryFrom (url : string) (i remaining : nat) : M string :=
  let! cancel := readShouldCancel in
  if cancel then throw "Cancelled"
  else
    let! r := fetch url in
    match r with
    | Response true _ text => ret text
    | _ =>
        let message :=
          match failureMessage r with Some m => m | None => "" end in
        match remaining with
        | 0 => throw message
        | S remaining' =>
            delay (1000 * (i + 1)) ;;
            fetchWithRetryFrom url (S i) remaining'
        end
    end.

(** [fetchWithRetry(url)], with [retries = 3]. *)
Definition fetchWithRetry (url : string) : M string :=
  fetchWithRetryFrom url 0 2.

(** *** fetchAllReviewsFromProfile *)

Definition maxPages : nat := 50.

(** [page === 1 ? baseUrl : `${baseUrl}?p=${page}`] *)
Definition pageUrl (baseUrl : string) (page : nat) : string :=
  if page =? 1 then baseUrl else baseUrl +:+ "?p=" +:+ JS.showNat page.

(** The body of the [try] of one iteration. *)
Definition fetchPage (baseUrl : string) (page : nat) (allReviews : list Review)
  : M (LoopStep (list Review)) :=
  let! html := fetchWithRetry (pageUrl baseUrl page) in
  let reviews := parseReviewsFromHTML html in
  if List.length reviews =? 0 then ret (Break allReviews)
  else
    let allReviews' := allReviews ++ reviews in
    if List.length reviews <? 10 then ret (Break allReviews')
    else delay 200 ;; ret (Continue allReviews').

(** [while (page <= maxPages) { try {...} catch (error) { break; } }];
    [fuel] bounds the number of iterations, and [maxPages] are enough. *)
Fixpoint fetchPagesFrom (fuel : nat) (baseUrl : string) (page : nat)
    (allReviews : list Review) : M (list Review) :=
  if page <=? maxPages then
    match fuel with
    | 0 => outOfFuel
    | S fuel' =>
        let! step := tryCatch (fetchPage baseUrl page allReviews)
                              (fun _ => ret (Break allReviews)) in
        match step with
        | Break all => ret all
        | Continue all => fetchPagesFrom fuel' baseUrl (S page) all
        end
    end
  else ret allReviews.

Definition fetchAllReviewsFromProfile (baseUrl : string) : M (list Review) :=
  fetchPagesFrom maxPages baseUrl 1 [].

(** *** fetchReviewerReviews *)

Definition profilesUrl (steamId : string) : string :=
  STEAM_COMMUNITY_URL +:+ "/profiles/" +:+ steamId +:+ "/recommended/".
Definition idUrl (steamId : string) : string :=
  STEAM_COMMUNITY_URL +:+ "/id/" +:+ steamId +:+ "/recommended/".

Definition fetchReviewerReviews (steamId : string) : M (list Review) :=
  tryCatch (fetchAllReviewsFromProfile (profilesUrl steamId))
    (fun _ =>
       tryCatch (fetchAllReviewsFromProfile (idUrl steamId))
                (fun _ => ret [])).

(** *** fetchGameReviewers *)

Record ReviewerIdentity : Type := mkReviewerIdentity {
  reviewerSteamId : string;
  profileUrl : string;
  votedUp : bool
}.

Definition toIdentity (review : FeedReview) : ReviewerIdentity :=
  mkReviewerIdentity (author_steamid review)
    (STEAM_COMMUNITY_URL +:+ "/profiles/" +:+ author_steamid review)
    (voted_up review).

Definition feedUrl (appId cursor : string) : string :=
  STEAM_API_REVIEW_URL +:+ appId
  +:+ "?json=1&filter=all&language=all&day_range=9223372036854775807&cursor="
  +:+ cursor +:+ "&review_type=all&purchase_type=all&num_per_page=100".

(** The variables of the loop. *)
Record Discovery : Type := mkDiscovery {
  reviewers : list ReviewerIdentity;
  cursor : string;
  totalFetched : nat
}.

(** [!data.cursor]: absent or empty. *)
Definition noCursor (data : FeedData) : bool :=
  match feedCursor data with
  | Some c => String.eqb c ""
  | None => true
  end.

Definition cursorText (data : FeedData) : string :=
  match feedCursor data with Some c => c | None => "" end.

(** The entries that [for (const review of data.reviews)] pushes: those
    before the first entry without author. *)
Fixpoint authored (batch : list FeedEntry) : list FeedReview :=
  match batch with
  | WithAuthor review :: rest => review :: authored rest
  | _ => []
  end.

(** The [for] loop ends without a TypeError: every entry has its author. *)
Definition complete (batch : list FeedEntry) : bool :=
  forallb (fun entry => match entry with
                        | WithAuthor _ => true
                        | WithoutAuthor => false
                        end) batch.

(** The body of the [try] of one iteration.  [JSON.parse] throws on a
    body that does not parse; the handler does not look at the message.
    The TypeError of an entry without author is thrown when the entries
    before it are in the array [reviewers], and before [totalFetched] is
    updated; the handler breaks, so the iteration ends the loop with these
    variables. *)
Definition fetchBatch (appId : string) (maxProfiles : nat) (d : Discovery)
  : M (LoopStep Discovery) :=
  let! response := fetchWithRetry (feedUrl appId (cursor d)) in
  match JSON_parse w response with
  | None => throw "SyntaxError"
  | Some data =>
      if negb (success data) then ret (Break d)
      else
        match feedReviews data with
        | None => ret (Break d)
        | Some [] => ret (Break d)
        | Some batch =>
            let reviewers' := reviewers d ++ map toIdentity (authored batch) in
            if negb (complete batch)
            then ret (Break (mkDiscovery reviewers' (cursor d) (totalFetched d)))
            else
              let totalFetched' := totalFetched d + List.length batch in
              updateProgress (ProgressCollected totalFetched') ;;
              if noCursor data || (List.length batch <? 100)
                 || (maxProfiles <=? totalFetched')
              then ret (Break (mkDiscovery reviewers' (cursor d) totalFetched'))
              else
                delay 500 ;;
                ret (Continue (mkDiscovery reviewers'
                                 (encodeURIComponent w (cursorText data))
                                 totalFetched'))
        end
  end.

(** [while (totalFetched < maxProfiles && !shouldCancel) { try {...}
    catch (error) { break; } }].  An iteration that goes on adds a batch
    that is not empty to [totalFetched], so [maxProfiles] iterations are
    enough: [fuel] bounds their number. *)
Fixpoint discoverFrom (fuel : nat) (appId : string) (maxProfiles : nat)
    (d : Discovery) : M Discovery :=
  if totalFetched d <? maxProfiles then
    let! cancel := readShouldCancel in
    if cancel then ret d
    else
      match fuel with
      | 0 => outOfFuel
      | S fuel' =>
          let! step := tryCatch (fetchBatch appId maxProfiles d)
                                (fun _ => ret (Break d)) in
          match step with
          | Break d' => ret d'
          | Continue d' => discoverFrom fuel' appId maxProfiles d'
          end
      end
  else ret d.

(** [fetchGameReviewers(appId, maxProfiles)]; the result is
    [reviewers.slice(0, maxProfiles)]. *)
Definition fetchGameReviewers (appId : string) (maxProfiles : nat)
  : M (list ReviewerIdentity) :=
  let! d := discoverFrom maxProfiles appId maxProfiles (mkDiscovery [] "*" 0) in
  ret (firstn maxProfiles (reviewers d)).

(** *** fetchAllReviewerData *)

(** The variables of the loop. *)
Record Collector : Type := mkCollector {
  reviewerData : list ReviewerRecord;
  processed : nat;
  successCount : nat;
  errorCount : nat;
  privateProfileCount : nat
}.

(** The body of the [try] of one iteration, after [processed++]. *)
Definition collectOne (total : nat) (reviewer : ReviewerIdentity) (c : Collector)
  : M Collector :=
  updateProgress (ProgressAnalyzingProfile (processed c) total) ;;
  let! reviews := fetchReviewerReviews (reviewerSteamId reviewer) in
  let c' :=
    if List.length reviews =? 0
    then mkCollector (reviewerData c) (processed c) (successCount c)
                     (errorCount c) (S (privateProfileCount c))
    else mkCollector
           (reviewerData c ++ [mkReviewerRecord (reviewerSteamId reviewer) reviews])
           (processed c) (S (successCount c)) (errorCount c)
           (privateProfileCount c) in
  (if processed c mod 10 =? 0 then delay DELAY_BETWEEN_REQUESTS else ret tt) ;;
  ret c'.

(** [for (const reviewer of reviewers) { if (shouldCancel) break;
    try { processed++; ... } catch (error) { errorCount++; } }].  Nothing
    can throw between [processed++] and the call of
    [fetchReviewerReviews], nor after it, so the handler finds the
    variables as they are after [processed++]. *)
Fixpoint collectFrom (total : nat) (rest : list ReviewerIdentity) (c : Collector)
  : M Collector :=
  match rest with
  | [] => ret c
  | reviewer :: rest' =>
      let! cancel := readShouldCancel in
      if cancel then ret c
      else
        let c1 := mkCollector (reviewerData c) (S (processed c)) (successCount c)
                              (errorCount c) (privateProfileCount c) in
        let! c2 := tryCatch (collectOne total reviewer c1)
                     (fun _ =>
                        ret (mkCollector (reviewerData c1) (processed c1)
                               (successCount c1) (S (errorCount c1))
                               (privateProfileCount c1))) in
        collectFrom total rest' c2
  end.

Definition collectAll (reviewers : list ReviewerIdentity) : M Collector :=
  collectFrom (List.length reviewers) reviewers (mkCollector [] 0 0 0 0).

Definition fetchAllReviewerData (reviewers : list ReviewerIdentity)
    (maxProfiles : nat) : M (list ReviewerRecord) :=
  let! c := collectAll reviewers in
  ret (reviewerData c).

(** *** parseSteamId and fetchUserReviews *)

(** [input.trim()] *)
Fixpoint trimStart (s : string) : string :=
  match s with
  | String c s' => if isSpace c then trimStart s' else s
  | EmptyString => EmptyString
  end.

Fixpoint trimEnd (s : string) : string :=
  match s with
  | String c s' =>
      match trimEnd s' with
      | EmptyString => if isSpace c then EmptyString else String c EmptyString
      | t => String c t
      end
  | EmptyString => EmptyString
  end.

Definition trim (s : string) : string := trimEnd (trimStart s).

(** [s.includes(t)] *)
Definition includes (t s : string) : bool :=
  match exec false (Lit t) s with Some _ => true | None => false end.

(** [/steamcommunity\.com\/profiles\/(\d+)/] *)
Definition profilePattern : regex :=
  Cat (Lit "steamcommunity.com/profiles/") (Group 1 (Plus isDigit)).

(** [/steamcommunity\.com\/id\/([^\/\s]+)/] *)
Definition idPattern : regex :=
  Cat (Lit "steamcommunity.com/id/")
      (Group 1 (Plus (fun c => notChr "/"%char c && negb (isSpace c)))).

(** [/\/+$/] *)
Definition trailingSlashes : regex :=
  Cat (Plus (fun c => Ascii.eqb c "/"%char)) Eos.

(** [/^\d+$/] *)
Definition allDigits : regex := Cat Bos (Cat (Plus isDigit) Eos).

(** [parseSteamId(input)]; [None] is [null]. *)
Definition parseSteamId (input : string) : option string :=
  if String.eqb input "" then None
  else
    let input := trim input in
    if includes "steamcommunity.com" input then
      match exec false profilePattern input with
      | Some profileMatch => Some (group input profileMatch 1)
      | None =>
          match exec false idPattern input with
          | Some idMatch => Some (group input idMatch 1)
          | None => None
          end
      end
    else Some (removeFirst false trailingSlashes input).

Definition invalidSteamId : string :=
  "Invalid Steam ID format. Please enter either your steamID64 (numbers) or custom URL username.".
Definition couldNotFetch : string :=
  "Could not fetch your reviews. Make sure your Steam ID is correct and your profile is public.".
Definition noReviewsFound : string :=
  "No reviews found for your profile. Make sure your profile is public.".
Definition noReviewersFound : string := "No reviewers found for this game.".

(** The base URL of the subject's review history; [None] when
    [!cleanedId]. *)
Definition userBaseUrl (steamId : string) : option string :=
  match parseSteamId steamId with
  | None => None
  | Some cleanedId =>
      if String.eqb cleanedId "" then None
      else
        match exec false allDigits cleanedId with
        | Some _ =>
            Some (STEAM_COMMUNITY_URL +:+ "/profiles/" +:+ cleanedId +:+ "/recommended/")
        | None =>
            Some (STEAM_COMMUNITY_URL +:+ "/id/" +:+ cleanedId +:+ "/recommended/")
        end
  end.

Definition fetchUserReviews (steamId : string) : M (list Review) :=
  match userBaseUrl steamId with
  | None => throw invalidSteamId
  | Some baseUrl =>
      let! allReviews := fetchAllReviewsFromProfile baseUrl in
      if List.length allReviews =? 0 then throw couldNotFetch
      else ret allReviews
  end.

(** *** analyzeGame and startBackgroundAnalysis *)

Record Params : Type := mkParams {
  paramAppId : string;
  paramSteamId : string;
  paramMinOverlap : Z;
  paramMinSimilarity : Z;
  paramMaxProfiles : nat
}.

(** [if (shouldCancel) throw new Error('Cancelled');] *)
Definition checkCancelled : M unit :=
  let! cancel := readShouldCancel in
  if cancel then throw "Cancelled" else ret tt.

(** The result is the [data] of the object that the script returns; its
    [catch] logs the error and throws it again. *)
Definition analyzeGame (p : Params) : M AnalysisResult :=
  tryCatch
    (updateProgress ProgressFetchingHistory ;;
     let! userReviews := fetchUserReviews (paramSteamId p) in
     checkCancelled ;;
     if List.length userReviews =? 0 then throw noReviewsFound
     else
       updateProgress (ProgressFoundReviews (List.length userReviews)) ;;
       let! gameReviewers :=
         fetchGameReviewers (paramAppId p) (paramMaxProfiles p) in
       checkCancelled ;;
       if List.length gameReviewers =? 0 then throw noReviewersFound
       else
         updateProgress (ProgressAnalyzingProfiles (List.length gameReviewers)) ;;
         let! reviewerData :=
           fetchAllReviewerData gameReviewers (paramMaxProfiles p) in
         checkCancelled ;;
         updateProgress ProgressCalculating ;;
         ret (calculateScore userReviews reviewerData (paramAppId p)
                             (paramMinOverlap p) (paramMinSimilarity p)))
    (fun message => throw message).

Definition startBackgroundAnalysis (p : Params) : M unit :=
  storageSet (fun _ => mkStorage true ProgressStarting None None) ;;
  tryCatch
    (let! result := analyzeGame p in
     let! cancel := readShouldCancel in
     if cancel then
       storageSet (fun _ => mkStorage false ProgressCancelled None None)
     else
       storageSet (fun _ => mkStorage false ProgressComplete (Some result) None) ;;
       notify "Steam Analysis Complete!")
    (fun message =>
       if negb (String.eqb message "Cancelled") then
         storageSet (fun s =>
           mkStorage false ProgressError (analysisResult s) (Some message)) ;;
         notify "Steam Analysis Failed"
       else ret tt).

End Pipeline.

(** The state in which a run starts: whatever the storage holds. *)
Definition initialState (s : Storage) : State := mkState 0 0 [] s.

(** ** The app id of the page *)

(** [/\/app\/(\d+)/] *)
Definition appPathPattern : regex := Cat (Lit "/app/") (Group 1 (Plus isDigit)).

(** content.js, [getPageInfo]: [appIdMatch ? appIdMatch[1] : null] for
    [window.location.href]. *)
Definition pageAppId (href : string) : option string :=
  match exec false appPathPattern href with
  | Some appIdMatch => Some (group href appIdMatch 1)
  | None => None
  end.

(** popup.js, the click on the analyze button: the [appId] that is sent
    with [startAnalysis] for the URL of the tab; [None] when the popup
    shows an error and sends nothing.  A tab without URL is the empty
    text, which the test of [includes] rejects as [!tab.url] does. *)
Definition tabAppId (url : string) : option string :=
  if negb (includes "store.steampowered.com/app/" url) then None
  else
    match exec false appPathPattern url with
    | Some appIdMatch => Some (group url appIdMatch 1)
    | None => None
    end.

(** ** The messages of the popup *)

(** The global variables of the background script. *)
Record Globals : Type := mkGlobals {
  analysisInProgress : bool;
  shouldCancel : bool;
  loggingEnabled : bool
}.

(** [message.action], with [message.data] or [message.enabled]. *)
Inductive Message : Type :=
| StartAnalysis (data : Params)
| CancelAnalysis
| SetLogging (enabled : bool)
| OtherAction.

(** What [sendResponse] is called with. *)
Inductive Reply : Type :=
| ReplyStarted
| ReplyCancelled
| ReplySuccess.

(** The background script between two events: its globals, the calls of
    [startBackgroundAnalysis] made so far, and the replies sent so far. *)
Record Background : Type := mkBackground {
  globals : Globals;
  runsStarted : list Params;
  replies : list Reply
}.

(** A call of [startBackgroundAnalysis(params)] up to its first [await]:
    the two assignments that the caller sees done when the call returns
    its promise. *)
Definition beginRun (params : Params) (b : Background) : Background :=
  mkBackground (mkGlobals true false (loggingEnabled (globals b)))
               (runsStarted b ++ [params]) (replies b).

Definition sendResponse (r : Reply) (b : Background) : Background :=
  mkBackground (globals b) (runsStarted b) (replies b ++ [r]).

Definition requestCancel (b : Background) : Background :=
  mkBackground (mkGlobals (analysisInProgress (globals b)) true
                          (loggingEnabled (globals b)))
               (runsStarted b) (replies b).

(** The listener registered at the top of the script. *)
Definition firstListener (message : Message) (b : Background) : Background :=
  match message with
  | StartAnalysis data =>
      sendResponse ReplyStarted
        (if negb (analysisInProgress (globals b)) then beginRun data b else b)
  | CancelAnalysis => sendResponse ReplyCancelled (requestCancel b)
  | _ => b
  end.

(** The listener registered at the end of the script. *)
Definition secondListener (message : Message) (b : Background) : Background :=
  match message with
  | StartAnalysis data =>
      sendResponse ReplyStarted
        (if negb (analysisInProgress (globals b)) then beginRun data b else b)
  | CancelAnalysis => sendResponse ReplyCancelled (requestCancel b)
  | SetLogging enabled =>
      sendResponse ReplySuccess
        (mkBackground (mkGlobals (analysisInProgress (globals b))
                                 (shouldCancel (globals b)) enabled)
                      (runsStarted b) (replies b))
  | OtherAction => b
  end.

(** A message is given to the listeners in the order of their
    registration. *)
Definition onMessage (b : Background) (message : Message) : Background :=
  secondListener message (firstListener message b).

Definition onMessages (messages : list Message) (b : Background) : Background :=
  fold_left onMessage messages b.

(** * Properties *)

(** ** Reads and calls *)

(** What a read of [shouldCancel] with a given number finds. *)
Definition flagSet (w : World) (readIndex : nat) : bool :=
  match cancelRequestedAt w with
  | Some n => n <=? readIndex
  | None => false
  end.

(** The state after a read of [shouldCancel], and after a read followed
    by a call of [fetch]. *)
Definition afterRead (st : State) : State :=
  mkState (S (flagReads st)) (fetchCalls st) (trace st) (storage st).
Definition afterFetch (st : State) (url : string) : State :=
  mkState (S (flagReads st)) (S (fetchCalls st)) (trace st ++ [EvFetch url])
          (storage st).

Lemma run_readShouldCancel (w : World) (st : State) :
  readShouldCancel w st = (Normal (flagSet w (flagReads st)), afterRead st).
Proof. reflexivity. Qed.

Lemma run_fetch (w : World) (url : string) (st : State) :
  fetch w url (afterRead st)
  = (Normal (network w (fetchCalls st) url), afterFetch st url).
Proof. reflexivity. Qed.

(** ** The HTML review extractor *)

Section Extractor.

Variable html : string.

(** [thumbType === 'Up'] for a vote image. *)
Definition verdictOf (imgMatch : Match) : bool :=
  String.eqb (group html imgMatch 2) "Up".

(** The app id of the last link found in the window before a vote image. *)
Definition closestAppId (imgMatch : Match) : option string :=
  match List.last (map Some (appLinks html (index imgMatch))) None with
  | Some link => Some (group (contextBefore html (index imgMatch)) link 1)
  | None => None
  end.


Definition marker (imgMatch : Match) : string * nat :=
  (group html imgMatch 2, index imgMatch).



Lemma parseStep_closest (st : ParseState) (m : Match) :
  parseStep html st m =
  match closestAppId m with
  | None => mkParseState (reviewsSoFar st) (noAppId st ++ [marker m])
  | Some id =>
      if existsb (sameReview id (verdictOf m)) (reviewsSoFar st) then st
      else mkParseState (reviewsSoFar st ++ [mkReview id (verdictOf m)]) (noAppId st)
  end.
Proof.
  unfold parseStep, closestAppId, verdictOf, marker.
  destruct (List.last (map Some (appLinks html (index m))) None); reflexivity.
Qed.

Lemma sameReview_true (a : string) (p : bool) (r : Review) :
  sameReview a p r = true <-> r = mkReview a p.
Proof.
  unfold sameReview. destruct r as [a' p']. simpl.
  rewrite andb_true_iff, String.eqb_eq, Bool.eqb_true_iff.
  split; [intros [-> ->]; reflexivity | intros [= -> ->]; auto].
Qed.

Lemma existsb_sameReview (a : string) (p : bool) (l : list Review) :
  existsb (sameReview a p) l = true <-> In (mkReview a p) l.
Proof.
  rewrite existsb_exists. split.
  - intros [r [Hin Hr]]. apply sameReview_true in Hr. now subst.
  - intros Hin. exists (mkReview a p). split; [assumption|].
    now apply sameReview_true.
Qed.





(** Every review of the result comes from a resolved vote image. *)
Lemma parseFold_origin (ms : list Match) (st : ParseState) (r : Review) :
  In r (reviewsSoFar (fold_left (parseStep html) ms st)) ->
  In r (reviewsSoFar st) \/
  exists m, In m ms /\ closestAppId m = Some (appId r)
            /\ verdictOf m = isPositive r.
Proof.
  revert st. induction ms as [|m ms IH]; simpl; intros st H; [now left|].
  apply IH in H. destruct H as [H|[m' [Hin [Hid Hv]]]].
  - rewrite parseStep_closest in H.
    destruct (closestAppId m) as [id|] eqn:E; simpl in H; [|now left].
    destruct (existsb _ _); simpl in H; [now left|].
    apply in_app_or in H. destruct H as [H|[<-|[]]]; [now left|].
    right. exists m. simpl. auto.
  - right. exists m'. auto.
Qed.


(** The list never holds the same pair twice. *)
Lemma parseFold_NoDup (ms : list Match) (st : ParseState) :
  NoDup (reviewsSoFar st) ->
  NoDup (reviewsSoFar (fold_left (parseStep html) ms st)).
Proof.
  revert st. induction ms as [|m ms IH]; simpl; intros st H; [assumption|].
  apply IH. rewrite parseStep_closest.
  destruct (closestAppId m) as [id|]; simpl; [|assumption].
  destruct (existsb _ _) eqn:E; simpl; [assumption|].
  apply NoDup_app. repeat split.
  - assumption.
  - intros x Hx Hx'. apply list_elem_of_In in Hx, Hx'.
    destruct Hx' as [<-|[]]. apply existsb_sameReview in Hx. congruence.
  - constructor; [intros H'; inversion H' | constructor].
Qed.

End Extractor.

(** ** The matches of [matchAll] come from left to right *)

Section MatchOrder.

Variable ignoreCase : bool.
Variable r : regex.




End MatchOrder.


(** C2, as amended: in one parse pass the extractor never records the
    same (gameId, verdict) pair twice.  It deduplicates on the pair, so a
    positive and a negative verdict for one game are both kept. *)
Theorem extractor_records_each_pair_once (html : string) :
  NoDup (parseReviewsFromHTML html).
Proof.
  unfold parseReviewsFromHTML, parseLoop.
  apply parseFold_NoDup. simpl. constructor.
Qed.

(** A page with one app link followed by a thumbs-up and a thumbs-down
    image. *)
Definition contradictoryPage : string :=
  JS.markup
    ("<a href='https://steamcommunity.com/app/10'>Game</a>"
     +:+ "<img src='https://community.akamai.steamstatic.com/public/shared/images/userreviews/icon_thumbsUp.png'>"
     +:+ "<img src='https://community.akamai.steamstatic.com/public/shared/images/userreviews/icon_thumbsDown.png'>").

Example contradictoryPage_parse :
  parseReviewsFromHTML contradictoryPage
  = [mkReview "10" true; mkReview "10" false].
Proof. vm_compute. reflexivity. Qed.

(** C2, as stated, fails: one parse pass can record a positive and a
    negative verdict for the same gameId. *)
Lemma extractor_contradictory_verdicts :
  ~ (forall html r1 r2,
       In r1 (parseReviewsFromHTML html) ->
       In r2 (parseReviewsFromHTML html) ->
       appId r1 = appId r2 -> isPositive r1 = isPositive r2).
Proof.
  intros H.
  specialize (H contradictoryPage (mkReview "10" true) (mkReview "10" false)).
  rewrite contradictoryPage_parse in H.
  assert (E : true = false) by (apply H; simpl; auto).
  discriminate E.
Qed.




(** ** The scoring engine *)

Section Scoring.

Variable userReviewMap : gmap string bool.

(** The reviewer's reviews of games that the subject has reviewed, and
    those among them with the subject's verdict. *)
Definition overlaps (review : Review) : bool :=
  match userReviewMap !! appId review with Some _ => true | None => false end.

Definition agrees (review : Review) : bool :=
  match userReviewMap !! appId review with
  | Some verdict => Bool.eqb verdict (isPositive review)
  | None => false
  end.

Lemma countFold (l : list Review) (c : nat * nat) :
  fold_left (countStep userReviewMap) l c
  = (fst c + List.length (List.filter overlaps l),
     snd c + List.length (List.filter agrees l)).
Proof.
  revert c. induction l as [|review l IH]; intros [o a]; simpl.
  - f_equal; lia.
  - rewrite IH. unfold countStep, overlaps, agrees.
    destruct (userReviewMap !! appId review) as [verdict|]; simpl.
    + destruct (Bool.eqb verdict (isPositive review)); simpl; f_equal; lia.
    + reflexivity.
Qed.

(** [overlapCount] and [agreementCount] count what the spec says. *)
Lemma overlapAgreement_counts (reviewer : ReviewerRecord) :
  overlapAgreement userReviewMap reviewer
  = (List.length (List.filter overlaps (reviews reviewer)),
     List.length (List.filter agrees (reviews reviewer))).
Proof. unfold overlapAgreement. now rewrite countFold. Qed.

Lemma agreement_le_overlap (reviewer : ReviewerRecord) :
  snd (overlapAgreement userReviewMap reviewer)
  <= fst (overlapAgreement userReviewMap reviewer).
Proof.
  rewrite overlapAgreement_counts. simpl.
  induction (reviews reviewer) as [|review l IH]; simpl; [lia|].
  unfold overlaps, agrees in *.
  destruct (userReviewMap !! appId review) as [verdict|]; simpl; [|exact IH].
  destruct (Bool.eqb verdict (isPositive review)); simpl; lia.
Qed.

Variable targetAppId : string.
Variables minOverlap minSimilarity : Z.

Definition overlapCount (reviewer : ReviewerRecord) : nat :=
  fst (overlapAgreement userReviewMap reviewer).
Definition agreementCount (reviewer : ReviewerRecord) : nat :=
  snd (overlapAgreement userReviewMap reviewer).

(** The two tests that a reviewer passes to be counted as matching. *)
Definition isMatching (reviewer : ReviewerRecord) : bool :=
  (minOverlap <=? Z.of_nat (overlapCount reviewer))%Z
  && Num.ge (similarityOf (overlapCount reviewer) (agreementCount reviewer))
            (Num.ofZ minSimilarity).

Lemma scoreStep_isMatching (t : Tally) (reviewer : ReviewerRecord) :
  scoreStep userReviewMap targetAppId minOverlap minSimilarity t reviewer
  = if isMatching reviewer
    then mkTally (S (tMatchingReviewers t))
                 (if targetPositive targetAppId reviewer
                  then S (tPositiveCount t) else tPositiveCount t)
                 (tTotalOverlap t + overlapCount reviewer)
    else t.
Proof.
  unfold scoreStep, isMatching, overlapCount, agreementCount.
  destruct (overlapAgreement userReviewMap reviewer) as [o a]. simpl.
  destruct (minOverlap <=? Z.of_nat o)%Z; simpl; reflexivity.
Qed.

(** What the outer loop has counted at its end. *)
Lemma scoreFold (l : list ReviewerRecord) (t : Tally) :
  let q := List.filter isMatching l in
  fold_left (scoreStep userReviewMap targetAppId minOverlap minSimilarity) l t
  = mkTally (tMatchingReviewers t + List.length q)
            (tPositiveCount t
             + List.length (List.filter (targetPositive targetAppId) q))
            (tTotalOverlap t + list_sum (map overlapCount q)).
Proof.
  revert t. induction l as [|reviewer l IH]; intros [m p o]; simpl.
  - f_equal; lia.
  - rewrite IH, scoreStep_isMatching.
    destruct (isMatching reviewer); simpl.
    + destruct (targetPositive targetAppId reviewer); simpl; f_equal; lia.
    + reflexivity.
Qed.

End Scoring.

(** A comparison with NaN is false. *)
Lemma ge_NaN (y : Num.number) : Num.ge Num.NaN y = false.
Proof. destruct y as [[]|[]| |[] m e]; reflexivity. Qed.

(** [(0 / 0) * 100] is NaN. *)
Lemma similarityOf_zero : similarityOf 0 0 = Num.NaN.
Proof. reflexivity. Qed.

(** C1, as amended: the script has no special case for a reviewer with
    [overlapCount = 0]; it evaluates [(0 / 0) * 100], which is NaN and
    raises nothing, and every comparison with NaN is false: such a
    reviewer is never counted as matching, whatever [minOverlap] and
    [minSimilarity] are. *)
Theorem zero_overlap_never_matches (userReviews : list Review)
    (reviewer : ReviewerRecord) (targetAppId : string)
    (minOverlap minSimilarity : Z) (t : Tally) :
  let userReviewMap := userReviewMapOf userReviews in
  overlapCount userReviewMap reviewer = 0 ->
  similarityOf (overlapCount userReviewMap reviewer)
               (agreementCount userReviewMap reviewer) = Num.NaN
  /\ isMatching userReviewMap minOverlap minSimilarity reviewer = false
  /\ scoreStep userReviewMap targetAppId minOverlap minSimilarity t reviewer = t.
Proof.
  intros m H.
  assert (Ha : agreementCount m reviewer = 0).
  { pose proof (agreement_le_overlap m reviewer) as Hle.
    unfold overlapCount in H. unfold agreementCount. lia. }
  assert (Hm : isMatching m minOverlap minSimilarity reviewer = false).
  { unfold isMatching. rewrite H, Ha, similarityOf_zero, ge_NaN.
    apply andb_false_r. }
  repeat split.
  - now rewrite H, Ha.
  - exact Hm.
  - now rewrite scoreStep_isMatching, Hm.
Qed.

(** A subject and a reviewer with no game in common. *)
Definition loneSubject : list Review := [mkReview "20" true].
Definition strangerReviewer : ReviewerRecord :=
  mkReviewerRecord "76561198000000002" [mkReview "30" true; mkReview "10" true].

(** The theorem at this pair: the reviewer leaves the counters as they
    are. *)
Lemma zero_overlap_never_matches_witness :
  scoreStep (userReviewMapOf loneSubject) "10" 0 0 (mkTally 0 0 0) strangerReviewer
  = mkTally 0 0 0.
Proof.
  apply (zero_overlap_never_matches loneSubject strangerReviewer "10" 0 0
           (mkTally 0 0 0)).
  vm_compute. reflexivity.
Defined.

(** C1, as stated, fails: with [minOverlap = 0] and [minSimilarity = 0] a
    reviewer with no overlap is still not counted. *)
Lemma zero_overlap_thresholds_zero :
  ~ (forall userReviews reviewer targetAppId minOverlap minSimilarity,
       overlapCount (userReviewMapOf userReviews) reviewer = 0 ->
       (matchingReviewers
          (calculateScore userReviews [reviewer] targetAppId
                          minOverlap minSimilarity) = 1
        <-> (minOverlap <= 0 /\ minSimilarity <= 0)%Z)).
Proof.
  intros H.
  specialize (H loneSubject strangerReviewer "10" 0%Z 0%Z).
  assert (E : matchingReviewers
                (calculateScore loneSubject [strangerReviewer] "10" 0 0) = 1).
  { apply H; [vm_compute; reflexivity | lia]. }
  vm_compute in E. discriminate E.
Qed.

(** ** The rounded percentage *)

(** [(positiveCount / matchingReviewers) * 100], before it is rounded. *)
Definition percentageOf (positiveCount matchingReviewers : nat) : Num.number :=
  Num.mul (Num.div (Num.ofNat positiveCount) (Num.ofNat matchingReviewers))
          (Num.ofNat 100).

(** A finite number is [signed s m * 2 ^ e]. *)
Definition signed (s : bool) (m : positive) : Z :=
  if s then Z.neg m else Z.pos m.

(** The rounding of the spec: [y] is the integer nearest to [x], the
    larger one on a tie.  A finite [x] with a negative exponent [e] lies
    between two integers, and [y] is the integer [n] with
    [n - 1/2 <= x < n + 1/2], an inequality that is stated here multiplied
    by [2 * 2 ^ (- e)]; the zero that stands for [n = 0] has the sign of
    [x].  The other numbers have no fractional part and are their own
    rounding. *)
Definition nearestInteger (x y : Num.number) : Prop :=
  match x with
  | S754_finite s m e =>
      if (0 <=? e)%Z then y = x
      else
        exists n : Z,
          ((2 * n - 1) * 2 ^ (- e) <= 2 * signed s m < (2 * n + 1) * 2 ^ (- e))%Z
          /\ y = (if (n =? 0)%Z then S754_zero s else Num.ofZ n)
  | _ => y = x
  end.


(** The integer nearest to a finite number is unique. *)
Lemma nearestInteger_unique (x y y' : Num.number) :
  nearestInteger x y -> nearestInteger x y' -> y = y'.
Proof.
  destruct x as [s|s| |s m e]; simpl; try congruence.
  destruct (0 <=? e)%Z eqn:He; [congruence|].
  apply Z.leb_gt in He.
  assert (Hd : (0 < 2 ^ (- e))%Z) by (apply Z.pow_pos_nonneg; lia).
  intros [n [Hn ->]] [n' [Hn' ->]].
  assert (n = n') by nia. now subst n'.
Qed.













(** The scenarios of the scoring engine: the subject reviewed A and C
    positively and B negatively; the reviewer agrees on A and B and also
    reviewed D and the target game T. *)
Definition scenarioSubject : list Review :=
  [mkReview "A" true; mkReview "B" false; mkReview "C" true].
Definition scenarioReviewer : ReviewerRecord :=
  mkReviewerRecord "76561198000000003"
    [mkReview "A" true; mkReview "B" false; mkReview "D" true; mkReview "T" true].

Example scenario_qualifies :
  calculateScore scenarioSubject [scenarioReviewer] "T" 2 50
  = mkAnalysisResult (Num.ofNat 100) 1 1 1 (Num.ofNat 2) 2 50.
Proof. vm_compute. reflexivity. Qed.

Example scenario_excluded :
  calculateScore scenarioSubject [scenarioReviewer] "T" 3 50
  = mkAnalysisResult Num.zero 1 0 0 Num.zero 3 50.
Proof. vm_compute. reflexivity. Qed.

(** Two more reviewers agree with the subject; they did not review T, or
    reviewed it negatively. *)
Definition scenarioOthers : list ReviewerRecord :=
  [mkReviewerRecord "76561198000000004" [mkReview "A" true; mkReview "C" true];
   mkReviewerRecord "76561198000000005"
     [mkReview "T" false; mkReview "B" false; mkReview "C" true]].


Example score_of_three_is_33 :
  score (calculateScore scenarioSubject (scenarioReviewer :: scenarioOthers)
                        "T" 2 50)
  = Num.ofZ 33.
Proof. vm_compute. reflexivity. Qed.

(** At a tie of the exact percentage the binary64 percentage can lie below
    it: 23 out of 40 is 57.5, the product of the quotient and 100 is the
    Number just below 57.5, and the score is 57. *)
Example score_at_a_tie :
  Num.round (percentageOf 23 40) = Num.ofZ 57
  /\ (2 * (100 * 23) = (2 * 57 + 1) * 40)%Z
  /\ SFltb (percentageOf 23 40) (Num.div (Num.ofZ 115) (Num.ofZ 2)) = true.
Proof. vm_compute. auto. Qed.

(** ** How async functions end *)

(** A call leaves the result and error keys of the storage alone. *)
Definition keeps (st st' : State) : Prop :=
  analysisError (storage st') = analysisError (storage st)
  /\ analysisResult (storage st') = analysisResult (storage st).

Lemma keeps_refl (st : State) : keeps st st.
Proof. split; reflexivity. Qed.

Lemma keeps_trans (st1 st2 st3 : State) :
  keeps st1 st2 -> keeps st2 st3 -> keeps st1 st3.
Proof. unfold keeps. intros [-> ->] [-> ->]. split; reflexivity. Qed.

(** [ends P c]: from every state, [c] completes, leaves the result and
    error keys alone, and throws only messages that satisfy [P]. *)
Definition ends {A : Type} (P : string -> Prop) (c : M A) : Prop :=
  forall st,
    match c st with
    | (Normal _, st') => keeps st st'
    | (Throw message, st') => P message /\ keeps st st'
    | (OutOfFuel, _) => False
    end.

Definition anyMessage : string -> Prop := fun _ => True.
Definition noMessage : string -> Prop := fun _ => False.

Lemma ends_ret {A : Type} (P : string -> Prop) (a : A) : ends P (ret a).
Proof. intros st. apply keeps_refl. Qed.

Lemma ends_throw {A : Type} (P : string -> Prop) (message : string) :
  P message -> ends P (@throw A message).
Proof. intros H st. split; [assumption | apply keeps_refl]. Qed.

Lemma ends_bind {A B : Type} (P : string -> Prop) (c : M A) (k : A -> M B) :
  ends P c -> (forall a, ends P (k a)) -> ends P (bind c k).
Proof.
  intros Hc Hk st. unfold bind. specialize (Hc st).
  destruct (c st) as [[a|message|] st1]; [|exact Hc|exact Hc].
  specialize (Hk a st1).
  destruct (k a st1) as [[b|message|] st2]; [|destruct Hk as [Hp Hk]; split|];
    eauto using keeps_trans.
Qed.

Lemma ends_tryCatch {A : Type} (P Q : string -> Prop) (c : M A)
    (handler : string -> M A) :
  ends P c -> (forall message, P message -> ends Q (handler message)) ->
  ends Q (tryCatch c handler).
Proof.
  intros Hc Hh st. unfold tryCatch. specialize (Hc st).
  destruct (c st) as [[a|message|] st1]; [exact Hc| |exact Hc].
  destruct Hc as [Hp Hc]. specialize (Hh message Hp st1).
  destruct (handler message st1) as [[b|message'|] st2];
    [|destruct Hh as [Hq Hh]; split|]; eauto using keeps_trans.
Qed.

Lemma ends_weaken {A : Type} (P Q : string -> Prop) (c : M A) :
  (forall message, P message -> Q message) -> ends P c -> ends Q c.
Proof.
  intros Hpq Hc st. specialize (Hc st).
  destruct (c st) as [[a|message|] st1]; [exact Hc| |exact Hc].
  destruct Hc. split; auto.
Qed.

(** A call that throws nothing returns a value. *)
Lemma ends_returns {A : Type} (c : M A) (st : State) :
  ends noMessage c -> exists a st', c st = (Normal a, st') /\ keeps st st'.
Proof.
  intros Hc. specialize (Hc st).
  destruct (c st) as [[a|message|] st1]; [eauto|destruct Hc as [[] _]|tauto].
Qed.

Lemma bind_normal {A B : Type} (c : M A) (k : A -> M B) (st st' : State) (a : A) :
  c st = (Normal a, st') -> bind c k st = k a st'.
Proof. intros H. unfold bind. now rewrite H. Qed.

Section PipelineEnds.

Variable w : World.

Lemma ends_readShouldCancel (P : string -> Prop) : ends P (readShouldCancel w).
Proof. intros st. split; reflexivity. Qed.

Lemma ends_fetch (P : string -> Prop) (url : string) : ends P (fetch w url).
Proof. intros st. split; reflexivity. Qed.

Lemma ends_delay (P : string -> Prop) (ms : nat) : ends P (delay ms).
Proof. intros st. split; reflexivity. Qed.

Lemma ends_updateProgress (P : string -> Prop) (p : Progress) :
  ends P (updateProgress p).
Proof. intros st. split; reflexivity. Qed.

Lemma ends_fetchWithRetryFrom (url : string) (remaining i : nat) :
  ends anyMessage (fetchWithRetryFrom w url i remaining).
Proof.
  revert i. induction remaining as [|remaining IH]; intros i; simpl;
    (apply ends_bind; [apply ends_readShouldCancel|]);
    intros [|]; try (apply ends_throw; exact I);
    (apply ends_bind; [apply ends_fetch|]);
    intros [message|[|] status text];
    try apply ends_ret; try (apply ends_throw; exact I);
    (apply ends_bind; [apply ends_delay|]); intros _; apply IH.
Qed.

Lemma ends_fetchWithRetry (url : string) : ends anyMessage (fetchWithRetry w url).
Proof. apply ends_fetchWithRetryFrom. Qed.

Lemma ends_fetchPage (baseUrl : string) (page : nat) (allReviews : list Review) :
  ends anyMessage (fetchPage w baseUrl page allReviews).
Proof.
  unfold fetchPage. apply ends_bind; [apply ends_fetchWithRetry|].
  intros html. destruct (_ =? 0); [apply ends_ret|].
  destruct (_ <? 10); [apply ends_ret|].
  apply ends_bind; [apply ends_delay|]. intros _. apply ends_ret.
Qed.

(** The bound of the loop over the pages is never used up, and no error
    leaves the loop. *)
Lemma ends_fetchPagesFrom (baseUrl : string) (fuel : nat) :
  forall page allReviews,
    maxPages < page + fuel ->
    ends noMessage (fetchPagesFrom w fuel baseUrl page allReviews).
Proof.
  induction fuel as [|fuel IH]; intros page allReviews Hfuel; simpl.
  - destruct (page <=? maxPages) eqn:E; [|apply ends_ret].
    apply Nat.leb_le in E. lia.
  - destruct (page <=? maxPages) eqn:E; [|apply ends_ret].
    apply ends_bind.
    + apply (ends_tryCatch anyMessage); [apply ends_fetchPage|].
      intros message _. apply ends_ret.
    + intros [all|all]; [apply ends_ret|]. apply IH. lia.
Qed.

(** The paginated fetcher always returns a list. *)
Lemma ends_fetchAllReviewsFromProfile (baseUrl : string) :
  ends noMessage (fetchAllReviewsFromProfile w baseUrl).
Proof. apply ends_fetchPagesFrom. unfold maxPages. lia. Qed.

(** The first attempt of [fetchReviewerReviews] returns, so the function
    is that attempt: the handler with the second URL form never runs. *)
Lemma fetchReviewerReviews_first_attempt (steamId : string) (st : State) :
  fetchReviewerReviews w steamId st
  = fetchAllReviewsFromProfile w (profilesUrl steamId) st.
Proof.
  unfold fetchReviewerReviews, tryCatch.
  destruct (ends_returns _ st (ends_fetchAllReviewsFromProfile (profilesUrl steamId)))
    as [l [st' [E _]]].
  now rewrite E.
Qed.

Lemma ends_fetchReviewerReviews (steamId : string) :
  ends noMessage (fetchReviewerReviews w steamId).
Proof.
  intros st. rewrite fetchReviewerReviews_first_attempt.
  apply ends_fetchAllReviewsFromProfile.
Qed.

End PipelineEnds.

Lemma ends_bind_with {A B : Type} (P : string -> Prop) (R : A -> Prop)
    (c : M A) (k : A -> M B) :
  ends P c ->
  (forall st a st', c st = (Normal a, st') -> R a) ->
  (forall a, R a -> ends P (k a)) ->
  ends P (bind c k).
Proof.
  intros Hc Hr Hk st. unfold bind. specialize (Hc st). specialize (Hr st).
  destruct (c st) as [[a|message|] st1]; [|exact Hc|exact Hc].
  specialize (Hk a (Hr a st1 eq_refl) st1).
  destruct (k a st1) as [[b|message|] st2]; [|destruct Hk as [Hp Hk]; split|];
    eauto using keeps_trans.
Qed.

Section CollectorAndDiscovery.

Variable w : World.

(** *** The bulk profile collector *)

(** What the counters of the collector satisfy throughout. *)
Definition collectorSound (c : Collector) : Prop :=
  errorCount c = 0
  /\ processed c = successCount c + privateProfileCount c
  /\ List.length (reviewerData c) = successCount c
  /\ Forall (fun record => reviews record <> []) (reviewerData c).

(** The collector after a reviewer whose fetch returned [l]. *)
Definition classified (reviewer : ReviewerIdentity) (l : list Review)
    (c : Collector) : Collector :=
  if List.length l =? 0
  then mkCollector (reviewerData c) (processed c) (successCount c)
                   (errorCount c) (S (privateProfileCount c))
  else mkCollector
         (reviewerData c ++ [mkReviewerRecord (reviewerSteamId reviewer) l])
         (processed c) (S (successCount c)) (errorCount c)
         (privateProfileCount c).

Lemma collectOne_returns (total : nat) (reviewer : ReviewerIdentity)
    (c : Collector) (st : State) :
  exists l st',
    collectOne w total reviewer c st = (Normal (classified reviewer l c), st')
    /\ keeps st st'.
Proof.
  unfold collectOne.
  set (st0 := mkState (flagReads st) (fetchCalls st) (trace st)
                (mkStorage (analysisRunning (storage st))
                           (ProgressAnalyzingProfile (processed c) total)
                           (analysisResult (storage st))
                           (analysisError (storage st)))).
  destruct (ends_returns _ st0
              (ends_fetchReviewerReviews w (reviewerSteamId reviewer)))
    as [l [st1 [E K]]].
  exists l.
  unfold bind at 1. unfold updateProgress, storageSet. cbv beta iota. fold st0.
  rewrite (bind_normal _ _ _ _ _ E).
  fold (classified reviewer l c).
  destruct K as [K1 K2].
  destruct (processed c mod 10 =? 0); eexists; (split; [reflexivity|]);
    split; simpl; assumption.
Qed.

Lemma classified_sound (reviewer : ReviewerIdentity) (l : list Review)
    (c : Collector) :
  errorCount c = 0 ->
  S (processed c) = S (successCount c + privateProfileCount c) ->
  List.length (reviewerData c) = successCount c ->
  Forall (fun record => reviews record <> []) (reviewerData c) ->
  collectorSound
    (classified reviewer l
       (mkCollector (reviewerData c) (S (processed c)) (successCount c)
                    (errorCount c) (privateProfileCount c))).
Proof.
  intros He Hp Hl Hf. unfold classified, collectorSound.
  destruct l as [|review l]; simpl.
  - repeat split; try assumption; lia.
  - repeat split; try assumption; try lia.
    + rewrite length_app. simpl. lia.
    + apply Forall_app. split; [assumption|].
      constructor; [discriminate|constructor].
Qed.

Lemma collectFrom_sound (rest : list ReviewerIdentity) :
  forall total c st,
    collectorSound c ->
    exists c' st',
      collectFrom w total rest c st = (Normal c', st')
      /\ collectorSound c' /\ keeps st st'.
Proof.
  induction rest as [|reviewer rest IH]; intros total c st Hc; simpl.
  - exists c, st. repeat split; try apply Hc.
  - unfold bind at 1. simpl.
    destruct (match cancelRequestedAt w with
              | Some n => n <=? flagReads st
              | None => false
              end).
    + eexists _, _. split; [reflexivity|]. split; [exact Hc|].
      split; reflexivity.
    + destruct Hc as [He [Hp [Hl Hf]]].
      set (c1 := mkCollector (reviewerData c) (S (processed c)) (successCount c)
                             (errorCount c) (privateProfileCount c)).
      set (st1 := mkState (S (flagReads st)) (fetchCalls st) (trace st) (storage st)).
      destruct (collectOne_returns total reviewer c1 st1) as [l [st2 [E K]]].
      unfold bind, tryCatch. rewrite E.
      destruct (IH total (classified reviewer l c1) st2) as [c' [st3 [E' [Hc' K']]]].
      { apply classified_sound; try assumption. lia. }
      exists c', st3. fold (@bind Collector Collector) in *.
      split; [exact E'|]. split; [exact Hc'|].
      apply (keeps_trans st st2 st3); [|exact K'].
      destruct K as [K1 K2]. split; assumption.
Qed.

Lemma ends_fetchAllReviewerData (reviewers : list ReviewerIdentity)
    (maxProfiles : nat) :
  ends noMessage (fetchAllReviewerData w reviewers maxProfiles).
Proof.
  intros st. unfold fetchAllReviewerData, collectAll.
  destruct (collectFrom_sound reviewers (List.length reviewers)
              (mkCollector [] 0 0 0 0) st) as [c [st' [E [_ K]]]].
  { repeat split; constructor. }
  rewrite (bind_normal _ _ _ _ _ E). exact K.
Qed.

(** *** Reviewer discovery *)

Variable appId : string.
Variable maxProfiles : nat.

Lemma ends_fetchBatch (d : Discovery) :
  ends anyMessage (fetchBatch w appId maxProfiles d).
Proof.
  unfold fetchBatch. apply ends_bind; [apply ends_fetchWithRetry|].
  intros response. destruct (JSON_parse w response) as [data|];
    [|apply ends_throw; exact I].
  destruct (negb (success data)); [apply ends_ret|].
  destruct (feedReviews data) as [[|entry batch]|]; try apply ends_ret.
  destruct (negb (complete (entry :: batch))); [apply ends_ret|].
  apply ends_bind; [apply ends_updateProgress|]. intros _.
  destruct (_ || _); [apply ends_ret|].
  apply ends_bind; [apply ends_delay|]. intros _. apply ends_ret.
Qed.

(** An iteration that goes on has added to [totalFetched]. *)
Lemma fetchBatch_continue (d d' : Discovery) (st st' : State) :
  fetchBatch w appId maxProfiles d st = (Normal (Continue d'), st') ->
  totalFetched d < totalFetched d'.
Proof.
  unfold fetchBatch, bind.
  destruct (fetchWithRetry w _ st) as [[response|message|] st1];
    try discriminate.
  destruct (JSON_parse w response) as [data|]; [|discriminate].
  destruct (negb (success data)); [discriminate|].
  destruct (feedReviews data) as [[|entry batch]|]; try discriminate.
  destruct (negb (complete (entry :: batch))); [discriminate|].
  cbn [updateProgress storageSet]. destruct (_ || _); [discriminate|].
  intros [= <- _]. simpl. lia.
Qed.

(** The bound of the discovery loop is never used up, and no error
    leaves the loop. *)
Lemma ends_discoverFrom (fuel : nat) :
  forall d,
    maxProfiles <= totalFetched d + fuel ->
    ends noMessage (discoverFrom w fuel appId maxProfiles d).
Proof.
  induction fuel as [|fuel IH]; intros d Hfuel; simpl.
  - destruct (totalFetched d <? maxProfiles) eqn:E; [|apply ends_ret].
    apply Nat.ltb_lt in E. lia.
  - destruct (totalFetched d <? maxProfiles) eqn:E; [|apply ends_ret].
    apply ends_bind; [apply ends_readShouldCancel|].
    intros [|]; [apply ends_ret|].
    apply (ends_bind_with noMessage
             (fun step => match step with
                          | Continue d' => totalFetched d < totalFetched d'
                          | Break _ => True
                          end)).
    + apply (ends_tryCatch anyMessage); [apply ends_fetchBatch|].
      intros message _. apply ends_ret.
    + intros st [d'|d'] st'; [trivial|]. unfold tryCatch.
      destruct (fetchBatch w appId maxProfiles d st) as [[step|message|] st1] eqn:F;
        try discriminate.
      intros [= -> ->]. now apply fetchBatch_continue in F.
    + intros [d'|d'] Hd; [apply ends_ret|]. apply IH. lia.
Qed.

Lemma ends_fetchGameReviewers :
  ends noMessage (fetchGameReviewers w appId maxProfiles).
Proof.
  unfold fetchGameReviewers. apply ends_bind.
  - apply ends_discoverFrom. simpl. lia.
  - intros d. apply ends_ret.
Qed.

End CollectorAndDiscovery.

(** ** The orchestrator *)

(** The messages with which [analyzeGame] can throw. *)
Definition analysisFailure (message : string) : Prop :=
  message = "Cancelled" \/ message = invalidSteamId \/ message = couldNotFetch
  \/ message = noReviewsFound \/ message = noReviewersFound.

Section Orchestrator.

Variable w : World.

Lemma ends_fetchUserReviews (steamId : string) :
  ends analysisFailure (fetchUserReviews w steamId).
Proof.
  unfold fetchUserReviews. destruct (userBaseUrl steamId) as [baseUrl|].
  - apply ends_bind.
    + apply (ends_weaken noMessage); [intros m []|].
      apply ends_fetchAllReviewsFromProfile.
    + intros allReviews. destruct (_ =? 0); [|apply ends_ret].
      apply ends_throw. unfold analysisFailure. tauto.
  - apply ends_throw. unfold analysisFailure. tauto.
Qed.

Lemma ends_checkCancelled : ends analysisFailure (checkCancelled w).
Proof.
  unfold checkCancelled. apply ends_bind; [apply ends_readShouldCancel|].
  intros [|]; [|apply ends_ret]. apply ends_throw. now left.
Qed.

Lemma ends_analyzeGame (p : Params) : ends analysisFailure (analyzeGame w p).
Proof.
  unfold analyzeGame.
  apply (ends_tryCatch analysisFailure);
    [|intros message H; now apply ends_throw].
  apply ends_bind; [apply ends_updateProgress|]. intros _.
  apply ends_bind; [apply ends_fetchUserReviews|]. intros userReviews.
  apply ends_bind; [apply ends_checkCancelled|]. intros _.
  destruct (_ =? 0); [apply ends_throw; unfold analysisFailure; tauto|].
  apply ends_bind; [apply ends_updateProgress|]. intros _.
  apply ends_bind.
  { apply (ends_weaken noMessage); [intros m []|]. apply ends_fetchGameReviewers. }
  intros gameReviewers.
  apply ends_bind; [apply ends_checkCancelled|]. intros _.
  destruct (_ =? 0); [apply ends_throw; unfold analysisFailure; tauto|].
  apply ends_bind; [apply ends_updateProgress|]. intros _.
  apply ends_bind.
  { apply (ends_weaken noMessage); [intros m []|]. apply ends_fetchAllReviewerData. }
  intros reviewerData.
  apply ends_bind; [apply ends_checkCancelled|]. intros _.
  apply ends_bind; [apply ends_updateProgress|]. intros _.
  apply ends_ret.
Qed.

(** How a run ends: it always completes; the error key is either empty or
    holds one of the failure messages of [analyzeGame] other than the
    cancellation; and a result is stored only with an empty error key. *)
Lemma startBackgroundAnalysis_ends (p : Params) (st : State) :
  exists st',
    startBackgroundAnalysis w p st = (Normal tt, st')
    /\ (analysisError (storage st') = None
        \/ (exists message,
              analysisError (storage st') = Some message
              /\ analysisFailure message /\ message <> "Cancelled"
              /\ analysisResult (storage st') = None)).
Proof.
  unfold startBackgroundAnalysis. unfold bind at 1. unfold storageSet at 1.
  cbv beta iota.
  set (st0 := mkState (flagReads st) (fetchCalls st) (trace st)
                (mkStorage true ProgressStarting None None)).
  pose proof (ends_analyzeGame p st0) as H.
  unfold tryCatch, bind at 1.
  destruct (analyzeGame w p st0) as [[result|message|] st1]; [| |tauto].
  - unfold bind at 1, readShouldCancel. cbv beta iota.
    destruct (match cancelRequestedAt w with
              | Some n => n <=? flagReads st1
              | None => false
              end); eexists; (split; [reflexivity|]); left; reflexivity.
  - destruct H as [Hm [He Hr]].
    destruct (String.eqb message "Cancelled") eqn:E; simpl.
    + exists st1. split; [reflexivity|]. left. exact He.
    + eexists. split; [reflexivity|]. right. exists message. simpl.
      repeat split; try assumption.
      intros ->. rewrite String.eqb_refl in E. discriminate.
Qed.

End Orchestrator.

(** ** Worlds for the examples *)

(** A block of a review-history page: the link of a game and the vote
    image that follows it. *)
Definition reviewBlock (id : string) (up : bool) : string :=
  JS.markup
    ("<div class='review'><a href='https://steamcommunity.com/app/" +:+ id
     +:+ "'>Game</a><img src='https://community.akamai.steamstatic.com/public/shared/images/userreviews/icon_thumbs"
     +:+ (if up then "Up" else "Down") +:+ ".png'></div>").

(** A page with a positive review of each of the games in [ids]. *)
Definition pageOf (ids : list nat) : string :=
  fold_right (fun id body => reviewBlock (JS.showNat id) true +:+ body) "" ids.

Definition subjectId : string := "76561198000000001".
Definition reviewerId : string := "76561198000000002".
Definition subjectUrl : string := profilesUrl subjectId.

(** The feed answers one batch with one reviewer and no cursor. *)
Definition oneReviewerFeed (body : string) : option FeedData :=
  if String.eqb body "feed"
  then Some (mkFeedData true (Some [WithAuthor (mkFeedReview reviewerId true)])
                        None)
  else None.

(** The subject has a full first page and the request of the second page
    always fails; the feed and the reviewer's profile answer. *)
Definition secondPageFails (n : nat) (url : string) : FetchResult :=
  if String.eqb url subjectUrl then Response true 200 (pageOf (seq 1 10))
  else if String.eqb url (pageUrl subjectUrl 2) then NetworkError "Failed to fetch"
  else if String.eqb url (feedUrl "10" "*") then Response true 200 "feed"
  else if String.eqb url (profilesUrl reviewerId)
       then Response true 200 (pageOf [1; 2; 10])
  else Response false 404 "".

Definition secondPageFailsWorld : World :=
  mkWorld None secondPageFails oneReviewerFeed (fun s => s).

Definition sampleParams : Params := mkParams "10" subjectId 1 50 20.

Definition idleStorage : Storage := mkStorage false ProgressComplete None None.

(** C4, as stated, fails: the request of the second page of the subject's
    history fails on each of its three attempts, and the run completes
    with a result and no error. *)
Lemma transport_error_in_subject_fetch_completes :
  let final := snd (startBackgroundAnalysis secondPageFailsWorld sampleParams
                      (initialState idleStorage)) in
  (forall n, network secondPageFailsWorld n (pageUrl subjectUrl 2)
             = NetworkError "Failed to fetch")
  /\ List.length
       (List.filter
          (fun e => match e with
                    | EvFetch url => String.eqb url (pageUrl subjectUrl 2)
                    | _ => false
                    end) (trace final)) = 3
  /\ analysisProgress (storage final) = ProgressComplete
  /\ analysisError (storage final) = None
  /\ analysisResult (storage final)
     = Some (mkAnalysisResult (Num.ofNat 100) 1 1 1 (Num.ofNat 3) 1 50).
Proof.
  split; [intros n; reflexivity|]. vm_compute. repeat split.
Qed.

(** C4, as amended: a transport error never leaves the stage in which it
    occurs.  The paginated fetcher, reviewer discovery and the bulk
    collector always return a list; the fetch of the subject's reviews
    fails exactly when the list that the fetcher returns is empty; and a
    run stores an error only for an invalid Steam id, an empty review list
    of the subject or an empty list of reviewers, and then stores no
    result. *)
Theorem transport_errors_stay_in_their_stage (w : World) :
  (forall baseUrl st, exists l st',
      fetchAllReviewsFromProfile w baseUrl st = (Normal l, st'))
  /\ (forall appId maxProfiles st, exists l st',
        fetchGameReviewers w appId maxProfiles st = (Normal l, st'))
  /\ (forall reviewers maxProfiles st, exists l st',
        fetchAllReviewerData w reviewers maxProfiles st = (Normal l, st'))
  /\ (forall steamId baseUrl st l st',
        userBaseUrl steamId = Some baseUrl ->
        fetchAllReviewsFromProfile w baseUrl st = (Normal l, st') ->
        fetchUserReviews w steamId st
        = (if List.length l =? 0 then Throw couldNotFetch else Normal l, st'))
  /\ (forall p st, exists st',
        startBackgroundAnalysis w p st = (Normal tt, st')
        /\ (analysisError (storage st') = None
            \/ (analysisResult (storage st') = None
                /\ (analysisError (storage st') = Some invalidSteamId
                    \/ analysisError (storage st') = Some couldNotFetch
                    \/ analysisError (storage st') = Some noReviewsFound
                    \/ analysisError (storage st') = Some noReviewersFound)))).
Proof.
  repeat split.
  - intros baseUrl st.
    destruct (ends_returns _ st (ends_fetchAllReviewsFromProfile w baseUrl))
      as [l [st' [E _]]]. eauto.
  - intros appId maxProfiles st.
    destruct (ends_returns _ st (ends_fetchGameReviewers w appId maxProfiles))
      as [l [st' [E _]]]. eauto.
  - intros reviewers maxProfiles st.
    destruct (ends_returns _ st (ends_fetchAllReviewerData w reviewers maxProfiles))
      as [l [st' [E _]]]. eauto.
  - intros steamId baseUrl st l st' Hbase Hrun.
    unfold fetchUserReviews. rewrite Hbase.
    rewrite (bind_normal _ _ _ _ _ Hrun).
    destruct (List.length l =? 0); reflexivity.
  - intros p st.
    destruct (startBackgroundAnalysis_ends w p st) as [st' [E H]].
    exists st'. split; [exact E|].
    destruct H as [H|[message [He [Hf [Hc Hr]]]]]; [now left|].
    right. split; [exact Hr|]. rewrite He.
    destruct Hf as [-> | [-> | [-> | [-> | ->]]]]; tauto.
Qed.

(** The theorem in the world where the second page of the subject fails:
    the fetch of the subject's reviews returns the ten reviews of the
    first page. *)
Lemma transport_errors_stay_in_their_stage_witness :
  userBaseUrl subjectId = Some subjectUrl
  /\ fst (fetchUserReviews secondPageFailsWorld subjectId (initialState idleStorage))
     = Normal (parseReviewsFromHTML (pageOf (seq 1 10))).
Proof.
  assert (Hbase : userBaseUrl subjectId = Some subjectUrl)
    by (vm_compute; reflexivity).
  split; [exact Hbase|].
  destruct (transport_errors_stay_in_their_stage secondPageFailsWorld)
    as [Hfetch [_ [_ [Huser _]]]].
  destruct (Hfetch subjectUrl (initialState idleStorage)) as [l [st' Hrun]].
  rewrite (Huser subjectId subjectUrl _ l st' Hbase Hrun).
  assert (Hl : l = parseReviewsFromHTML (pageOf (seq 1 10))).
  { assert (H : fst (fetchAllReviewsFromProfile secondPageFailsWorld subjectUrl
                       (initialState idleStorage))
                = Normal (parseReviewsFromHTML (pageOf (seq 1 10))))
      by (vm_compute; reflexivity).
    rewrite Hrun in H. cbn [fst] in H.
    apply (f_equal (fun c => match c with Normal x => x | _ => [] end)) in H.
    exact H. }
  subst l.
  assert (Hten : List.length (parseReviewsFromHTML (pageOf (seq 1 10))) = 10)
    by (vm_compute; reflexivity).
  rewrite Hten. reflexivity.
Defined.

(** C10: [fetchReviewerReviews] always returns a list, because the
    paginated fetcher always does; so the bulk collector classifies every
    reviewer it processes as succeeded (a record with a non-empty list) or
    as private or empty, and its error counter stays at 0. *)
Theorem reviewer_fetch_never_throws (w : World) :
  (forall baseUrl st, exists l st',
      fetchAllReviewsFromProfile w baseUrl st = (Normal l, st'))
  /\ (forall steamId st, exists l st',
        fetchReviewerReviews w steamId st = (Normal l, st'))
  /\ (forall reviewers st, exists c st',
        collectAll w reviewers st = (Normal c, st')
        /\ errorCount c = 0
        /\ processed c = successCount c + privateProfileCount c
        /\ List.length (reviewerData c) = successCount c
        /\ Forall (fun record => reviews record <> []) (reviewerData c)).
Proof.
  repeat split.
  - intros baseUrl st.
    destruct (ends_returns _ st (ends_fetchAllReviewsFromProfile w baseUrl))
      as [l [st' [E _]]]. eauto.
  - intros steamId st.
    destruct (ends_returns _ st (ends_fetchReviewerReviews w steamId))
      as [l [st' [E _]]]. eauto.
  - intros reviewers st. unfold collectAll.
    destruct (collectFrom_sound w reviewers (List.length reviewers)
                (mkCollector [] 0 0 0 0) st) as [c [st' [E [Hc _]]]].
    { repeat split; constructor. }
    exists c, st'. split; [exact E|]. exact Hc.
Qed.

(** The profile of the reviewer does not answer under its numeric form
    and has three reviews under its vanity form. *)
Definition vanityOnly (n : nat) (url : string) : FetchResult :=
  if String.eqb url (idUrl reviewerId) then Response true 200 (pageOf [1; 2; 3])
  else Response false 404 "".

Definition vanityOnlyWorld : World :=
  mkWorld None vanityOnly oneReviewerFeed (fun s => s).

(** C5 fails on the script: the numeric form fails on its three attempts,
    the function returns the empty list, and the vanity form, which would
    have given three reviews, is never requested. *)
Theorem vanity_form_never_attempted :
  let st := initialState idleStorage in
  fst (fetchReviewerReviews vanityOnlyWorld reviewerId st) = Normal []
  /\ trace (snd (fetchReviewerReviews vanityOnlyWorld reviewerId st))
     = [EvFetch (profilesUrl reviewerId); EvDelay 1000;
        EvFetch (profilesUrl reviewerId); EvDelay 2000;
        EvFetch (profilesUrl reviewerId)]
  /\ List.length
       (match fst (fetchAllReviewsFromProfile vanityOnlyWorld (idUrl reviewerId) st) with
        | Normal l => l
        | _ => []
        end) = 3.
Proof. vm_compute. repeat split. Qed.

(** The subject's profile is public and has three reviews; the cancel
    message arrives before the first read of [shouldCancel]. *)
Definition publicProfile (n : nat) (url : string) : FetchResult :=
  if String.eqb url subjectUrl then Response true 200 (pageOf [1; 2; 3])
  else if String.eqb url (feedUrl "10" "*") then Response true 200 "feed"
  else if String.eqb url (profilesUrl reviewerId)
       then Response true 200 (pageOf [1; 2; 10])
  else Response false 404 "".

Definition cancelledAtOnceWorld : World :=
  mkWorld (Some 0) publicProfile oneReviewerFeed (fun s => s).

(** C3 fails on the script: when the cancellation is seen by the fetch of
    the first page of the subject's history, the paginated fetcher returns
    the empty list, [fetchUserReviews] throws its own error, and the run
    stores that error. *)
Theorem cancel_before_first_page_stores_error :
  let final := snd (startBackgroundAnalysis cancelledAtOnceWorld sampleParams
                      (initialState idleStorage)) in
  storage final = mkStorage false ProgressError None (Some couldNotFetch)
  /\ trace final = [EvNotify "Steam Analysis Failed"].
Proof. vm_compute. repeat split. Qed.

(** The same holds whatever the network answers and whatever the
    parameters are, as long as the Steam id is accepted. *)
Lemma cancel_at_first_read_stores_error (w : World) (p : Params) (st : State) :
  cancelRequestedAt w = Some 0 ->
  userBaseUrl (paramSteamId p) <> None ->
  analysisError (storage (snd (startBackgroundAnalysis w p st)))
  = Some couldNotFetch.
Proof.
  intros Hc Hu.
  unfold startBackgroundAnalysis, analyzeGame, fetchUserReviews.
  destruct (userBaseUrl (paramSteamId p)) as [baseUrl|]; [|congruence].
  unfold fetchAllReviewsFromProfile, maxPages. simpl.
  unfold bind, tryCatch, storageSet, updateProgress, storageSet, fetchPage,
    fetchWithRetry, fetchWithRetryFrom, bind, readShouldCancel.
  rewrite Hc. simpl. reflexivity.
Qed.

(** Splits the conjunctions of the goal and nothing else. *)
Ltac conjuncts := repeat match goal with |- _ /\ _ => split end.

(** ** The paginated profile fetcher *)

(** The URLs requested, in order. *)
Definition fetchedUrls (tr : list Event) : list string :=
  flat_map (fun e => match e with EvFetch url => [url] | _ => [] end) tr.

Lemma fetchedUrls_app (tr1 tr2 : list Event) :
  fetchedUrls (tr1 ++ tr2) = fetchedUrls tr1 ++ fetchedUrls tr2.
Proof. unfold fetchedUrls. apply flat_map_app. Qed.

Section Pagination.

Variable w : World.
Variable baseUrl : string.

(** The profile: the text of each of its pages.  Every request of a page
    is answered with that text. *)
Variable pages : nat -> string.
Hypothesis served :
  forall n page, 1 <= page <= maxPages -> exists status,
    network w n (pageUrl baseUrl page) = Response true status (pages page).

Definition pageReviews (page : nat) : list Review :=
  parseReviewsFromHTML (pages page).
Definition pageSize (page : nat) : nat := List.length (pageReviews page).

Lemma fetchWithRetry_cancelled (url : string) (st : State) :
  flagSet w (flagReads st) = true ->
  fetchWithRetry w url st = (Throw "Cancelled", afterRead st).
Proof.
  intros H. unfold fetchWithRetry, fetchWithRetryFrom, bind, readShouldCancel.
  unfold flagSet in H. rewrite H. reflexivity.
Qed.

Lemma fetchWithRetry_served (page : nat) (st : State) :
  1 <= page <= maxPages ->
  flagSet w (flagReads st) = false ->
  fetchWithRetry w (pageUrl baseUrl page) st
  = (Normal (pages page), afterFetch st (pageUrl baseUrl page)).
Proof.
  intros Hpage H. unfold fetchWithRetry, fetchWithRetryFrom, bind, readShouldCancel.
  unfold flagSet in H. rewrite H. unfold fetch. cbv beta iota. simpl.
  destruct (served (fetchCalls st) page Hpage) as [status E]. rewrite E.
  reflexivity.
Qed.

Lemma fetchPagesFrom_step (fuel page : nat) (allReviews : list Review) :
  fetchPagesFrom w (S fuel) baseUrl page allReviews
  = if page <=? maxPages then
      bind (tryCatch (fetchPage w baseUrl page allReviews)
                     (fun _ => ret (Break allReviews)))
           (fun step =>
              match step with
              | Break all => ret all
              | Continue all => fetchPagesFrom w fuel baseUrl (S page) all
              end)
    else ret allReviews.
Proof. reflexivity. Qed.

(** The loop from [page] on: [n] is the last page it fetches. *)
Lemma fetchPagesFrom_served (fuel : nat) :
  forall page allReviews st,
    1 <= page -> page + fuel = S maxPages ->
    exists n st',
      page <= S n /\ n <= maxPages
      /\ fetchPagesFrom w fuel baseUrl page allReviews st
         = (Normal (allReviews ++ flat_map pageReviews (seq page (S n - page))), st')
      /\ fetchedUrls (trace st')
         = fetchedUrls (trace st) ++ map (pageUrl baseUrl) (seq page (S n - page))
      /\ (forall q, page <= q <= n ->
                    flagSet w (flagReads st + (q - page)) = false)
      /\ (forall q, page <= q < n -> 10 <= pageSize q)
      /\ (n = maxPages
          \/ flagSet w (flagReads st + (S n - page)) = true
          \/ (page <= n /\ pageSize n < 10)).
Proof.
  induction fuel as [|fuel IH]; intros page allReviews st Hpage Hfuel.
  - exists maxPages, st. assert (Hp : page = S maxPages) by lia. subst page.
    rewrite Nat.sub_diag. simpl. rewrite !app_nil_r.
    repeat split; try lia.
  - rewrite fetchPagesFrom_step.
    assert (Hle : (page <=? maxPages) = true) by (apply Nat.leb_le; lia).
    rewrite Hle.
    destruct (flagSet w (flagReads st)) eqn:Hflag.
    + (* the cancellation is seen before the page is requested *)
      exists (page - 1), (afterRead st).
      assert (Hs : S (page - 1) - page = 0) by lia. rewrite Hs.
      simpl seq. simpl flat_map. simpl map. rewrite !app_nil_r.
      repeat split; try lia.
      * unfold bind, tryCatch, fetchPage, bind.
        rewrite (fetchWithRetry_cancelled _ _ Hflag). reflexivity.
      * right. left. now rewrite Nat.add_0_r.
    + assert (Hrange : 1 <= page <= maxPages) by lia.
      pose proof (fetchWithRetry_served page st Hrange Hflag) as Hfetch.
      set (st1 := afterFetch st (pageUrl baseUrl page)) in *.
      assert (Hseq : forall n, page <= n ->
                seq page (S n - page) = page :: seq (S page) (S n - S page)).
      { intros n Hn. replace (S n - page) with (S (S n - S page)) by lia.
        reflexivity. }
      assert (Hone : S page - page = 1) by lia.
      destruct (pageSize page =? 0) eqn:Hzero;
        [|destruct (pageSize page <? 10) eqn:Hshort].
      * (* no review on the page *)
        exists page, st1.
        apply Nat.eqb_eq in Hzero.
        assert (Hnil : pageReviews page = []).
        { unfold pageSize in Hzero. now destruct (pageReviews page). }
        rewrite Hone. simpl seq. simpl flat_map. simpl map.
        rewrite Hnil. rewrite !app_nil_r.
        repeat split; try lia.
        -- unfold bind, tryCatch, fetchPage, bind. rewrite Hfetch.
           fold (pageReviews page). rewrite Hnil. reflexivity.
        -- unfold st1, afterFetch. simpl. now rewrite fetchedUrls_app.
        -- intros q Hq. assert (q = page) by lia. subst q.
           now rewrite Nat.sub_diag, Nat.add_0_r.
      * (* fewer than 10 reviews on the page *)
        exists page, st1.
        rewrite Hone. simpl seq. simpl flat_map. simpl map. rewrite !app_nil_r.
        repeat split; try lia.
        -- unfold bind, tryCatch, fetchPage, bind. rewrite Hfetch.
           fold (pageReviews page). fold (pageSize page).
           rewrite Hzero, Hshort. reflexivity.
        -- unfold st1, afterFetch. simpl. now rewrite fetchedUrls_app.
        -- intros q Hq. assert (q = page) by lia. subst q.
           now rewrite Nat.sub_diag, Nat.add_0_r.
        -- right. right. split; [lia|]. now apply Nat.ltb_lt.
      * (* a full page: the loop goes on *)
        apply Nat.ltb_ge in Hshort.
        set (st2 := mkState (flagReads st1) (fetchCalls st1)
                      (trace st1 ++ [EvDelay 200]) (storage st1)).
        destruct (IH (S page) (allReviews ++ pageReviews page) st2)
          as [n [st' [Hn1 [Hn2 [Hrun [Htrace [Hflags [Hfull Hstop]]]]]]]];
          [lia|lia|].
        exists n, st'.
        rewrite (Hseq n) by lia. simpl flat_map. simpl map.
        repeat split; try lia.
        -- unfold bind at 1. unfold tryCatch, fetchPage, bind. rewrite Hfetch.
           fold (pageReviews page). fold (pageSize page).
           rewrite Hzero. apply Nat.ltb_ge in Hshort. rewrite Hshort.
           unfold delay, emit, ret. cbv beta iota. fold st1. fold st2.
           rewrite Hrun. now rewrite <- app_assoc.
        -- rewrite Htrace. unfold st2, st1, afterFetch. simpl.
           rewrite !fetchedUrls_app. simpl. now rewrite app_nil_r, <- app_assoc.
        -- intros q Hq. destruct (Nat.eq_dec q page) as [->|Hne].
           ++ now rewrite Nat.sub_diag, Nat.add_0_r.
           ++ specialize (Hflags q). unfold st2, st1, afterFetch in Hflags.
              simpl in Hflags.
              replace (flagReads st + (q - page))
                with (S (flagReads st + (q - S page))) by lia.
              apply Hflags. lia.
        -- intros q Hq. destruct (Nat.eq_dec q page) as [->|Hne];
             [assumption|]. apply Hfull. lia.
        -- destruct Hstop as [Hstop|[Hstop|Hstop]].
           ++ now left.
           ++ right. left. unfold st2, st1, afterFetch in Hstop. simpl in Hstop.
              replace (flagReads st + (S n - page))
                with (S (flagReads st + (S n - S page))) by lia.
              exact Hstop.
           ++ right. right. split; lia.
Qed.

End Pagination.

(** ** How a request ends *)

(** How a call of [fetchWithRetry] ends: with the text of an answer, with
    the error of the cancellation, or with the error of its last
    attempt. *)
Inductive RequestEnd : Type :=
| Answered (text : string)
| Interrupted
| Exhausted (message : string).

Definition completionOf (e : RequestEnd) : Completion string :=
  match e with
  | Answered text => Normal text
  | Interrupted => Throw "Cancelled"
  | Exhausted message => Throw message
  end.

(** The attempts 0 to [k - 1] of the request of [url] fail, when the
    request starts with the read number [r] of [shouldCancel] and the call
    number [c] of [fetch]: the read of each finds the flag not set, and
    its call ends with an error. *)
Definition attemptsFail (w : World) (url : string) (r c k : nat) : Prop :=
  forall i, i < k ->
    flagSet w (i + r) = false
    /\ failureMessage (network w (i + c) url) <> None.

(** [requestEnds w url r c e reads calls]: that request ends with [e],
    after [reads] reads of the flag and [calls] calls of [fetch].  It is
    answered when, after at most two failed attempts, the flag is not set
    and the call is answered with an ok status; it is interrupted when,
    after at most two failed attempts, the read finds the flag set; it is
    exhausted when three attempts fail. *)
Definition requestEnds (w : World) (url : string) (r c : nat) (e : RequestEnd)
    (reads calls : nat) : Prop :=
  match e with
  | Answered text =>
      exists k status,
        k <= 2 /\ attemptsFail w url r c k
        /\ flagSet w (k + r) = false
        /\ network w (k + c) url = Response true status text
        /\ reads = S k /\ calls = S k
  | Interrupted =>
      exists k,
        k <= 2 /\ attemptsFail w url r c k
        /\ flagSet w (k + r) = true
        /\ reads = S k /\ calls = k
  | Exhausted message =>
      attemptsFail w url r c 3
      /\ failureMessage (network w (2 + c) url) = Some message
      /\ reads = 3 /\ calls = 3
  end.

Section Requests.

Variable w : World.
Variable url : string.

Lemma fetchWithRetryFrom_eq (i remaining : nat) :
  fetchWithRetryFrom w url i remaining
  = bind (readShouldCancel w) (fun cancel =>
      if cancel then throw "Cancelled"
      else
        bind (fetch w url) (fun r =>
          match r with
          | Response true _ text => ret text
          | _ =>
              let message :=
                match failureMessage r with Some m => m | None => "" end in
              match remaining with
              | 0 => throw message
              | S remaining' =>
                  bind (delay (1000 * (i + 1)))
                       (fun _ => fetchWithRetryFrom w url (S i) remaining')
              end
          end)).
Proof. destruct remaining; reflexivity. Qed.

Lemma fetchWithRetryFrom_read (i remaining : nat) (st : State) :
  fetchWithRetryFrom w url i remaining st
  = if flagSet w (flagReads st) then (Throw "Cancelled", afterRead st)
    else
      match network w (fetchCalls st) url with
      | Response true _ text => (Normal text, afterFetch st url)
      | r =>
          let message :=
            match failureMessage r with Some m => m | None => "" end in
          match remaining with
          | 0 => (Throw message, afterFetch st url)
          | S remaining' =>
              fetchWithRetryFrom w url (S i) remaining'
                (mkState (S (flagReads st)) (S (fetchCalls st))
                         ((trace st ++ [EvFetch url]) ++ [EvDelay (1000 * (i + 1))])
                         (storage st))
          end
      end.
Proof.
  rewrite fetchWithRetryFrom_eq.
  rewrite (bind_normal _ _ _ _ _ (run_readShouldCancel w st)).
  destruct (flagSet w (flagReads st)); [reflexivity|].
  rewrite (bind_normal _ _ _ _ _ (run_fetch w url st)).
  destruct (network w (fetchCalls st) url) as [message|[|] status text];
    destruct remaining; reflexivity.
Qed.

Lemma attemptsFail_S (r c k : nat) :
  attemptsFail w url r c k ->
  flagSet w (k + r) = false ->
  failureMessage (network w (k + c) url) <> None ->
  attemptsFail w url r c (S k).
Proof.
  intros H Hf Hn i Hi. destruct (Nat.eq_dec i k) as [->|Hne]; [auto|].
  apply H. lia.
Qed.

(** Attempt [i] of a request and those that follow it. *)
Lemma fetchWithRetryFrom_ends (r c : nat) (remaining : nat) :
  forall i st,
    i + remaining = 2 ->
    attemptsFail w url r c i ->
    flagReads st = i + r -> fetchCalls st = i + c ->
    exists e reads calls st',
      fetchWithRetryFrom w url i remaining st = (completionOf e, st')
      /\ requestEnds w url r c e reads calls
      /\ flagReads st' = reads + r /\ fetchCalls st' = calls + c.
Proof.
  induction remaining as [|remaining IH]; intros i st Hi Hfail Hr Hc;
    rewrite fetchWithRetryFrom_read, Hr, Hc.
  - destruct (flagSet w (i + r)) eqn:Hflag.
    + exists Interrupted, (S i), i, (afterRead st). cbn [completionOf requestEnds].
      conjuncts; try reflexivity; [|simpl; lia|simpl; lia].
      exists i. conjuncts; try assumption; try reflexivity; lia.
    + destruct (network w (i + c) url) as [message|[|] status text] eqn:Hn.
      * exists (Exhausted message), 3, 3, (afterFetch st url).
        assert (i = 2) by lia. subst i.
        cbn [completionOf requestEnds failureMessage].
        conjuncts; try reflexivity; try (simpl; lia).
        -- apply attemptsFail_S; try assumption. rewrite Hn. discriminate.
        -- rewrite Hn. reflexivity.
      * exists (Answered text), (S i), (S i), (afterFetch st url).
        cbn [completionOf requestEnds].
        conjuncts; try reflexivity; try (simpl; lia).
        exists i, status. conjuncts; try assumption; try reflexivity; lia.
      * exists (Exhausted ("HTTP error! status: " +:+ JS.showNat status)), 3, 3,
          (afterFetch st url).
        assert (i = 2) by lia. subst i.
        cbn [completionOf requestEnds failureMessage].
        conjuncts; try reflexivity; try (simpl; lia).
        -- apply attemptsFail_S; try assumption. rewrite Hn. discriminate.
        -- rewrite Hn. reflexivity.
  - destruct (flagSet w (i + r)) eqn:Hflag.
    + exists Interrupted, (S i), i, (afterRead st). cbn [completionOf requestEnds].
      conjuncts; try reflexivity; [|simpl; lia|simpl; lia].
      exists i. conjuncts; try assumption; try reflexivity; lia.
    + destruct (network w (i + c) url) as [message|[|] status text] eqn:Hn.
      * cbv zeta. apply IH; cbn [flagReads fetchCalls]; try lia.
        apply attemptsFail_S; try assumption. rewrite Hn. discriminate.
      * exists (Answered text), (S i), (S i), (afterFetch st url).
        cbn [completionOf requestEnds].
        conjuncts; try reflexivity; try (simpl; lia).
        exists i, status. conjuncts; try assumption; try reflexivity; lia.
      * cbv zeta. apply IH; cbn [flagReads fetchCalls]; try lia.
        apply attemptsFail_S; try assumption. rewrite Hn. discriminate.
Qed.

(** Every call of [fetchWithRetry] ends in one of the three ways. *)
Lemma fetchWithRetry_ends (st : State) :
  exists e reads calls st',
    fetchWithRetry w url st = (completionOf e, st')
    /\ requestEnds w url (flagReads st) (fetchCalls st) e reads calls
    /\ flagReads st' = reads + flagReads st
    /\ fetchCalls st' = calls + fetchCalls st.
Proof.
  apply (fetchWithRetryFrom_ends (flagReads st) (fetchCalls st) 2 0 st);
    try reflexivity.
  intros i Hi. lia.
Qed.

(** The attempt at which a request ends. *)
Definition endsAtAttempt (r c k : nat) : Prop :=
  flagSet w (k + r) = true \/ failureMessage (network w (k + c) url) = None.

Lemma endsAtAttempt_unique (r c k k' : nat) :
  attemptsFail w url r c k -> endsAtAttempt r c k ->
  attemptsFail w url r c k' -> endsAtAttempt r c k' ->
  k = k'.
Proof.
  intros Hk Ek Hk' Ek'.
  destruct (Nat.lt_trichotomy k k') as [Hlt|[Heq|Hlt]]; [|exact Heq|].
  - destruct (Hk' k Hlt) as [Hf Hn]. destruct Ek as [E|E]; congruence.
  - destruct (Hk k' Hlt) as [Hf Hn]. destruct Ek' as [E|E]; congruence.
Qed.

(** A request ends in one way only. *)
Lemma requestEnds_unique (r c : nat) (e e' : RequestEnd)
    (reads calls reads' calls' : nat) :
  requestEnds w url r c e reads calls ->
  requestEnds w url r c e' reads' calls' ->
  e = e' /\ reads = reads' /\ calls = calls'.
Proof.
  assert (Hex : forall k, k <= 2 -> attemptsFail w url r c 3 ->
                          endsAtAttempt r c k -> False).
  { intros k Hk H3 [E|E]; destruct (H3 k) as [Hf Hn]; try lia; congruence. }
  destruct e as [text| |message], e' as [text'| |message'];
    cbn [requestEnds].
  - intros [k [status [Hk [Hf [Hflag [Hn [-> ->]]]]]]]
           [k' [status' [Hk' [Hf' [Hflag' [Hn' [-> ->]]]]]]].
    assert (k = k').
    { apply (endsAtAttempt_unique r c); try assumption.
      - right. now rewrite Hn.
      - right. now rewrite Hn'. }
    subst k'. rewrite Hn in Hn'. injection Hn' as _ <-. auto.
  - intros [k [status [Hk [Hf [Hflag [Hn [-> ->]]]]]]]
           [k' [Hk' [Hf' [Hflag' [-> ->]]]]].
    assert (k = k').
    { apply (endsAtAttempt_unique r c); try assumption.
      - right. now rewrite Hn.
      - now left. }
    subst k'. congruence.
  - intros [k [status [Hk [Hf [Hflag [Hn [-> ->]]]]]]] [H3 _].
    exfalso. apply (Hex k Hk H3). right. now rewrite Hn.
  - intros [k [Hk [Hf [Hflag [-> ->]]]]]
           [k' [status' [Hk' [Hf' [Hflag' [Hn' [-> ->]]]]]]].
    assert (k = k').
    { apply (endsAtAttempt_unique r c); try assumption.
      - now left.
      - right. now rewrite Hn'. }
    subst k'. congruence.
  - intros [k [Hk [Hf [Hflag [-> ->]]]]] [k' [Hk' [Hf' [Hflag' [-> ->]]]]].
    assert (k = k').
    { apply (endsAtAttempt_unique r c); try assumption; now left. }
    subst k'. auto.
  - intros [k [Hk [Hf [Hflag [-> ->]]]]] [H3 _].
    exfalso. apply (Hex k Hk H3). now left.
  - intros [H3 _] [k [status [Hk [Hf [Hflag [Hn [-> ->]]]]]]].
    exfalso. apply (Hex k Hk H3). right. now rewrite Hn.
  - intros [H3 _] [k [Hk [Hf [Hflag [-> ->]]]]].
    exfalso. apply (Hex k Hk H3). now left.
  - intros [_ [Hm [-> ->]]] [_ [Hm' [-> ->]]].
    rewrite Hm in Hm'. injection Hm' as <-. auto.
Qed.

End Requests.

(** ** The pages that the fetcher fetches *)

(** [fetchedFrom w baseUrl page r c htmls]: the texts of the pages that
    the loop of the fetcher fetches from [page] on, when the next read of
    the flag has the number [r] and the next call of [fetch] the number
    [c].  The loop fetches no page when the page count is over the ceiling,
    or when the request of the page is interrupted by the cancellation or
    fails on its three attempts.  It fetches a page when the request is
    answered; that page is the last when it gives no review or fewer than
    10 reviews, and the loop goes on with the next page otherwise. *)
Fixpoint fetchedFrom (w : World) (baseUrl : string) (page r c : nat)
    (htmls : list string) : Prop :=
  match htmls with
  | [] =>
      maxPages < page
      \/ (page <= maxPages
          /\ exists reads calls,
               requestEnds w (pageUrl baseUrl page) r c Interrupted reads calls)
      \/ (page <= maxPages
          /\ exists message reads calls,
               requestEnds w (pageUrl baseUrl page) r c (Exhausted message)
                           reads calls)
  | html :: rest =>
      page <= maxPages
      /\ exists reads calls,
           requestEnds w (pageUrl baseUrl page) r c (Answered html) reads calls
           /\ ((List.length (parseReviewsFromHTML html) = 0 /\ rest = [])
               \/ (0 < List.length (parseReviewsFromHTML html) < 10
                   /\ rest = [])
               \/ (10 <= List.length (parseReviewsFromHTML html)
                   /\ fetchedFrom w baseUrl (S page) (reads + r) (calls + c) rest))
  end.

Section Schedule.

Variable w : World.
Variable baseUrl : string.

Lemma fetchPagesFrom_schedule (fuel : nat) :
  forall page allReviews st,
    page + fuel = S maxPages ->
    exists htmls st',
      fetchPagesFrom w fuel baseUrl page allReviews st
      = (Normal (allReviews ++ flat_map parseReviewsFromHTML htmls), st')
      /\ fetchedFrom w baseUrl page (flagReads st) (fetchCalls st) htmls.
Proof.
  induction fuel as [|fuel IH]; intros page allReviews st Hfuel.
  - exists [], st. simpl.
    assert (E : (page <=? maxPages) = false) by (apply Nat.leb_gt; lia).
    rewrite E, app_nil_r. split; [reflexivity|]. left. lia.
  - rewrite fetchPagesFrom_step.
    assert (Hle : page <= maxPages) by lia.
    assert (E : (page <=? maxPages) = true) by now apply Nat.leb_le.
    rewrite E.
    destruct (fetchWithRetry_ends w (pageUrl baseUrl page) st)
      as [e [reads [calls [st1 [Hfetch [Hend [Hr Hc]]]]]]].
    unfold bind at 1. unfold tryCatch, fetchPage. unfold bind at 1.
    rewrite Hfetch.
    destruct e as [html| |message]; cbn [completionOf].
    + destruct (List.length (parseReviewsFromHTML html) =? 0) eqn:Hzero;
        [|destruct (List.length (parseReviewsFromHTML html) <? 10) eqn:Hshort].
      * apply Nat.eqb_eq in Hzero.
        assert (Hnil : parseReviewsFromHTML html = [])
          by now destruct (parseReviewsFromHTML html).
        exists [html], st1. simpl flat_map. rewrite Hnil, ?app_nil_r.
        split; [reflexivity|]. cbn [fetchedFrom]. split; [exact Hle|].
        exists reads, calls. split; [exact Hend|]. left. rewrite Hnil. auto.
      * apply Nat.eqb_neq in Hzero. apply Nat.ltb_lt in Hshort.
        exists [html], st1. simpl flat_map. rewrite ?app_nil_r.
        split; [reflexivity|]. cbn [fetchedFrom]. split; [exact Hle|].
        exists reads, calls. split; [exact Hend|]. right. left.
        split; [lia|reflexivity].
      * apply Nat.ltb_ge in Hshort.
        set (st2 := mkState (flagReads st1) (fetchCalls st1)
                      (trace st1 ++ [EvDelay 200]) (storage st1)).
        destruct (IH (S page) (allReviews ++ parseReviewsFromHTML html) st2)
          as [rest [st' [Hrun Hrest]]]; [lia|].
        exists (html :: rest), st'. split.
        -- change (fetchPagesFrom w fuel baseUrl (S page)
                     (allReviews ++ parseReviewsFromHTML html) st2
                   = (Normal (allReviews
                              ++ flat_map parseReviewsFromHTML (html :: rest)),
                      st')).
           rewrite Hrun. simpl. now rewrite <- app_assoc.
        -- cbn [fetchedFrom]. split; [exact Hle|].
           exists reads, calls. split; [exact Hend|]. right. right.
           split; [exact Hshort|].
           unfold st2 in Hrest. cbn [flagReads fetchCalls] in Hrest.
           now rewrite Hr, Hc in Hrest.
    + exists [], st1. simpl. rewrite app_nil_r. split; [reflexivity|].
      right. left. split; [exact Hle|]. now exists reads, calls.
    + exists [], st1. simpl. rewrite app_nil_r. split; [reflexivity|].
      right. right. split; [exact Hle|]. now exists message, reads, calls.
Qed.

(** The pages fetched are determined by the world. *)
Lemma fetchedFrom_unique (htmls : list string) :
  forall htmls' page r c,
    fetchedFrom w baseUrl page r c htmls ->
    fetchedFrom w baseUrl page r c htmls' ->
    htmls = htmls'.
Proof.
  induction htmls as [|html rest IH]; intros htmls' page r c H H';
    destruct htmls' as [|html' rest']; cbn [fetchedFrom] in H, H'.
  - reflexivity.
  - exfalso. destruct H' as [Hle [reads' [calls' [Hend' _]]]].
    destruct H as [H|[[_ [reads [calls H]]]|[_ [m [reads [calls H]]]]]];
      [lia| |];
      destruct (requestEnds_unique w _ _ _ _ _ _ _ _ _ H Hend') as [E _];
      discriminate E.
  - exfalso. destruct H as [Hle [reads [calls [Hend _]]]].
    destruct H' as [H'|[[_ [reads' [calls' H']]]|[_ [m [reads' [calls' H']]]]]];
      [lia| |];
      destruct (requestEnds_unique w _ _ _ _ _ _ _ _ _ Hend H') as [E _];
      discriminate E.
  - destruct H as [Hle [reads [calls [Hend Hcase]]]].
    destruct H' as [_ [reads' [calls' [Hend' Hcase']]]].
    destruct (requestEnds_unique w _ _ _ _ _ _ _ _ _ Hend Hend')
      as [E [<- <-]].
    injection E as <-.
    destruct Hcase as [[Hz ->]|[[Hs ->]|[Hfull Hrest]]];
      destruct Hcase' as [[Hz' ->]|[[Hs' ->]|[Hfull' Hrest']]];
      try reflexivity; try lia.
    f_equal. now apply (IH rest' (S page) (reads + r) (calls + c)).
Qed.

End Schedule.

Lemma flagSet_never (w : World) (readIndex : nat) :
  cancelRequestedAt w = None -> flagSet w readIndex = false.
Proof. intros H. unfold flagSet. now rewrite H. Qed.

(** For a profile whose pages are served, the fetcher fetches the pages
    1 to [n], where [n] is the first page at which it has to stop. *)
Lemma pagination_served (w : World) (baseUrl : string)
    (pages : nat -> string) (st : State) :
  (forall n page, 1 <= page <= maxPages -> exists status,
      network w n (pageUrl baseUrl page) = Response true status (pages page)) ->
  let size := fun page => List.length (parseReviewsFromHTML (pages page)) in
  let cancelled := fun page => flagSet w (flagReads st + (page - 1)) in
  exists n st',
    fetchAllReviewsFromProfile w baseUrl st
    = (Normal (flat_map (fun page => parseReviewsFromHTML (pages page)) (seq 1 n)),
       st')
    /\ fetchedUrls (trace st')
       = fetchedUrls (trace st) ++ map (pageUrl baseUrl) (seq 1 n)
    /\ n <= 50
    /\ (forall page, 1 <= page <= n -> cancelled page = false)
    /\ (forall page, 1 <= page < n -> 10 <= size page)
    /\ (n = 50 \/ cancelled (S n) = true \/ (1 <= n /\ size n < 10)).
Proof.
  intros served size cancelled.
  destruct (fetchPagesFrom_served w baseUrl pages served maxPages 1 [] st)
    as [n [st' [Hn1 [Hn2 [Hrun [Htrace [Hflags [Hfull Hstop]]]]]]]];
    [lia|reflexivity|].
  replace (S n - 1) with n in * by lia.
  unfold maxPages in *.
  exists n, st'. conjuncts.
  - exact Hrun.
  - exact Htrace.
  - exact Hn2.
  - intros page Hpage. apply Hflags. exact Hpage.
  - intros page Hpage. apply Hfull. exact Hpage.
  - destruct Hstop as [H|[H|H]]; [now left| |right; right; exact H].
    right. left. unfold cancelled. now replace (S n - 1) with n by lia.
Qed.

(** With the page sizes 10, 10, 10, 7 and no cancellation, exactly the
    pages 1 to 4 are fetched. *)
Lemma pagination_four_pages (w : World) (baseUrl : string)
    (pages : nat -> string) (st : State) :
  (forall n page, 1 <= page <= maxPages -> exists status,
      network w n (pageUrl baseUrl page) = Response true status (pages page)) ->
  cancelRequestedAt w = None ->
  let size := fun page => List.length (parseReviewsFromHTML (pages page)) in
  size 1 = 10 -> size 2 = 10 -> size 3 = 10 -> size 4 = 7 ->
  exists st',
    fetchAllReviewsFromProfile w baseUrl st
    = (Normal (flat_map (fun page => parseReviewsFromHTML (pages page))
                        [1; 2; 3; 4]), st')
    /\ fetchedUrls (trace st')
       = fetchedUrls (trace st) ++ map (pageUrl baseUrl) [1; 2; 3; 4].
Proof.
  intros served Hnever size H1 H2 H3 H4.
  destruct (pagination_served w baseUrl pages st served)
    as [n [st' [Hrun [Htrace [Hn [_ [Hfull Hstop]]]]]]].
  subst size. cbv beta zeta in *.
  assert (Hfour : n = 4).
  { destruct Hstop as [H|[H|[Hn1 H]]].
    - subst n. assert (H : 1 <= 4 < 50) by lia. apply Hfull in H. lia.
    - rewrite flagSet_never in H by assumption. discriminate H.
    - destruct (Nat.lt_ge_cases 4 n) as [Hlt|Hge].
      + assert (H' : 1 <= 4 < n) by lia. apply Hfull in H'. lia.
      + destruct n as [|[|[|[|[|n]]]]]; lia. }
  subst n. exists st'. split; assumption.
Qed.

(** With 50 pages of at least 10 reviews and no cancellation, the pages 1
    to 50 are fetched and no other. *)
Lemma pagination_ceiling (w : World) (baseUrl : string)
    (pages : nat -> string) (st : State) :
  (forall n page, 1 <= page <= maxPages -> exists status,
      network w n (pageUrl baseUrl page) = Response true status (pages page)) ->
  cancelRequestedAt w = None ->
  (forall page, 1 <= page <= 50 ->
                10 <= List.length (parseReviewsFromHTML (pages page))) ->
  exists st',
    fetchAllReviewsFromProfile w baseUrl st
    = (Normal (flat_map (fun page => parseReviewsFromHTML (pages page))
                        (seq 1 50)), st')
    /\ fetchedUrls (trace st')
       = fetchedUrls (trace st) ++ map (pageUrl baseUrl) (seq 1 50).
Proof.
  intros served Hnever Hall.
  destruct (pagination_served w baseUrl pages st served)
    as [n [st' [Hrun [Htrace [Hn [_ [Hfull Hstop]]]]]]].
  assert (Hfifty : n = 50).
  { destruct Hstop as [H|[H|[Hn1 H]]].
    - exact H.
    - rewrite flagSet_never in H by assumption. discriminate H.
    - assert (10 <= List.length (parseReviewsFromHTML (pages n)))
        by (apply Hall; lia). lia. }
  subst n. exists st'. split; assumption.
Qed.

Lemma fetchedFrom_length (w : World) (baseUrl : string) (htmls : list string) :
  forall page r c,
    fetchedFrom w baseUrl page r c htmls ->
    page + List.length htmls <= S maxPages \/ htmls = [].
Proof.
  induction htmls as [|html rest IH]; intros page r c H; [now right|].
  left. cbn [fetchedFrom] in H.
  destruct H as [Hle [reads [calls [_ [[_ ->]|[[_ ->]|[_ H]]]]]]];
    cbn [List.length]; try lia.
  destruct (IH _ _ _ H) as [H'| ->]; cbn [List.length]; lia.
Qed.

(** The request of page 1 finds the flag set: no page is fetched. *)
Lemma pagination_cancelled (w : World) (baseUrl : string) (st : State) :
  flagSet w (flagReads st) = true ->
  fetchAllReviewsFromProfile w baseUrl st = (Normal [], afterRead st).
Proof.
  intros Hflag. unfold fetchAllReviewsFromProfile, maxPages.
  rewrite fetchPagesFrom_step. cbn [Nat.leb maxPages].
  unfold bind at 1. unfold tryCatch, fetchPage. unfold bind at 1.
  unfold fetchWithRetry. rewrite fetchWithRetryFrom_read, Hflag. reflexivity.
Qed.

(** C6, as amended: the fetcher starts at page 1 and returns the reviews
    of the pages of [fetchedFrom], in order, which the world determines.
    A page is fetched when the page count is at most 50 and its request,
    made with the reads of the flag and the calls of [fetch] that follow
    those of the page before, is answered; after it the fetcher goes on
    exactly when the page gave at least 10 reviews.  So the fetcher stops
    exactly when the page count has passed the ceiling of 50, or the last
    page gave no review, or the last page gave fewer than 10 reviews, or
    an attempt of the request of the next page finds the flag set, or that
    request fails on its three attempts.  A flag that is set at the first
    read gives no review and no request.  When every request is answered,
    the pages 1 to [n] are fetched, where [n] is 50 or the first page with
    fewer than 10 reviews or the last page before the flag is set.  With
    the page sizes 10, 10, 10, 7 exactly 4 pages are fetched, and with 50
    pages of at least 10 reviews each the fetcher stops after page 50. *)
Theorem pagination_stops_exactly (w : World) (baseUrl : string) :
  (forall st, exists htmls st',
      fetchAllReviewsFromProfile w baseUrl st
      = (Normal (flat_map parseReviewsFromHTML htmls), st')
      /\ List.length htmls <= 50
      /\ fetchedFrom w baseUrl 1 (flagReads st) (fetchCalls st) htmls)
  /\ (forall page r c htmls htmls',
        fetchedFrom w baseUrl page r c htmls ->
        fetchedFrom w baseUrl page r c htmls' ->
        htmls = htmls')
  /\ (forall st,
        flagSet w (flagReads st) = true ->
        fetchAllReviewsFromProfile w baseUrl st = (Normal [], afterRead st))
  /\ (forall pages st,
        (forall n page, 1 <= page <= maxPages -> exists status,
            network w n (pageUrl baseUrl page) = Response true status (pages page)) ->
        let size := fun page => List.length (parseReviewsFromHTML (pages page)) in
        let cancelled := fun page => flagSet w (flagReads st + (page - 1)) in
        exists n st',
          fetchAllReviewsFromProfile w baseUrl st
          = (Normal (flat_map (fun page => parseReviewsFromHTML (pages page))
                              (seq 1 n)), st')
          /\ fetchedUrls (trace st')
             = fetchedUrls (trace st) ++ map (pageUrl baseUrl) (seq 1 n)
          /\ n <= 50
          /\ (forall page, 1 <= page <= n -> cancelled page = false)
          /\ (forall page, 1 <= page < n -> 10 <= size page)
          /\ (n = 50 \/ cancelled (S n) = true \/ (1 <= n /\ size n < 10)))
  /\ (forall pages st,
        (forall n page, 1 <= page <= maxPages -> exists status,
            network w n (pageUrl baseUrl page) = Response true status (pages page)) ->
        cancelRequestedAt w = None ->
        List.length (parseReviewsFromHTML (pages 1)) = 10 ->
        List.length (parseReviewsFromHTML (pages 2)) = 10 ->
        List.length (parseReviewsFromHTML (pages 3)) = 10 ->
        List.length (parseReviewsFromHTML (pages 4)) = 7 ->
        exists st',
          fetchAllReviewsFromProfile w baseUrl st
          = (Normal (flat_map (fun page => parseReviewsFromHTML (pages page))
                              [1; 2; 3; 4]), st')
          /\ fetchedUrls (trace st')
             = fetchedUrls (trace st) ++ map (pageUrl baseUrl) [1; 2; 3; 4])
  /\ (forall pages st,
        (forall n page, 1 <= page <= maxPages -> exists status,
            network w n (pageUrl baseUrl page) = Response true status (pages page)) ->
        cancelRequestedAt w = None ->
        (forall page, 1 <= page <= 50 ->
                      10 <= List.length (parseReviewsFromHTML (pages page))) ->
        exists st',
          fetchAllReviewsFromProfile w baseUrl st
          = (Normal (flat_map (fun page => parseReviewsFromHTML (pages page))
                              (seq 1 50)), st')
          /\ fetchedUrls (trace st')
             = fetchedUrls (trace st) ++ map (pageUrl baseUrl) (seq 1 50)).
Proof.
  conjuncts.
  - intros st.
    destruct (fetchPagesFrom_schedule w baseUrl maxPages 1 [] st eq_refl)
      as [htmls [st' [Hrun Hsched]]].
    exists htmls, st'. conjuncts.
    + exact Hrun.
    + destruct (fetchedFrom_length w baseUrl htmls _ _ _ Hsched) as [H| ->];
        unfold maxPages in *; simpl; lia.
    + exact Hsched.
  - intros page r c htmls htmls'. apply fetchedFrom_unique.
  - intros st. apply pagination_cancelled.
  - intros pages st. apply pagination_served.
  - intros pages st. apply pagination_four_pages.
  - intros pages st. apply pagination_ceiling.
Qed.

(** The three first pages of the profile hold ten reviews, the others
    seven. *)
Definition tenReviews : string := pageOf (seq 1 10).
Definition sevenReviews : string := pageOf (seq 11 7).

Definition fourPages (page : nat) : string :=
  if page <=? 3 then tenReviews else sevenReviews.

Definition fourPagesNetwork (n : nat) (url : string) : FetchResult :=
  if String.eqb url subjectUrl || String.eqb url (pageUrl subjectUrl 2)
     || String.eqb url (pageUrl subjectUrl 3)
  then Response true 200 tenReviews
  else Response true 200 sevenReviews.

Definition fourPagesWorld : World :=
  mkWorld None fourPagesNetwork oneReviewerFeed (fun s => s).

Lemma fourPages_served (n page : nat) :
  1 <= page <= maxPages ->
  exists status,
    network fourPagesWorld n (pageUrl subjectUrl page)
    = Response true status (fourPages page).
Proof.
  intros [H1 H2]. exists 200. unfold maxPages in H2.
  do 51 (destruct page as [|page]; [try lia; vm_compute; reflexivity|]).
  lia.
Qed.

(** The theorem at this profile: the pages 1 to 4 are fetched; and no page
    when the cancel message has arrived before. *)
Lemma pagination_stops_exactly_witness :
  (exists st',
     fetchAllReviewsFromProfile fourPagesWorld subjectUrl (initialState idleStorage)
     = (Normal (flat_map (fun page => parseReviewsFromHTML (fourPages page))
                         [1; 2; 3; 4]), st')
     /\ fetchedUrls (trace st') = map (pageUrl subjectUrl) [1; 2; 3; 4])
  /\ fetchAllReviewsFromProfile cancelledAtOnceWorld subjectUrl
       (initialState idleStorage)
     = (Normal [], afterRead (initialState idleStorage)).
Proof.
  split.
  - destruct (pagination_stops_exactly fourPagesWorld subjectUrl)
      as [_ [_ [_ [_ [H _]]]]].
    apply (H fourPages (initialState idleStorage)
             (fun n page => fourPages_served n page) eq_refl);
      vm_compute; reflexivity.
  - destruct (pagination_stops_exactly cancelledAtOnceWorld subjectUrl)
      as [_ [_ [H _]]].
    apply (H (initialState idleStorage)). reflexivity.
Defined.

(** C6, as stated, fails: the first page gives ten reviews, the request
    of the second page fails on its three attempts, and the fetcher stops
    there, with one page fetched, no page without reviews or with fewer
    than 10, and no cancellation. *)
Lemma pagination_stops_on_failed_request :
  let run := fetchAllReviewsFromProfile secondPageFailsWorld subjectUrl
               (initialState idleStorage) in
  cancelRequestedAt secondPageFailsWorld = None
  /\ fst run = Normal (parseReviewsFromHTML tenReviews)
  /\ List.length (parseReviewsFromHTML tenReviews) = 10
  /\ fetchedUrls (trace (snd run))
     = [subjectUrl; pageUrl subjectUrl 2; pageUrl subjectUrl 2;
        pageUrl subjectUrl 2]
  /\ (forall n, network secondPageFailsWorld n (pageUrl subjectUrl 2)
                = NetworkError "Failed to fetch").
Proof.
  intros run. conjuncts; try (intros n); vm_compute; reflexivity.
Qed.

(** ** Reviewer discovery *)

(** The entries of a body: none when it reports no success or has no
    [reviews]. *)
Definition batchOf (data : FeedData) : list FeedEntry :=
  if success data
  then match feedReviews data with Some batch => batch | None => [] end
  else [].





Lemma discoverFrom_step (w : World) (appId : string) (maxProfiles fuel : nat)
    (d : Discovery) :
  discoverFrom w (S fuel) appId maxProfiles d
  = if totalFetched d <? maxProfiles then
      bind (readShouldCancel w) (fun cancel =>
        if cancel then ret d
        else
          bind (tryCatch (fetchBatch w appId maxProfiles d)
                         (fun _ => ret (Break d)))
               (fun step =>
                  match step with
                  | Break d' => ret d'
                  | Continue d' => discoverFrom w fuel appId maxProfiles d'
                  end))
    else ret d.
Proof. reflexivity. Qed.





Section DiscoverySchedule.

Variable w : World.
Variable appId : string.
Variable maxProfiles : nat.



End DiscoverySchedule.

Section DiscoveryUnique.

Variable w : World.
Variable appId : string.
Variable maxProfiles : nat.





End DiscoveryUnique.








(** The third of the 100 entries of the batch has no author: the two
    entries before it are returned and no other request is made, although
    the batch holds 100 entries and a next cursor and [maxProfiles = 200]
    is not reached. *)
Definition brokenBatch : FeedData :=
  mkFeedData true
    (Some (map (fun n => if n =? 3 then WithoutAuthor
                         else WithAuthor (mkFeedReview (JS.showNat n) true))
               (seq 1 100)))
    (Some "next").

Definition brokenBatchWorld : World :=
  mkWorld None (fun _ _ => Response true 200 "feed")
          (fun _ => Some brokenBatch) (fun s => s).

Example discovery_stops_on_entry_without_author :
  let run := fetchGameReviewers brokenBatchWorld "10" 200
               (initialState idleStorage) in
  fst run
  = Normal [toIdentity (mkFeedReview "1" true);
            toIdentity (mkFeedReview "2" true)]
  /\ fetchedUrls (trace (snd run)) = [feedUrl "10" "*"]
  /\ analysisProgress (storage (snd run)) = analysisProgress idleStorage
  /\ success brokenBatch = true
  /\ noCursor brokenBatch = false
  /\ List.length (batchOf brokenBatch) = 100.
Proof.
  intros run. conjuncts; vm_compute; reflexivity.
Qed.

(** ** The cancellation scenario *)

(** The feed holds 20 reviewers, every profile answers with a short page,
    and the cancel message arrives when five reviewers have been
    processed: the run ends with neither an error nor a result, and the
    profile of the sixth reviewer is not requested. *)
Definition twentyReviewers : FeedData :=
  mkFeedData true
    (Some (map (fun n => WithAuthor (mkFeedReview (JS.showNat n) true))
               (seq 1 20)))
    None.

Definition twentyReviewersNetwork (n : nat) (url : string) : FetchResult :=
  if String.eqb url (feedUrl "10" "*") then Response true 200 "feed"
  else Response true 200 (pageOf [1; 2; 10]).

Definition cancelledCollectionWorld : World :=
  mkWorld (Some 15) twentyReviewersNetwork (fun _ => Some twentyReviewers)
          (fun s => s).

Example cancel_after_five_reviewers :
  let final := snd (startBackgroundAnalysis cancelledCollectionWorld sampleParams
                      (initialState idleStorage)) in
  analysisError (storage final) = None
  /\ analysisResult (storage final) = None
  /\ analysisProgress (storage final) = ProgressAnalyzingProfile 5 20
  /\ fetchedUrls (trace final)
     = subjectUrl :: feedUrl "10" "*"
       :: map (fun n => profilesUrl (JS.showNat n)) (seq 1 5).
Proof. intros final. conjuncts; vm_compute; reflexivity. Qed.

(** * Further properties *)

(** ** Strings and what a pattern captures *)

(** Every character of [s] is in the class [p]. *)
Fixpoint allChars (p : ascii -> bool) (s : string) : bool :=
  match s with
  | EmptyString => true
  | String a s' => p a && allChars p s'
  end.

(** [s] does not begin with a character of the class [p]. *)
Definition stopsClass (p : ascii -> bool) (s : string) : bool :=
  match s with
  | EmptyString => true
  | String a _ => negb (p a)
  end.

(** A text that is not empty and made of digits. *)
Definition numeric (s : string) : Prop :=
  s <> "" /\ allChars isDigit s = true.

(** The continuation at the end of a pattern. *)
Definition accept : cont := fun _ e c => Some (e, c).

(** Group 1 with one or more digits, the end of several patterns. *)
Definition digitsGroup : regex := Group 1 (Plus isDigit).

(** A pattern whose last part is [digitsGroup]. *)
Definition endsWithDigits (ignoreCase : bool) (pattern : regex) : Prop :=
  exists front, forall s pos,
    run ignoreCase pattern accept s pos []
    = run ignoreCase front (run ignoreCase digitsGroup accept) s pos [].

Lemma append_cons (a : ascii) (s t : string) :
  String a s +:+ t = String a (s +:+ t).
Proof. reflexivity. Qed.

Lemma append_nil_l (s : string) : "" +:+ s = s.
Proof. reflexivity. Qed.

Lemma length_append (s t : string) :
  String.length (s +:+ t) = String.length s + String.length t.
Proof.
  induction s as [|a s IH]; [reflexivity|].
  rewrite append_cons. simpl. now rewrite IH.
Qed.

Lemma append_assoc (s t u : string) : (s +:+ t) +:+ u = s +:+ t +:+ u.
Proof.
  induction s as [|a s IH]; [reflexivity|].
  rewrite !append_cons. f_equal. exact IH.
Qed.

Lemma append_nil_r (s : string) : s +:+ "" = s.
Proof.
  induction s as [|a s IH]; [reflexivity|].
  rewrite append_cons. f_equal. exact IH.
Qed.

Lemma allChars_append (p : ascii -> bool) (s t : string) :
  allChars p (s +:+ t) = allChars p s && allChars p t.
Proof.
  induction s as [|a s IH]; [reflexivity|].
  rewrite append_cons. simpl. now rewrite IH, andb_assoc.
Qed.

Lemma allChars_weaken (p q : ascii -> bool) (s : string) :
  (forall a, p a = true -> q a = true) ->
  allChars p s = true -> allChars q s = true.
Proof.
  intros Hpq. induction s as [|a s IH]; simpl; [reflexivity|].
  rewrite !andb_true_iff. intros [Ha Hs]. split; auto.
Qed.

Lemma substring_head (y z : string) :
  String.substring 0 (String.length y) (y +:+ z) = y.
Proof.
  induction y as [|a y IH].
  - rewrite append_nil_l. destruct z; reflexivity.
  - rewrite append_cons. simpl. now rewrite IH.
Qed.

Lemma substring_middle (x y z : string) :
  String.substring (String.length x) (String.length y) (x +:+ y +:+ z) = y.
Proof.
  induction x as [|a x IH]; [rewrite append_nil_l; apply substring_head|].
  rewrite append_cons. simpl. exact IH.
Qed.

Lemma substring_none (s : string) : String.substring 0 0 s = "".
Proof. destruct s; reflexivity. Qed.

Lemma substring_tail (s : string) :
  String.substring (String.length s) 0 s = "".
Proof. induction s as [|a s IH]; simpl; [reflexivity | exact IH]. Qed.

(** *** Where a match ends *)

Lemma star_reaches (p : ascii -> bool) (k : cont) (s : string) :
  forall pos c res,
    star p k s pos c = Some res ->
    exists pre s',
      s = pre +:+ s' /\ allChars p pre = true
      /\ k s' (pos + String.length pre) c = Some res.
Proof.
  induction s as [|a s IH]; intros pos c res H; simpl in H.
  - exists "", "". simpl. rewrite Nat.add_0_r. auto.
  - destruct (p a) eqn:Pa.
    + destruct (star p k s (S pos) c) as [r|] eqn:E.
      * injection H as <-. apply IH in E.
        destruct E as [pre [s' [-> [Hall Hk]]]].
        exists (String a pre), s'. simpl. rewrite Pa, Hall.
        repeat split. rewrite <- Hk. f_equal. lia.
      * exists "", (String a s). simpl. rewrite Nat.add_0_r. auto.
    + exists "", (String a s). simpl. rewrite Nat.add_0_r. auto.
Qed.

Lemma run_reaches (ignoreCase : bool) (r : regex) :
  forall k s pos c res,
    run ignoreCase r k s pos c = Some res ->
    exists pre s' c',
      s = pre +:+ s' /\ k s' (pos + String.length pre) c' = Some res.
Proof.
  induction r as [|x|p|r1 IH1 r2 IH2|r1 IH1 r2 IH2|p|i r IH| |];
    intros k s pos c res H; simpl in H.
  - exists "", s, c. simpl. rewrite Nat.add_0_r. auto.
  - destruct s as [|a s]; [discriminate|].
    destruct (chr_eq ignoreCase x a); [|discriminate].
    exists (String a ""), s, c. simpl. rewrite Nat.add_1_r. auto.
  - destruct s as [|a s]; [discriminate|].
    destruct (p a); [|discriminate].
    exists (String a ""), s, c. simpl. rewrite Nat.add_1_r. auto.
  - apply IH1 in H. destruct H as [pre1 [s1 [c1 [-> H]]]].
    apply IH2 in H. destruct H as [pre2 [s2 [c2 [-> H]]]].
    exists (pre1 +:+ pre2), s2, c2. rewrite append_assoc, length_append.
    split; [reflexivity|]. rewrite <- H. f_equal. lia.
  - destruct (run ignoreCase r1 k s pos c) as [r|] eqn:E.
    + injection H as <-. now apply IH1 in E.
    + now apply IH2 in H.
  - apply star_reaches in H. destruct H as [pre [s' [-> [_ H]]]].
    exists pre, s', c. auto.
  - apply IH in H. destruct H as [pre [s' [c' [-> H]]]].
    exists pre, s', ((i, (pos, pos + String.length pre)) :: c'). auto.
  - destruct (pos =? 0); [|discriminate].
    exists "", s, c. simpl. rewrite Nat.add_0_r. auto.
  - destruct s; [|discriminate].
    exists "", "", c. simpl. rewrite Nat.add_0_r. auto.
Qed.

(** What [digitsGroup] captures at the end of a pattern. *)
Lemma digitsGroup_reaches (ignoreCase : bool) (s : string) (pos : nat)
    (c : captures) (e : nat) (cs : captures) :
  run ignoreCase digitsGroup accept s pos c = Some (e, cs) ->
  exists ds rest,
    s = ds +:+ rest /\ numeric ds
    /\ cs = (1, (pos, pos + String.length ds)) :: c.
Proof.
  simpl. destruct s as [|a s]; [discriminate|].
  destruct (isDigit a) eqn:Da; [|discriminate].
  intros H. apply star_reaches in H.
  destruct H as [pre [s' [-> [Hall H]]]].
  unfold accept in H. injection H as _ <-.
  exists (String a pre), s'. unfold numeric. simpl. rewrite Da, Hall.
  repeat split; [discriminate|]. repeat f_equal. lia.
Qed.

(** Where the matches of [exec] and [matchAll] start: [s] is the input
    from [pos] on. *)
Lemma execFrom_origin (ignoreCase : bool) (r : regex) (s : string) :
  forall pos m,
    execFrom ignoreCase r s pos = Some m ->
    exists skipped s',
      s = skipped +:+ s'
      /\ matchHere ignoreCase r s' (pos + String.length skipped) = Some m.
Proof.
  induction s as [|a s IH]; intros pos m H; simpl in H.
  - destruct (matchHere ignoreCase r "" pos) eqn:E; [|discriminate].
    exists "", "". simpl. rewrite Nat.add_0_r. now rewrite E.
  - destruct (matchHere ignoreCase r (String a s) pos) eqn:E.
    + exists "", (String a s). simpl. rewrite Nat.add_0_r. now rewrite E.
    + apply IH in H. destruct H as [skipped [s' [-> H]]].
      exists (String a skipped), s'. simpl. split; [reflexivity|].
      rewrite <- H. f_equal. lia.
Qed.

Lemma matchAllFrom_origin (ignoreCase : bool) (r : regex) (s : string) :
  forall pos skip m,
    In m (matchAllFrom ignoreCase r s pos skip) ->
    exists skipped s',
      s = skipped +:+ s'
      /\ matchHere ignoreCase r s' (pos + String.length skipped) = Some m.
Proof.
  assert (Hcons : forall a s pos m,
            (exists skipped s',
               s = skipped +:+ s'
               /\ matchHere ignoreCase r s' (S pos + String.length skipped) = Some m) ->
            exists skipped s',
              String a s = skipped +:+ s'
              /\ matchHere ignoreCase r s' (pos + String.length skipped) = Some m).
  { intros a s0 pos m [skipped [s' [-> H]]].
    exists (String a skipped), s'. simpl. split; [reflexivity|].
    rewrite <- H. f_equal. lia. }
  induction s as [|a s IH]; intros pos skip m H; simpl in H.
  - destruct skip; [|destruct H].
    destruct (matchHere ignoreCase r "" pos) eqn:E; [|destruct H].
    destruct H as [<-|[]].
    exists "", "". simpl. now rewrite Nat.add_0_r.
  - destruct skip as [|skip].
    + destruct (matchHere ignoreCase r (String a s) pos) eqn:E.
      * destruct H as [<-|H].
        -- exists "", (String a s). simpl. now rewrite Nat.add_0_r.
        -- apply Hcons. now apply IH in H.
      * apply Hcons. now apply IH in H.
    + apply Hcons. now apply IH in H.
Qed.

(** Group 1 of a match of a pattern that ends with [digitsGroup]. *)
Lemma matchHere_digits (ignoreCase : bool) (pattern : regex)
    (skipped s : string) (m : Match) :
  endsWithDigits ignoreCase pattern ->
  matchHere ignoreCase pattern s (String.length skipped) = Some m ->
  numeric (group (skipped +:+ s) m 1).
Proof.
  intros [front Hfront]. unfold matchHere.
  change (fun (_ : string) (e : nat) (c : captures) => Some (e, c)) with accept.
  rewrite Hfront.
  destruct (run ignoreCase front _ s (String.length skipped) []) as [[e cs]|] eqn:E;
    [|discriminate].
  intros [= <-].
  apply run_reaches in E. destruct E as [pre [s' [c' [-> E]]]].
  apply digitsGroup_reaches in E. destruct E as [ds [rest [-> [Hds ->]]]].
  unfold group. simpl. unfold JS.substring.
  replace (String.length skipped + String.length pre + String.length ds
           - (String.length skipped + String.length pre))
    with (String.length ds) by lia.
  rewrite <- length_append, <- append_assoc, substring_middle.
  exact Hds.
Qed.

Lemma exec_digits (ignoreCase : bool) (pattern : regex) (s : string) (m : Match) :
  endsWithDigits ignoreCase pattern ->
  exec ignoreCase pattern s = Some m -> numeric (group s m 1).
Proof.
  intros Hp H. apply execFrom_origin in H.
  destruct H as [skipped [s' [-> H]]].
  now apply (matchHere_digits ignoreCase pattern).
Qed.

Lemma matchAll_digits (ignoreCase : bool) (pattern : regex) (s : string)
    (m : Match) :
  endsWithDigits ignoreCase pattern ->
  In m (matchAll ignoreCase pattern s) -> numeric (group s m 1).
Proof.
  intros Hp H. apply matchAllFrom_origin in H.
  destruct H as [skipped [s' [-> H]]].
  now apply (matchHere_digits ignoreCase pattern).
Qed.

Lemma appLinkPattern_endsWithDigits : endsWithDigits true appLinkPattern.
Proof.
  exists (Cat (Lit "href=")
         (Cat (Chr JS.dq) (Cat (Star (notChr JS.dq)) (Lit "/app/")))).
  reflexivity.
Qed.

Lemma profilePattern_endsWithDigits : endsWithDigits false profilePattern.
Proof. exists (Lit "steamcommunity.com/profiles/"). reflexivity. Qed.

(** ** The HTML review extractor, further *)

Lemma last_map_Some_In {A : Type} (l : list A) (x : A) :
  List.last (map Some l) None = Some x -> In x l.
Proof.
  induction l as [|a [|b l] IH]; simpl in *; intros H.
  - discriminate.
  - injection H as ->. now left.
  - right. now apply IH.
Qed.

(** X1: every review that the extractor returns has a gameId that is a
    text of one or more digits. *)
Theorem extractor_ids_numeric (html : string) :
  Forall (fun review => numeric (appId review)) (parseReviewsFromHTML html).
Proof.
  apply List.Forall_forall. intros review H.
  unfold parseReviewsFromHTML, parseLoop in H.
  apply parseFold_origin in H. destruct H as [[]|[m [_ [H _]]]].
  unfold closestAppId in H.
  destruct (List.last (map Some (appLinks html (index m))) None) as [link|] eqn:E;
    [|discriminate].
  injection H as <-. apply last_map_Some_In in E.
  apply (matchAll_digits true appLinkPattern); [|exact E].
  apply appLinkPattern_endsWithDigits.
Qed.

Lemma parseFold_count (html : string) (ms : list Match) (st : ParseState) :
  List.length (reviewsSoFar (fold_left (parseStep html) ms st))
  + List.length (noAppId (fold_left (parseStep html) ms st))
  <= List.length (reviewsSoFar st) + List.length (noAppId st) + List.length ms.
Proof.
  revert st. induction ms as [|m ms IH]; intros st; simpl; [lia|].
  etransitivity; [apply IH|]. rewrite parseStep_closest.
  destruct (closestAppId html m) as [id|]; simpl.
  - destruct (existsb _ _); simpl; rewrite ?length_app; simpl; lia.
  - rewrite length_app. simpl. lia.
Qed.

(** X2: a page gives at most one entry, a review or a skipped image, for
    each vote image that it holds. *)
Theorem extractor_one_entry_per_image (html : string) :
  List.length (parseReviewsFromHTML html) + List.length (noAppId (parseLoop html))
  <= List.length (matchAll true reviewImgPattern html).
Proof.
  unfold parseReviewsFromHTML, parseLoop.
  etransitivity; [apply parseFold_count|]. simpl. lia.
Qed.

(** ** The scoring engine, further *)

Lemma filter_length_le {A : Type} (f : A -> bool) (l : list A) :
  List.length (List.filter f l) <= List.length l.
Proof.
  induction l as [|a l IH]; simpl; [lia|]. destruct (f a); simpl; lia.
Qed.

Lemma filter_length_mono {A : Type} (f g : A -> bool) (l : list A) :
  (forall a, f a = true -> g a = true) ->
  List.length (List.filter f l) <= List.length (List.filter g l).
Proof.
  intros Hfg. induction l as [|a l IH]; simpl; [lia|].
  destruct (f a) eqn:F.
  - rewrite (Hfg a F). simpl. lia.
  - destruct (g a); simpl; lia.
Qed.

(** X3: in every result, the reviewers counted as positive are among the
    matching ones, and the matching ones among the reviewers analysed. *)
Theorem score_counts_ordered (userReviews : list Review)
    (reviewerData : list ReviewerRecord) (targetAppId : string)
    (minOverlap minSimilarity : Z) :
  let result := calculateScore userReviews reviewerData targetAppId
                               minOverlap minSimilarity in
  positiveCount result <= matchingReviewers result
  /\ matchingReviewers result <= totalReviewers result
  /\ totalReviewers result = List.length reviewerData.
Proof.
  unfold calculateScore. rewrite scoreFold. simpl.
  split; [apply filter_length_le|]. split; [apply filter_length_le|reflexivity].
Qed.

(** The subject's verdict on a game: the one of the last review of that
    game in the list. *)
Definition lastVerdict (gameId : string) (userReviews : list Review)
  : option bool :=
  match List.find (fun review => String.eqb (appId review) gameId)
                  (rev userReviews) with
  | Some review => Some (isPositive review)
  | None => None
  end.

Lemma find_snoc {A : Type} (f : A -> bool) (l : list A) (x : A) :
  List.find f (l ++ [x])
  = match List.find f l with
    | Some y => Some y
    | None => if f x then Some x else None
    end.
Proof.
  induction l as [|a l IH]; simpl; [reflexivity|].
  destruct (f a); [reflexivity|exact IH].
Qed.

Lemma userReviewMap_fold (gameId : string) (userReviews : list Review) :
  forall m : gmap string bool,
    fold_left (fun m review => <[appId review := isPositive review]> m)
              userReviews m !! gameId
    = match lastVerdict gameId userReviews with
      | Some verdict => Some verdict
      | None => m !! gameId
      end.
Proof.
  induction userReviews as [|review l IH] using rev_ind; intros m.
  - reflexivity.
  - rewrite fold_left_app. simpl. unfold lastVerdict.
    rewrite rev_app_distr. simpl.
    destruct (String.eqb (appId review) gameId) eqn:E.
    + apply String.eqb_eq in E. subst gameId. apply lookup_insert_eq.
    + apply String.eqb_neq in E. rewrite lookup_insert_ne by exact E.
      apply IH.
Qed.

(** X4: in the subject's verdict map the last write wins: a game maps to
    the verdict of the subject's last review of it, and to nothing when the
    subject has no review of it. *)
Theorem user_review_map_last_write_wins (userReviews : list Review)
    (gameId : string) :
  userReviewMapOf userReviews !! gameId = lastVerdict gameId userReviews.
Proof.
  unfold userReviewMapOf. rewrite userReviewMap_fold.
  destruct (lastVerdict gameId userReviews); [reflexivity|apply lookup_empty].
Qed.

(** X5: raising [minOverlap] never adds a matching reviewer. *)
Theorem raising_min_overlap_loses_matches (userReviews : list Review)
    (reviewerData : list ReviewerRecord) (targetAppId : string)
    (minOverlap minOverlap' minSimilarity : Z) :
  (minOverlap <= minOverlap')%Z ->
  matchingReviewers (calculateScore userReviews reviewerData targetAppId
                                    minOverlap' minSimilarity)
  <= matchingReviewers (calculateScore userReviews reviewerData targetAppId
                                       minOverlap minSimilarity).
Proof.
  intros H. unfold calculateScore. rewrite !scoreFold. simpl.
  apply filter_length_mono. intros reviewer. unfold isMatching.
  rewrite !andb_true_iff. intros [Ho Hs]. split; [|exact Hs].
  apply Z.leb_le. apply Z.leb_le in Ho. lia.
Qed.

(** The theorem at the scenario of the scoring engine: with [minOverlap]
    raised from 2 to 3 the reviewer no longer matches. *)
Lemma raising_min_overlap_loses_matches_witness :
  matchingReviewers (calculateScore scenarioSubject [scenarioReviewer] "T" 3 50)
  <= matchingReviewers (calculateScore scenarioSubject [scenarioReviewer] "T" 2 50).
Proof.
  apply (raising_min_overlap_loses_matches scenarioSubject [scenarioReviewer]
           "T" 2 3 50).
  lia.
Defined.

Lemma filter_Permutation' {A : Type} (f : A -> bool) (l l' : list A) :
  Permutation l l' -> Permutation (List.filter f l) (List.filter f l').
Proof.
  induction 1 as [|x l l' _ IH|x y l|l l' l'' _ IH1 _ IH2]; simpl.
  - constructor.
  - destruct (f x); [now constructor|exact IH].
  - destruct (f x), (f y); try reflexivity. apply perm_swap.
  - now transitivity (List.filter f l').
Qed.

Lemma list_sum_Permutation (l l' : list nat) :
  Permutation l l' -> list_sum l = list_sum l'.
Proof.
  induction 1 as [|x l l' _ IH|x y l|l l' l'' _ IH1 _ IH2]; simpl; lia.
Qed.

(** X6: the result does not depend on the order in which the reviewers'
    records are given. *)
Theorem score_ignores_reviewer_order (userReviews : list Review)
    (reviewerData reviewerData' : list ReviewerRecord) (targetAppId : string)
    (minOverlap minSimilarity : Z) :
  Permutation reviewerData reviewerData' ->
  calculateScore userReviews reviewerData targetAppId minOverlap minSimilarity
  = calculateScore userReviews reviewerData' targetAppId minOverlap minSimilarity.
Proof.
  intros H. unfold calculateScore. rewrite !scoreFold. cbv zeta. simpl.
  set (m := userReviewMapOf userReviews).
  pose proof (filter_Permutation' (isMatching m minOverlap minSimilarity) _ _ H)
    as Hq.
  rewrite (Permutation_length H), (Permutation_length Hq).
  rewrite (Permutation_length
             (filter_Permutation' (targetPositive targetAppId) _ _ Hq)).
  rewrite (list_sum_Permutation _ _ (Permutation_map (overlapCount m) Hq)).
  reflexivity.
Qed.

Definition strangerFirst : list ReviewerRecord :=
  [strangerReviewer; scenarioReviewer].
Definition strangerLast : list ReviewerRecord :=
  [scenarioReviewer; strangerReviewer].

(** The theorem at two reviewers, swapped. *)
Lemma score_ignores_reviewer_order_witness :
  calculateScore scenarioSubject strangerFirst "T" 2 50
  = calculateScore scenarioSubject strangerLast "T" 2 50.
Proof.
  apply (score_ignores_reviewer_order scenarioSubject strangerFirst strangerLast
           "T" 2 50).
  apply perm_swap.
Defined.

(** X7: the result depends on the subject's reviews only through the
    last verdict for each game. *)
Theorem score_depends_on_last_verdicts (userReviews userReviews' : list Review)
    (reviewerData : list ReviewerRecord) (targetAppId : string)
    (minOverlap minSimilarity : Z) :
  (forall gameId, lastVerdict gameId userReviews = lastVerdict gameId userReviews') ->
  calculateScore userReviews reviewerData targetAppId minOverlap minSimilarity
  = calculateScore userReviews' reviewerData targetAppId minOverlap minSimilarity.
Proof.
  intros H.
  assert (E : userReviewMapOf userReviews = userReviewMapOf userReviews').
  { apply map_eq. intros gameId. unfold userReviewMapOf.
    rewrite !userReviewMap_fold, H. reflexivity. }
  unfold calculateScore. now rewrite E.
Qed.

(** The theorem at a subject who changed a verdict: only the last review
    of the game B counts. *)
Lemma score_depends_on_last_verdicts_witness :
  calculateScore (mkReview "B" true :: scenarioSubject) [scenarioReviewer] "T" 2 50
  = calculateScore scenarioSubject [scenarioReviewer] "T" 2 50.
Proof.
  apply (score_depends_on_last_verdicts (mkReview "B" true :: scenarioSubject)
           scenarioSubject [scenarioReviewer] "T" 2 50).
  intros gameId. unfold lastVerdict, scenarioSubject. cbn [rev app List.find appId].
  destruct (String.eqb "C" gameId); [reflexivity|].
  destruct (String.eqb "B" gameId); reflexivity.
Defined.

(** ** The subject's Steam id *)

Definition notSpace (c : ascii) : bool := negb (isSpace c).
Definition isSlash (c : ascii) : bool := Ascii.eqb c "/"%char.
Definition notSlash (c : ascii) : bool := negb (isSlash c).

(** The characters of a custom URL name: the class of [idPattern]. *)
Definition nameChar (c : ascii) : bool := notChr "/"%char c && negb (isSpace c).

Lemma digit_plain (a : ascii) :
  isDigit a = true ->
  isSpace a = false /\ isSlash a = false /\ Ascii.eqb "s"%char a = false.
Proof.
  destruct a as [[] [] [] [] [] [] [] []]; intros H;
    try discriminate H; repeat split.
Qed.

Lemma nameChar_plain (a : ascii) :
  nameChar a = true -> isSpace a = false /\ isSlash a = false.
Proof.
  unfold nameChar, notChr, isSlash. rewrite andb_true_iff, !negb_true_iff. tauto.
Qed.

(** *** [trim] *)

Lemma trimStart_pad (ws s : string) :
  allChars isSpace ws = true -> trimStart (ws +:+ s) = trimStart s.
Proof.
  induction ws as [|a ws IH]; [reflexivity|].
  rewrite append_cons. simpl. rewrite andb_true_iff. intros [-> H]. auto.
Qed.

Lemma trimStart_stop (s : string) :
  stopsClass isSpace s = true -> trimStart s = s.
Proof.
  destruct s as [|a s]; simpl; [reflexivity|].
  rewrite negb_true_iff. now intros ->.
Qed.

Lemma trimEnd_blank (ws : string) :
  allChars isSpace ws = true -> trimEnd ws = "".
Proof.
  induction ws as [|a ws IH]; simpl; [reflexivity|].
  rewrite andb_true_iff. intros [-> H]. now rewrite IH.
Qed.

Lemma trimEnd_pad (s ws : string) :
  allChars notSpace s = true -> allChars isSpace ws = true ->
  trimEnd (s +:+ ws) = s.
Proof.
  intros Hs Hws. induction s as [|a s IH].
  - rewrite append_nil_l. now apply trimEnd_blank.
  - rewrite append_cons. simpl in *. apply andb_true_iff in Hs.
    destruct Hs as [Ha Hs]. rewrite (IH Hs).
    unfold notSpace in Ha. apply negb_true_iff in Ha. rewrite Ha.
    now destruct s.
Qed.

Lemma trim_padded (ws1 s ws2 : string) :
  allChars isSpace ws1 = true -> allChars notSpace s = true ->
  allChars isSpace ws2 = true ->
  trim (ws1 +:+ s +:+ ws2) = s.
Proof.
  intros H1 Hs H2. unfold trim. rewrite (trimStart_pad _ _ H1).
  destruct s as [|a s].
  - rewrite append_nil_l.
    replace (trimStart ws2) with "".
    + reflexivity.
    + clear H1. induction ws2 as [|b ws2 IH]; simpl in *; [reflexivity|].
      apply andb_true_iff in H2. destruct H2 as [-> H2]. auto.
  - rewrite trimStart_stop.
    + now apply trimEnd_pad.
    + rewrite append_cons. simpl in *. apply andb_true_iff in Hs.
      destruct Hs as [Ha _]. exact Ha.
Qed.

(** *** Where [exec] finds its match *)

Lemma execFrom_fail (ignoreCase : bool) (r : regex) (a : ascii) (s : string)
    (pos : nat) :
  matchHere ignoreCase r (String a s) pos = None ->
  execFrom ignoreCase r (String a s) pos = execFrom ignoreCase r s (S pos).
Proof. intros H. simpl. now rewrite H. Qed.

Lemma execFrom_hit (ignoreCase : bool) (r : regex) (s : string) (pos : nat)
    (m : Match) :
  matchHere ignoreCase r s pos = Some m -> execFrom ignoreCase r s pos = Some m.
Proof. intros H. destruct s; simpl; now rewrite H. Qed.

(** A pattern that can only match at a character of the class [q]. *)
Definition startsIn (ignoreCase : bool) (r : regex) (q : ascii -> bool) : Prop :=
  (forall pos, matchHere ignoreCase r "" pos = None)
  /\ (forall a s pos, q a = false -> matchHere ignoreCase r (String a s) pos = None).

Lemma execFrom_skip (ignoreCase : bool) (r : regex) (q : ascii -> bool)
    (x s : string) :
  startsIn ignoreCase r q ->
  allChars (fun c => negb (q c)) x = true ->
  forall pos,
    execFrom ignoreCase r (x +:+ s) pos
    = execFrom ignoreCase r s (pos + String.length x).
Proof.
  intros [_ Hq]. induction x as [|a x IH]; intros Hx pos.
  - rewrite append_nil_l. simpl. now rewrite Nat.add_0_r.
  - rewrite append_cons. simpl in Hx. apply andb_true_iff in Hx.
    destruct Hx as [Ha Hx]. apply negb_true_iff in Ha.
    rewrite execFrom_fail by now apply Hq.
    rewrite (IH Hx). simpl. f_equal. lia.
Qed.

Lemma exec_none (ignoreCase : bool) (r : regex) (q : ascii -> bool) (s : string) :
  startsIn ignoreCase r q ->
  allChars (fun c => negb (q c)) s = true ->
  exec ignoreCase r s = None.
Proof.
  intros Hr Hs. unfold exec. rewrite <- (append_nil_r s).
  rewrite (execFrom_skip _ _ q _ _ Hr Hs). simpl. now rewrite (proj1 Hr).
Qed.

Lemma steamcommunity_startsIn :
  startsIn false (Lit "steamcommunity.com") (fun a => Ascii.eqb "s"%char a).
Proof.
  split; [reflexivity|]. intros a s pos H. unfold matchHere.
  change (run false (Lit "steamcommunity.com") (fun _ e c => Some (e, c))
              (String a s) pos [])
    with (if Ascii.eqb "s"%char a
          then run false (Lit "teamcommunity.com") (fun _ e c => Some (e, c))
                   s (S pos) []
          else None).
  now rewrite H.
Qed.

Lemma trailingSlashes_startsIn : startsIn false trailingSlashes isSlash.
Proof.
  split; [reflexivity|]. intros a s pos H. unfold matchHere. simpl.
  unfold isSlash in H. now rewrite H.
Qed.

(** A greedy class takes every character of the class when the rest of
    the pattern accepts what follows. *)
Lemma star_all (p : ascii -> bool) (k : cont) (ds rest : string) :
  allChars p ds = true -> stopsClass p rest = true ->
  forall pos c res,
    k rest (pos + String.length ds) c = Some res ->
    star p k (ds +:+ rest) pos c = Some res.
Proof.
  intros Hds Hrest. induction ds as [|a ds IH]; intros pos c res Hk.
  - rewrite append_nil_l. simpl in Hk. rewrite Nat.add_0_r in Hk.
    destruct rest as [|b rest]; simpl; [exact Hk|].
    simpl in Hrest. apply negb_true_iff in Hrest. now rewrite Hrest.
  - rewrite append_cons. simpl in *. apply andb_true_iff in Hds.
    destruct Hds as [-> Hds]. rewrite (IH Hds (S pos) c res); [reflexivity|].
    rewrite <- Hk. f_equal. lia.
Qed.

(** A class followed by the end of the input. *)
Lemma star_eos (ignoreCase : bool) (p : ascii -> bool) (s : string) :
  forall pos c,
    star p (run ignoreCase Eos accept) s pos c
    = if allChars p s then Some (pos + String.length s, c) else None.
Proof.
  induction s as [|a s IH]; intros pos c; simpl.
  - now rewrite Nat.add_0_r.
  - destruct (p a); simpl; [|reflexivity]. rewrite IH.
    destruct (allChars p s); [|reflexivity]. do 2 f_equal. lia.
Qed.

Lemma execFrom_bos (ignoreCase : bool) (r : regex) (s : string) :
  forall pos, 0 < pos -> execFrom ignoreCase (Cat Bos r) s pos = None.
Proof.
  assert (H : forall s' pos, 0 < pos ->
            matchHere ignoreCase (Cat Bos r) s' pos = None).
  { intros s' pos Hpos. unfold matchHere. simpl.
    destruct pos; [lia|reflexivity]. }
  induction s as [|a s IH]; intros pos Hpos; simpl; rewrite H by exact Hpos.
  - reflexivity.
  - apply IH. lia.
Qed.

(** [/^\d+$/.test(s)] *)
Lemma exec_allDigits (s : string) :
  exec false allDigits s
  = if negb (String.eqb s "") && allChars isDigit s
    then Some (mkMatch 0 (String.length s) [])
    else None.
Proof.
  destruct s as [|a s]; [reflexivity|].
  unfold exec. cbn [execFrom]. unfold matchHere.
  change (run false allDigits (fun _ e c => Some (e, c)) (String a s) 0 [])
    with (if isDigit a then star isDigit (run false Eos accept) s 1 [] else None).
  cbn [String.eqb negb andb allChars].
  destruct (isDigit a); cbn [andb].
  - rewrite star_eos. destruct (allChars isDigit s); [reflexivity|].
    apply execFrom_bos. lia.
  - apply execFrom_bos. lia.
Qed.

(** The base URL for a cleaned id. *)
Lemma userBaseUrl_cleaned (input cleanedId : string) :
  parseSteamId input = Some cleanedId -> cleanedId <> "" ->
  userBaseUrl input
  = Some (if allChars isDigit cleanedId
          then profilesUrl cleanedId else idUrl cleanedId).
Proof.
  intros H Hne. unfold userBaseUrl. rewrite H.
  apply String.eqb_neq in Hne. rewrite Hne, exec_allDigits, Hne.
  cbn [negb andb]. destruct (allChars isDigit cleanedId); reflexivity.
Qed.

(** Trailing slashes are removed. *)
Lemma removeFirst_trailingSlashes (x slashes : string) :
  allChars notSlash x = true -> allChars isSlash slashes = true ->
  removeFirst false trailingSlashes (x +:+ slashes) = x.
Proof.
  intros Hx Hs. unfold removeFirst, exec.
  rewrite (execFrom_skip false trailingSlashes isSlash x slashes
             trailingSlashes_startsIn Hx).
  destruct slashes as [|a slashes].
  - simpl. apply append_nil_r.
  - rewrite (execFrom_hit _ _ _ _
               (mkMatch (String.length x)
                        (String.length x + String.length (String a slashes)) [])).
    + cbn [index endIndex]. unfold JS.substring.
      rewrite Nat.sub_0_r, substring_head.
      rewrite <- length_append, Nat.sub_diag, substring_tail.
      apply append_nil_r.
    + unfold matchHere. simpl in Hs. apply andb_true_iff in Hs.
      destruct Hs as [Ha Hs].
      change (run false trailingSlashes (fun _ e c => Some (e, c))
                  (String a slashes) (0 + String.length x) [])
        with (if isSlash a
              then star isSlash (run false Eos accept) slashes
                        (S (0 + String.length x)) []
              else None).
      rewrite Ha, star_eos, Hs. simpl. do 3 f_equal. lia.
Qed.

Lemma includes_none (t : string) (a : ascii) (s : string) :
  allChars (fun c => negb (Ascii.eqb a c)) s = true ->
  includes (String a t) s = false.
Proof.
  intros H. unfold includes.
  rewrite (exec_none false _ (fun c => Ascii.eqb a c)); [reflexivity| |exact H].
  split; [reflexivity|]. intros b s' pos Hb. unfold matchHere. simpl.
  now rewrite Hb.
Qed.

(** X8: a steamID64, with white space around it and slashes after it or
    not, is the id of a profile: the review history is read from the
    [/profiles/] form of the URL. *)
Theorem steam_id_numeric (ws1 digits slashes ws2 : string) :
  numeric digits ->
  allChars isSpace ws1 = true -> allChars isSlash slashes = true ->
  allChars isSpace ws2 = true ->
  parseSteamId (ws1 +:+ (digits +:+ slashes) +:+ ws2) = Some digits
  /\ userBaseUrl (ws1 +:+ (digits +:+ slashes) +:+ ws2)
     = Some (profilesUrl digits).
Proof.
  intros [Hne Hd] H1 Hs H2.
  assert (Hparse : parseSteamId (ws1 +:+ (digits +:+ slashes) +:+ ws2)
                   = Some digits).
  { unfold parseSteamId.
    assert (E : String.eqb (ws1 +:+ (digits +:+ slashes) +:+ ws2) "" = false).
    { apply String.eqb_neq. intros E. apply (f_equal String.length) in E.
      rewrite !length_append in E. destruct digits; [congruence|].
      simpl in E. lia. }
    rewrite E. rewrite trim_padded; try assumption.
    - rewrite includes_none.
      + f_equal. apply removeFirst_trailingSlashes; [|exact Hs].
        revert Hd. apply allChars_weaken. intros a Ha.
        unfold notSlash. now rewrite (proj1 (proj2 (digit_plain a Ha))).
      + rewrite allChars_append. apply andb_true_iff. split.
        * revert Hd. apply allChars_weaken. intros a Ha.
          now rewrite (proj2 (proj2 (digit_plain a Ha))).
        * revert Hs. apply allChars_weaken. intros a Ha.
          unfold isSlash in Ha. apply Ascii.eqb_eq in Ha. now subst a.
    - rewrite allChars_append. apply andb_true_iff. split.
      + revert Hd. apply allChars_weaken. intros a Ha.
        unfold notSpace. now rewrite (proj1 (digit_plain a Ha)).
      + revert Hs. apply allChars_weaken. intros a Ha.
        unfold isSlash in Ha. apply Ascii.eqb_eq in Ha. now subst a. }
  split; [exact Hparse|].
  rewrite (userBaseUrl_cleaned _ _ Hparse Hne). now rewrite Hd.
Qed.

(** The theorem at a steamID64 typed with a space before it and a slash
    after it. *)
Lemma steam_id_numeric_witness :
  parseSteamId " 76561198000000001/" = Some "76561198000000001"
  /\ userBaseUrl " 76561198000000001/"
     = Some "https://steamcommunity.com/profiles/76561198000000001/recommended/".
Proof.
  apply (steam_id_numeric " " "76561198000000001" "/" "");
    [split; [discriminate|reflexivity] | reflexivity | reflexivity | reflexivity].
Defined.

(** X9: a custom URL name, with white space around it or not, is
    requested under the [/id/] form of the URL, unless it is made of
    digits. *)
Theorem steam_id_custom_name (ws1 name ws2 : string) :
  name <> "" -> allChars nameChar name = true ->
  includes "steamcommunity.com" name = false ->
  allChars isSpace ws1 = true -> allChars isSpace ws2 = true ->
  parseSteamId (ws1 +:+ name +:+ ws2) = Some name
  /\ userBaseUrl (ws1 +:+ name +:+ ws2)
     = Some (if allChars isDigit name then profilesUrl name else idUrl name).
Proof.
  intros Hne Hn Hinc H1 H2.
  assert (Hparse : parseSteamId (ws1 +:+ name +:+ ws2) = Some name).
  { unfold parseSteamId.
    assert (E : String.eqb (ws1 +:+ name +:+ ws2) "" = false).
    { apply String.eqb_neq. intros E. apply (f_equal String.length) in E.
      rewrite !length_append in E. destruct name; [congruence|].
      simpl in E. lia. }
    rewrite E. rewrite trim_padded; try assumption.
    - rewrite Hinc. f_equal. rewrite <- (append_nil_r name) at 1.
      apply removeFirst_trailingSlashes; [|reflexivity].
      revert Hn. apply allChars_weaken. intros a Ha.
      unfold notSlash. now rewrite (proj2 (nameChar_plain a Ha)).
    - revert Hn. apply allChars_weaken. intros a Ha.
      unfold notSpace. now rewrite (proj1 (nameChar_plain a Ha)). }
  split; [exact Hparse|]. exact (userBaseUrl_cleaned _ _ Hparse Hne).
Qed.

(** The theorem at a custom name. *)
Lemma steam_id_custom_name_witness :
  parseSteamId "gabelogannewell " = Some "gabelogannewell"
  /\ userBaseUrl "gabelogannewell "
     = Some "https://steamcommunity.com/id/gabelogannewell/recommended/".
Proof.
  apply (steam_id_custom_name "" "gabelogannewell" " ");
    [discriminate | reflexivity | reflexivity | reflexivity | reflexivity].
Defined.

Lemma plusGroup_run (ignoreCase : bool) (p : ascii -> bool) (ds rest : string)
    (pos : nat) (c : captures) :
  ds <> "" -> allChars p ds = true -> stopsClass p rest = true ->
  run ignoreCase (Group 1 (Plus p)) accept (ds +:+ rest) pos c
  = Some (pos + String.length ds, (1, (pos, pos + String.length ds)) :: c).
Proof.
  intros Hne Hds Hrest. destruct ds as [|a ds]; [congruence|].
  rewrite append_cons. simpl in Hds. apply andb_true_iff in Hds.
  destruct Hds as [Ha Hds]. simpl. rewrite Ha.
  rewrite (star_all p _ ds rest Hds Hrest (S pos) c
             (pos + S (String.length ds),
              (1, (pos, pos + S (String.length ds))) :: c)); [reflexivity|].
  replace (S pos + String.length ds) with (pos + S (String.length ds)) by lia.
  reflexivity.
Qed.

Lemma lit_run (t : string) :
  forall k s pos c,
    run false (Lit t) k (t +:+ s) pos c = k s (pos + String.length t) c.
Proof.
  induction t as [|a t IH]; intros k s pos c.
  - rewrite append_nil_l. simpl. now rewrite Nat.add_0_r.
  - rewrite append_cons. simpl. unfold chr_eq. rewrite Ascii.eqb_refl.
    rewrite IH. f_equal. lia.
Qed.

Lemma trim_plain (s : string) : allChars notSpace s = true -> trim s = s.
Proof.
  intros H. rewrite <- (trim_padded "" s "") at 2; try reflexivity; try exact H.
  rewrite append_nil_l. now rewrite append_nil_r.
Qed.

Lemma numeric_notSpace (ds : string) :
  allChars isDigit ds = true -> allChars notSpace ds = true.
Proof.
  apply allChars_weaken. intros a Ha. unfold notSpace.
  now rewrite (proj1 (digit_plain a Ha)).
Qed.

(** X10: the URL of a profile page gives the steamID64 that it holds, and
    the review history is read from the [/profiles/] form. *)
Theorem steam_id_profile_url (digits tail : string) :
  numeric digits ->
  stopsClass isDigit tail = true -> allChars notSpace tail = true ->
  parseSteamId ("https://steamcommunity.com/profiles/" +:+ digits +:+ tail)
  = Some digits
  /\ userBaseUrl ("https://steamcommunity.com/profiles/" +:+ digits +:+ tail)
     = Some (profilesUrl digits).
Proof.
  intros [Hne Hd] Hstop Htail.
  set (input := "https://steamcommunity.com/profiles/" +:+ digits +:+ tail).
  assert (Hexec : exec false profilePattern input
                  = Some (mkMatch 8 (36 + String.length digits)
                            [(1, (36, 36 + String.length digits))])).
  { unfold exec, input.
    change ("https://steamcommunity.com/profiles/" +:+ digits +:+ tail)
      with ("https://" +:+ "steamcommunity.com/profiles/" +:+ digits +:+ tail).
    do 8 rewrite append_cons. rewrite append_nil_l.
    do 8 (rewrite execFrom_fail by reflexivity).
    apply execFrom_hit. unfold matchHere.
    change (run false profilePattern (fun _ e c => Some (e, c))
              ("steamcommunity.com/profiles/" +:+ digits +:+ tail) 8 [])
      with (run false (Lit "steamcommunity.com/profiles/")
              (run false (Group 1 (Plus isDigit)) accept)
              ("steamcommunity.com/profiles/" +:+ digits +:+ tail) 8 []).
    rewrite lit_run, plusGroup_run by assumption. reflexivity. }
  assert (Hparse : parseSteamId input = Some digits).
  { unfold parseSteamId.
    assert (E : String.eqb input "" = false) by reflexivity.
    rewrite E, trim_plain.
    - assert (I : includes "steamcommunity.com" input = true) by reflexivity.
      rewrite I, Hexec. f_equal. unfold group. cbn [groups List.find fst Nat.eqb].
      unfold JS.substring.
      replace (36 + String.length digits - 36) with (String.length digits) by lia.
      apply (substring_middle "https://steamcommunity.com/profiles/").
    - unfold input. rewrite !allChars_append, (numeric_notSpace _ Hd), Htail.
      reflexivity. }
  split; [exact Hparse|].
  rewrite (userBaseUrl_cleaned _ _ Hparse Hne). now rewrite Hd.
Qed.

(** The theorem at the URL of a profile page. *)
Lemma steam_id_profile_url_witness :
  parseSteamId "https://steamcommunity.com/profiles/76561198000000001/"
  = Some "76561198000000001"
  /\ userBaseUrl "https://steamcommunity.com/profiles/76561198000000001/"
     = Some "https://steamcommunity.com/profiles/76561198000000001/recommended/".
Proof.
  apply (steam_id_profile_url "76561198000000001" "/");
    [split; [discriminate|reflexivity] | reflexivity | reflexivity].
Defined.

(** The number of slashes of a text. *)
Fixpoint countSlashes (s : string) : nat :=
  match s with
  | EmptyString => 0
  | String a s' => (if isSlash a then 1 else 0) + countSlashes s'
  end.

Lemma countSlashes_append (s t : string) :
  countSlashes (s +:+ t) = countSlashes s + countSlashes t.
Proof.
  induction s as [|a s IH]; [reflexivity|].
  rewrite append_cons. simpl. rewrite IH. lia.
Qed.

Lemma countSlashes_none (s : string) :
  allChars notSlash s = true -> countSlashes s = 0.
Proof.
  induction s as [|a s IH]; simpl; [reflexivity|].
  rewrite andb_true_iff. unfold notSlash at 1. rewrite negb_true_iff.
  intros [-> H]. now rewrite IH.
Qed.

Lemma lit_prefix (t : string) :
  forall k s pos c res,
    run false (Lit t) k s pos c = Some res -> exists s', s = t +:+ s'.
Proof.
  induction t as [|a t IH]; intros k s pos c res H; simpl in H.
  - now exists s.
  - destruct s as [|b s]; [discriminate|]. unfold chr_eq in H.
    destruct (Ascii.eqb a b) eqn:E; [|discriminate].
    apply Ascii.eqb_eq in E. subst b.
    apply IH in H. destruct H as [s' ->]. now exists s'.
Qed.

(** The pattern of a profile URL needs two slashes. *)
Lemma execFrom_profile_none (s : string) :
  forall pos, countSlashes s <= 1 -> execFrom false profilePattern s pos = None.
Proof.
  assert (H : forall s' pos, countSlashes s' <= 1 ->
            matchHere false profilePattern s' pos = None).
  { intros s' pos Hs. unfold matchHere.
    destruct (run false profilePattern _ s' pos []) as [res|] eqn:E;
      [|reflexivity].
    change (run false profilePattern (fun _ e c => Some (e, c)) s' pos [])
      with (run false (Lit "steamcommunity.com/profiles/")
              (run false (Group 1 (Plus isDigit)) accept) s' pos []) in E.
    apply lit_prefix in E. destruct E as [s'' ->].
    rewrite countSlashes_append in Hs.
    change (countSlashes "steamcommunity.com/profiles/") with 2 in Hs. lia. }
  induction s as [|a s IH]; intros pos Hs; cbn [execFrom];
    rewrite H by exact Hs.
  - reflexivity.
  - apply IH. simpl in Hs. lia.
Qed.

(** X11: the URL of a custom URL page gives the name that it holds; the
    review history is read from the [/id/] form, unless the name is made of
    digits. *)
Theorem steam_id_custom_url (name : string) (slash : bool) :
  name <> "" -> allChars nameChar name = true ->
  let input := "https://steamcommunity.com/id/" +:+ name
               +:+ (if slash then "/" else "") in
  parseSteamId input = Some name
  /\ userBaseUrl input
     = Some (if allChars isDigit name then profilesUrl name else idUrl name).
Proof.
  intros Hne Hn input.
  set (tail := if slash then "/" else "") in input.
  assert (Hstop : stopsClass nameChar tail = true) by now destruct slash.
  assert (Hprofile : exec false profilePattern input = None).
  { unfold exec, input. do 30 rewrite append_cons. rewrite append_nil_l.
    do 30 (rewrite execFrom_fail by reflexivity).
    apply execFrom_profile_none. rewrite countSlashes_append.
    rewrite countSlashes_none.
    - destruct slash; simpl; lia.
    - revert Hn. apply allChars_weaken. intros a Ha.
      unfold notSlash. now rewrite (proj2 (nameChar_plain a Ha)). }
  assert (Hid : exec false idPattern input
                = Some (mkMatch 8 (30 + String.length name)
                          [(1, (30, 30 + String.length name))])).
  { unfold exec, input.
    change ("https://steamcommunity.com/id/" +:+ name +:+ tail)
      with ("https://" +:+ "steamcommunity.com/id/" +:+ name +:+ tail).
    do 8 rewrite append_cons. rewrite append_nil_l.
    do 8 (rewrite execFrom_fail by reflexivity).
    apply execFrom_hit. unfold matchHere.
    change (run false idPattern (fun _ e c => Some (e, c))
              ("steamcommunity.com/id/" +:+ name +:+ tail) 8 [])
      with (run false (Lit "steamcommunity.com/id/")
              (run false (Group 1 (Plus nameChar)) accept)
              ("steamcommunity.com/id/" +:+ name +:+ tail) 8 []).
    rewrite lit_run, plusGroup_run by assumption. reflexivity. }
  assert (Hparse : parseSteamId input = Some name).
  { unfold parseSteamId.
    assert (E : String.eqb input "" = false) by reflexivity.
    rewrite E, trim_plain.
    - assert (I : includes "steamcommunity.com" input = true) by reflexivity.
      rewrite I, Hprofile, Hid. f_equal. unfold group.
      cbn [groups List.find fst Nat.eqb]. unfold JS.substring.
      replace (30 + String.length name - 30) with (String.length name) by lia.
      apply (substring_middle "https://steamcommunity.com/id/").
    - unfold input. rewrite !allChars_append.
      apply andb_true_iff. split; [reflexivity|].
      apply andb_true_iff. split; [|now destruct slash].
      revert Hn. apply allChars_weaken. intros a Ha.
      unfold notSpace. now rewrite (proj1 (nameChar_plain a Ha)). }
  split; [exact Hparse|]. exact (userBaseUrl_cleaned _ _ Hparse Hne).
Qed.

(** The theorem at the URL of a custom URL page. *)
Lemma steam_id_custom_url_witness :
  parseSteamId "https://steamcommunity.com/id/gabelogannewell/"
  = Some "gabelogannewell"
  /\ userBaseUrl "https://steamcommunity.com/id/gabelogannewell/"
     = Some "https://steamcommunity.com/id/gabelogannewell/recommended/".
Proof.
  apply (steam_id_custom_url "gabelogannewell" true);
    [discriminate | reflexivity].
Defined.

(** ** The app id of the page, further *)

Lemma appPathPattern_endsWithDigits : endsWithDigits false appPathPattern.
Proof. exists (Lit "/app/"). reflexivity. Qed.

(** X12: the app id that the popup sends with [startAnalysis] is a text
    of one or more digits, and it is the one that the content script
    reports for the same URL. *)
Theorem tab_app_id_numeric (url appId : string) :
  tabAppId url = Some appId -> numeric appId /\ pageAppId url = Some appId.
Proof.
  unfold tabAppId, pageAppId.
  destruct (negb (includes "store.steampowered.com/app/" url)); [discriminate|].
  destruct (exec false appPathPattern url) as [m|] eqn:E; [|discriminate].
  intros [= <-]. split; [|reflexivity].
  apply (exec_digits false appPathPattern); [|exact E].
  apply appPathPattern_endsWithDigits.
Qed.

(** X13: for the URL of a store page the popup sends the app id of the
    page. *)
Theorem tab_app_id_of_store_page (appId tail : string) :
  numeric appId -> stopsClass isDigit tail = true ->
  tabAppId ("https://store.steampowered.com/app/" +:+ appId +:+ tail)
  = Some appId.
Proof.
  intros [Hne Hd] Hstop. unfold tabAppId.
  set (url := "https://store.steampowered.com/app/" +:+ appId +:+ tail).
  assert (I : includes "store.steampowered.com/app/" url = true) by reflexivity.
  rewrite I. cbn [negb].
  assert (Hexec : exec false appPathPattern url
                  = Some (mkMatch 30 (35 + String.length appId)
                            [(1, (35, 35 + String.length appId))])).
  { unfold exec, url.
    change ("https://store.steampowered.com/app/" +:+ appId +:+ tail)
      with ("https://store.steampowered.com" +:+ "/app/" +:+ appId +:+ tail).
    do 30 rewrite append_cons. rewrite append_nil_l.
    do 30 (rewrite execFrom_fail by reflexivity).
    apply execFrom_hit. unfold matchHere.
    change (run false appPathPattern (fun _ e c => Some (e, c))
              ("/app/" +:+ appId +:+ tail) 30 [])
      with (run false (Lit "/app/")
              (run false (Group 1 (Plus isDigit)) accept)
              ("/app/" +:+ appId +:+ tail) 30 []).
    rewrite lit_run, plusGroup_run by assumption. reflexivity. }
  rewrite Hexec. f_equal. unfold group. cbn [groups List.find fst Nat.eqb].
  unfold JS.substring.
  replace (35 + String.length appId - 35) with (String.length appId) by lia.
  apply (substring_middle "https://store.steampowered.com/app/").
Qed.

(** The theorems at the store page of a game. *)
Lemma tab_app_id_of_store_page_witness :
  tabAppId "https://store.steampowered.com/app/620/Portal_2/" = Some "620".
Proof.
  apply (tab_app_id_of_store_page "620" "/Portal_2/");
    [split; [discriminate|reflexivity] | reflexivity].
Defined.

Lemma tab_app_id_numeric_witness :
  numeric "620"
  /\ pageAppId "https://store.steampowered.com/app/620/Portal_2/" = Some "620".
Proof.
  apply (tab_app_id_numeric "https://store.steampowered.com/app/620/Portal_2/").
  vm_compute. reflexivity.
Defined.

(** ** The attempts of a request *)

(** What [fetchWithRetry] does at most: three calls, with a wait of one
    second and then of two seconds between them. *)
Definition retryTrace (url : string) : list Event :=
  [EvFetch url; EvDelay 1000; EvFetch url; EvDelay 2000; EvFetch url].

(** The state after [calls] failed calls and the waits that follow them. *)
Definition afterAttempts (st : State) (url : string) (reads calls events : nat)
  : State :=
  mkState (reads + flagReads st) (calls + fetchCalls st)
          (trace st ++ firstn events (retryTrace url)) (storage st).


(** X15: when three calls in a row fail and no cancellation is seen,
    [fetchWithRetry] throws the error of the third call, after a wait of one
    second and a wait of two seconds, and no wait after the last call. *)
Theorem fetch_with_retry_exhausted (w : World) (url : string) (st : State)
    (m0 m1 m2 : string) :
  (forall i, i < 3 -> flagSet w (i + flagReads st) = false) ->
  failureMessage (network w (fetchCalls st) url) = Some m0 ->
  failureMessage (network w (1 + fetchCalls st) url) = Some m1 ->
  failureMessage (network w (2 + fetchCalls st) url) = Some m2 ->
  fetchWithRetry w url st = (Throw m2, afterAttempts st url 3 3 5).
Proof.
  intros Hflag H0 H1 H2. unfold fetchWithRetry.
  pose proof (Hflag 0 ltac:(lia)) as F0.
  pose proof (Hflag 1 ltac:(lia)) as F1.
  pose proof (Hflag 2 ltac:(lia)) as F2.
  cbn [Nat.add] in F0, F1, F2, H1, H2.
  rewrite fetchWithRetryFrom_read, F0.
  destruct (network w (fetchCalls st) url) as [message0|[|] status0 text0];
    try discriminate H0.
  all: rewrite fetchWithRetryFrom_read; cbn [flagReads fetchCalls trace storage];
    rewrite F1;
    destruct (network w (S (fetchCalls st)) url) as [message1|[|] status1 text1];
    try discriminate H1.
  all: rewrite fetchWithRetryFrom_read; cbn [flagReads fetchCalls trace storage];
    rewrite F2;
    destruct (network w (S (S (fetchCalls st))) url) as [message2|[|] status2 text2];
    try discriminate H2;
    cbn in H2; injection H2 as <-;
    unfold afterAttempts, afterFetch; cbn; rewrite <- !app_assoc; reflexivity.
Qed.

(** X16: when the first [k] calls fail and the next one is answered,
    [fetchWithRetry] returns the text of that answer, after [k] waits. *)
Theorem fetch_with_retry_recovers (w : World) (url : string) (st : State)
    (k status : nat) (text : string) :
  k <= 2 ->
  (forall i, i <= k -> flagSet w (i + flagReads st) = false) ->
  (forall i, i < k -> failureMessage (network w (i + fetchCalls st) url) <> None) ->
  network w (k + fetchCalls st) url = Response true status text ->
  fetchWithRetry w url st
  = (Normal text, afterAttempts st url (S k) (S k) (2 * k + 1)).
Proof.
  intros Hk Hflag Hfail Hok. unfold fetchWithRetry.
  pose proof (Hflag 0 ltac:(lia)) as F0. cbn [Nat.add] in F0.
  rewrite fetchWithRetryFrom_read, F0.
  destruct k as [|[|[|k]]]; [| | |lia]; cbn [Nat.add] in Hok.
  - rewrite Hok. unfold afterAttempts, afterFetch. reflexivity.
  - pose proof (Hflag 1 ltac:(lia)) as F1. cbn [Nat.add] in F1.
    pose proof (Hfail 0 ltac:(lia)) as N0. cbn [Nat.add] in N0.
    destruct (network w (fetchCalls st) url) as [message0|[|] status0 text0];
      try (now contradiction N0).
    all: rewrite fetchWithRetryFrom_read; cbn [flagReads fetchCalls trace storage];
      rewrite F1, Hok;
      unfold afterAttempts, afterFetch; cbn; rewrite <- !app_assoc; reflexivity.
  - pose proof (Hflag 1 ltac:(lia)) as F1. cbn [Nat.add] in F1.
    pose proof (Hflag 2 ltac:(lia)) as F2. cbn [Nat.add] in F2.
    pose proof (Hfail 0 ltac:(lia)) as N0. cbn [Nat.add] in N0.
    pose proof (Hfail 1 ltac:(lia)) as N1. cbn [Nat.add] in N1.
    destruct (network w (fetchCalls st) url) as [message0|[|] status0 text0];
      try (now contradiction N0).
    all: rewrite fetchWithRetryFrom_read; cbn [flagReads fetchCalls trace storage];
      rewrite F1;
      destruct (network w (S (fetchCalls st)) url) as [message1|[|] status1 text1];
      try (now contradiction N1).
    all: rewrite fetchWithRetryFrom_read; cbn [flagReads fetchCalls trace storage];
      rewrite F2, Hok;
      unfold afterAttempts, afterFetch; cbn; rewrite <- !app_assoc; reflexivity.
Qed.

(** A network that answers no call, and one that fails once. *)
Definition deadWorld : World :=
  mkWorld None (fun _ _ => NetworkError "Failed to fetch") (fun _ => None)
          (fun s => s).
Definition flakyWorld : World :=
  mkWorld None
    (fun n _ => if n =? 0 then Response false 503 "" else Response true 200 "<html>")
    (fun _ => None) (fun s => s).

(** The theorem in a world without network. *)
Lemma fetch_with_retry_exhausted_witness :
  fetchWithRetry deadWorld subjectUrl (initialState idleStorage)
  = (Throw "Failed to fetch",
     mkState 3 3 (retryTrace subjectUrl) idleStorage).
Proof.
  apply (fetch_with_retry_exhausted deadWorld subjectUrl
           (initialState idleStorage) "Failed to fetch" "Failed to fetch"
           "Failed to fetch"); reflexivity.
Defined.

(** The theorem in a world where the first call fails with status 503. *)
Lemma fetch_with_retry_recovers_witness :
  fetchWithRetry flakyWorld subjectUrl (initialState idleStorage)
  = (Normal "<html>",
     mkState 2 2 [EvFetch subjectUrl; EvDelay 1000; EvFetch subjectUrl]
             idleStorage).
Proof.
  apply (fetch_with_retry_recovers flakyWorld subjectUrl
           (initialState idleStorage) 1 200 "<html>").
  - lia.
  - intros i Hi. reflexivity.
  - intros i Hi. assert (i = 0) as -> by lia. discriminate.
  - reflexivity.
Defined.

(** ** What a call requests *)

(** From [st] to [st'] the trace grows by events that are all [allowed],
    with at most [budget] calls of [fetch] among them. *)
Definition emits (allowed : Event -> Prop) (budget : nat) (st st' : State)
  : Prop :=
  exists new,
    trace st' = trace st ++ new /\ Forall allowed new
    /\ List.length (fetchedUrls new) <= budget.

(** [within allowed budget c]: from every state, however [c] ends. *)
Definition within {A : Type} (allowed : Event -> Prop) (budget : nat) (c : M A)
  : Prop :=
  forall st, emits allowed budget st (snd (c st)).

Lemma emits_refl (allowed : Event -> Prop) (budget : nat) (st : State) :
  emits allowed budget st st.
Proof.
  exists []. rewrite app_nil_r. repeat split; [constructor|simpl; lia].
Qed.

Lemma emits_trans (allowed : Event -> Prop) (n1 n2 : nat) (st1 st2 st3 : State) :
  emits allowed n1 st1 st2 -> emits allowed n2 st2 st3 ->
  emits allowed (n1 + n2) st1 st3.
Proof.
  intros [new1 [E1 [F1 L1]]] [new2 [E2 [F2 L2]]]. exists (new1 ++ new2).
  rewrite E2, E1, <- app_assoc. split; [reflexivity|]. split.
  - apply Forall_app. split; assumption.
  - rewrite fetchedUrls_app, length_app. lia.
Qed.

Lemma emits_weaken (allowed allowed' : Event -> Prop) (n n' : nat)
    (st st' : State) :
  (forall e, allowed e -> allowed' e) -> n <= n' ->
  emits allowed n st st' -> emits allowed' n' st st'.
Proof.
  intros Ha Hn [new [E [F L]]]. exists new. split; [exact E|]. split.
  - revert F. apply List.Forall_impl. exact Ha.
  - lia.
Qed.

Lemma within_weaken {A : Type} (allowed allowed' : Event -> Prop) (n n' : nat)
    (c : M A) :
  (forall e, allowed e -> allowed' e) -> n <= n' ->
  within allowed n c -> within allowed' n' c.
Proof. intros Ha Hn Hc st. now apply (emits_weaken allowed allowed' n n'). Qed.

Lemma within_ret {A : Type} (allowed : Event -> Prop) (n : nat) (a : A) :
  within allowed n (ret a).
Proof. intros st. apply emits_refl. Qed.

Lemma within_throw {A : Type} (allowed : Event -> Prop) (n : nat)
    (message : string) :
  within allowed n (@throw A message).
Proof. intros st. apply emits_refl. Qed.

Lemma within_outOfFuel {A : Type} (allowed : Event -> Prop) (n : nat) :
  within allowed n (@outOfFuel A).
Proof. intros st. apply emits_refl. Qed.

Lemma within_bind_with {A B : Type} (allowed : Event -> Prop) (R : A -> Prop)
    (n1 n2 n : nat) (c : M A) (k : A -> M B) :
  n1 + n2 <= n ->
  within allowed n1 c ->
  (forall st a st', c st = (Normal a, st') -> R a) ->
  (forall a, R a -> within allowed n2 (k a)) ->
  within allowed n (bind c k).
Proof.
  intros Hn Hc Hr Hk st. unfold bind. specialize (Hc st). specialize (Hr st).
  destruct (c st) as [[a|message|] st1]; cbn [snd] in Hc.
  - apply (emits_weaken allowed allowed (n1 + n2) n); [auto|exact Hn|].
    apply (emits_trans allowed n1 n2 st st1); [exact Hc|].
    apply Hk. now apply (Hr a st1).
  - apply (emits_weaken allowed allowed n1 n); [auto|lia|exact Hc].
  - apply (emits_weaken allowed allowed n1 n); [auto|lia|exact Hc].
Qed.

Lemma within_bind {A B : Type} (allowed : Event -> Prop) (n1 n2 n : nat)
    (c : M A) (k : A -> M B) :
  n1 + n2 <= n ->
  within allowed n1 c -> (forall a, within allowed n2 (k a)) ->
  within allowed n (bind c k).
Proof.
  intros Hn Hc Hk.
  apply (within_bind_with allowed (fun _ => True) n1 n2 n); auto.
Qed.

Lemma within_tryCatch {A : Type} (allowed : Event -> Prop) (n1 n2 n : nat)
    (c : M A) (handler : string -> M A) :
  n1 + n2 <= n ->
  within allowed n1 c -> (forall message, within allowed n2 (handler message)) ->
  within allowed n (tryCatch c handler).
Proof.
  intros Hn Hc Hh st. unfold tryCatch. specialize (Hc st).
  destruct (c st) as [[a|message|] st1]; cbn [snd] in Hc.
  - apply (emits_weaken allowed allowed n1 n); [auto|lia|exact Hc].
  - apply (emits_weaken allowed allowed (n1 + n2) n); [auto|exact Hn|].
    apply (emits_trans allowed n1 n2 st st1); [exact Hc|apply Hh].
  - apply (emits_weaken allowed allowed n1 n); [auto|lia|exact Hc].
Qed.

Section Requested.

Variable w : World.
Variable allowed : Event -> Prop.
Hypothesis allowed_delay : forall ms, allowed (EvDelay ms).

Lemma within_readShouldCancel (n : nat) : within allowed n (readShouldCancel w).
Proof.
  intros st. exists []. simpl. rewrite app_nil_r.
  repeat split; [constructor|lia].
Qed.

Lemma within_storageSet (n : nat) (f : Storage -> Storage) :
  within allowed n (storageSet f).
Proof.
  intros st. exists []. simpl. rewrite app_nil_r.
  repeat split; [constructor|lia].
Qed.

Lemma within_updateProgress (n : nat) (p : Progress) :
  within allowed n (updateProgress p).
Proof. apply within_storageSet. Qed.

Lemma within_delay (n ms : nat) : within allowed n (delay ms).
Proof.
  intros st. exists [EvDelay ms]. simpl.
  repeat split; [|lia]. constructor; [apply allowed_delay|constructor].
Qed.

Lemma within_fetch (n : nat) (url : string) :
  allowed (EvFetch url) -> 1 <= n -> within allowed n (fetch w url).
Proof.
  intros Hu Hn st. exists [EvFetch url]. simpl.
  repeat split; [|lia]. constructor; [exact Hu|constructor].
Qed.

Lemma within_fetchWithRetryFrom (url : string) (remaining : nat) :
  forall i n,
    allowed (EvFetch url) -> S remaining <= n ->
    within allowed n (fetchWithRetryFrom w url i remaining).
Proof.
  induction remaining as [|remaining IH]; intros i n Hu Hn;
    rewrite fetchWithRetryFrom_eq;
    (apply (within_bind allowed 0 n n); [lia|apply within_readShouldCancel|]);
    intros [|]; try apply within_throw;
    (apply (within_bind allowed 1 (n - 1) n);
     [lia|apply within_fetch; [exact Hu|lia]|]);
    intros [message|[|] status text]; cbv beta iota zeta;
    try apply within_ret; try apply within_throw;
    (apply (within_bind allowed 0 (n - 1) (n - 1));
     [lia|apply within_delay|]); intros _; apply IH; (exact Hu || lia).
Qed.

Lemma within_fetchWithRetry (url : string) (n : nat) :
  allowed (EvFetch url) -> 3 <= n -> within allowed n (fetchWithRetry w url).
Proof. intros Hu Hn. now apply within_fetchWithRetryFrom. Qed.

Lemma within_fetchPage (baseUrl : string) (page : nat) (allReviews : list Review)
    (n : nat) :
  allowed (EvFetch (pageUrl baseUrl page)) -> 3 <= n ->
  within allowed n (fetchPage w baseUrl page allReviews).
Proof.
  intros Hu Hn. unfold fetchPage.
  apply (within_bind allowed 3 0 n); [lia|now apply within_fetchWithRetry|].
  intros html. destruct (_ =? 0); [apply within_ret|].
  destruct (_ <? 10); [apply within_ret|].
  apply (within_bind allowed 0 0 0); [lia|apply within_delay|].
  intros _. apply within_ret.
Qed.

Lemma within_fetchPagesFrom (baseUrl : string) (fuel : nat) :
  forall page allReviews n,
    (forall q, page <= q <= maxPages ->
               allowed (EvFetch (pageUrl baseUrl q))) ->
    3 * (S maxPages - page) <= n ->
    within allowed n (fetchPagesFrom w fuel baseUrl page allReviews).
Proof.
  induction fuel as [|fuel IH]; intros page allReviews n Hq Hn.
  - simpl. destruct (page <=? maxPages);
      [apply within_outOfFuel|apply within_ret].
  - rewrite fetchPagesFrom_step.
    destruct (page <=? maxPages) eqn:E; [|apply within_ret].
    apply Nat.leb_le in E.
    apply (within_bind allowed 3 (n - 3) n); [lia| |].
    + apply (within_tryCatch allowed 3 0 3); [lia| |intros; apply within_ret].
      apply within_fetchPage; [apply Hq|]; lia.
    + intros [all|all]; [apply within_ret|].
      apply IH; [intros q Hq'; apply Hq; lia|lia].
Qed.

Lemma within_fetchAllReviewsFromProfile (baseUrl : string) (n : nat) :
  (forall q, 1 <= q <= maxPages -> allowed (EvFetch (pageUrl baseUrl q))) ->
  3 * maxPages <= n ->
  within allowed n (fetchAllReviewsFromProfile w baseUrl).
Proof.
  intros Hq Hn. apply within_fetchPagesFrom; [exact Hq|lia].
Qed.

Lemma within_fetchReviewerReviews (steamId : string) (n : nat) :
  (forall q, 1 <= q <= maxPages ->
             allowed (EvFetch (pageUrl (profilesUrl steamId) q))) ->
  3 * maxPages <= n ->
  within allowed n (fetchReviewerReviews w steamId).
Proof.
  intros Hq Hn st. rewrite fetchReviewerReviews_first_attempt.
  now apply within_fetchAllReviewsFromProfile.
Qed.

Lemma within_collectOne (total : nat) (reviewer : ReviewerIdentity)
    (c : Collector) (n : nat) :
  (forall q, 1 <= q <= maxPages ->
             allowed (EvFetch (pageUrl (profilesUrl (reviewerSteamId reviewer)) q))) ->
  3 * maxPages <= n ->
  within allowed n (collectOne w total reviewer c).
Proof.
  intros Hq Hn. unfold collectOne.
  apply (within_bind allowed 0 n n); [lia|apply within_updateProgress|].
  intros _.
  apply (within_bind allowed n 0 n); [lia|now apply within_fetchReviewerReviews|].
  intros l.
  apply (within_bind allowed 0 0 0); [lia| |intros _; apply within_ret].
  destruct (_ =? 0); [apply within_delay|apply within_ret].
Qed.

Lemma within_collectFrom (total : nat) (rest : list ReviewerIdentity) :
  forall c n,
    (forall reviewer q,
       In reviewer rest -> 1 <= q <= maxPages ->
       allowed (EvFetch (pageUrl (profilesUrl (reviewerSteamId reviewer)) q))) ->
    3 * maxPages * List.length rest <= n ->
    within allowed n (collectFrom w total rest c).
Proof.
  induction rest as [|reviewer rest IH]; intros c n Hq Hn; cbn [collectFrom].
  - apply within_ret.
  - cbn [List.length] in Hn.
    apply (within_bind allowed 0 n n); [lia|apply within_readShouldCancel|].
    intros [|]; [apply within_ret|].
    apply (within_bind allowed (3 * maxPages) (n - 3 * maxPages) n); [lia| |].
    + apply (within_tryCatch allowed (3 * maxPages) 0 (3 * maxPages));
        [lia| |intros; apply within_ret].
      apply within_collectOne; [|lia].
      intros q Hq'. apply Hq; [now left|exact Hq'].
    + intros c2. apply IH; [|lia].
      intros r q Hr Hq'. apply Hq; [now right|exact Hq'].
Qed.

Lemma within_fetchAllReviewerData (reviewers : list ReviewerIdentity)
    (maxProfiles n : nat) :
  (forall reviewer q,
     In reviewer reviewers -> 1 <= q <= maxPages ->
     allowed (EvFetch (pageUrl (profilesUrl (reviewerSteamId reviewer)) q))) ->
  3 * maxPages * List.length reviewers <= n ->
  within allowed n (fetchAllReviewerData w reviewers maxProfiles).
Proof.
  intros Hq Hn. unfold fetchAllReviewerData, collectAll.
  apply (within_bind allowed n 0 n); [lia|now apply within_collectFrom|].
  intros c. apply within_ret.
Qed.

(** *** Discovery *)

Variable appId : string.
Variable maxProfiles : nat.
Hypothesis allowed_feed : forall cursor, allowed (EvFetch (feedUrl appId cursor)).

(** An iteration that goes on has added a full batch and has stayed below
    [maxProfiles]. *)
Lemma fetchBatch_continue_full (d d' : Discovery) (st st' : State) :
  fetchBatch w appId maxProfiles d st = (Normal (Continue d'), st') ->
  totalFetched d + 100 <= totalFetched d' /\ totalFetched d' < maxProfiles.
Proof.
  unfold fetchBatch, bind.
  destruct (fetchWithRetry w _ st) as [[response|message|] st1];
    try discriminate.
  destruct (JSON_parse w response) as [data|]; [|discriminate].
  destruct (negb (success data)); [discriminate|].
  destruct (feedReviews data) as [[|review batch]|]; try discriminate.
  destruct (negb (complete (review :: batch))); [discriminate|].
  cbn [updateProgress storageSet].
  destruct (noCursor data); [discriminate|].
  destruct (List.length (review :: batch) <? 100) eqn:E1; [discriminate|].
  destruct (maxProfiles <=? totalFetched d + List.length (review :: batch)) eqn:E2;
    [discriminate|].
  cbn [orb]. intros [= <- _]. cbn [totalFetched].
  apply Nat.ltb_ge in E1. apply Nat.leb_gt in E2.
  cbn [List.length] in *. lia.
Qed.

Lemma within_fetchBatch (d : Discovery) (n : nat) :
  3 <= n -> within allowed n (fetchBatch w appId maxProfiles d).
Proof.
  intros Hn. unfold fetchBatch.
  apply (within_bind allowed 3 0 n);
    [lia|apply within_fetchWithRetry; [apply allowed_feed|lia]|].
  intros response. destruct (JSON_parse w response) as [data|];
    [|apply within_throw].
  destruct (negb (success data)); [apply within_ret|].
  destruct (feedReviews data) as [[|review batch]|]; try apply within_ret.
  destruct (negb (complete (review :: batch))); [apply within_ret|].
  apply (within_bind allowed 0 0 0); [lia|apply within_updateProgress|].
  intros _. destruct (_ || _); [apply within_ret|].
  apply (within_bind allowed 0 0 0); [lia|apply within_delay|].
  intros _. apply within_ret.
Qed.

(** The requests of the feed that are still possible with a running
    total: each one that is followed by another adds at least 100. *)
Definition batchesLeft (total : nat) : nat :=
  if total <? maxProfiles then S ((maxProfiles - 1 - total) / 100) else 0.

Lemma batchesLeft_continue (total total' : nat) :
  total + 100 <= total' -> total' < maxProfiles ->
  S (batchesLeft total') <= batchesLeft total.
Proof.
  intros H1 H2. unfold batchesLeft.
  assert (E : (total <? maxProfiles) = true) by (apply Nat.ltb_lt; lia).
  assert (E' : (total' <? maxProfiles) = true) by now apply Nat.ltb_lt.
  rewrite E, E'.
  pose proof (Nat.div_mod_eq (maxProfiles - 1 - total') 100).
  pose proof (Nat.div_mod_eq (maxProfiles - 1 - total) 100).
  pose proof (Nat.mod_upper_bound (maxProfiles - 1 - total') 100).
  pose proof (Nat.mod_upper_bound (maxProfiles - 1 - total) 100).
  lia.
Qed.

Lemma within_discoverFrom (fuel : nat) :
  forall d n,
    3 * batchesLeft (totalFetched d) <= n ->
    within allowed n (discoverFrom w fuel appId maxProfiles d).
Proof.
  induction fuel as [|fuel IH]; intros d n Hn.
  - cbn [discoverFrom]. destruct (totalFetched d <? maxProfiles);
      [|apply within_ret].
    apply (within_bind allowed 0 0 n); [lia|apply within_readShouldCancel|].
    intros [|]; [apply within_ret|apply within_outOfFuel].
  - rewrite discoverFrom_step.
    destruct (totalFetched d <? maxProfiles) eqn:E; [|apply within_ret].
    assert (Hone : 1 <= batchesLeft (totalFetched d)).
    { unfold batchesLeft. rewrite E. lia. }
    apply (within_bind allowed 0 n n); [lia|apply within_readShouldCancel|].
    intros [|]; [apply within_ret|].
    apply (within_bind_with allowed
             (fun step => match step with
                          | Continue d' =>
                              totalFetched d + 100 <= totalFetched d'
                              /\ totalFetched d' < maxProfiles
                          | Break _ => True
                          end) 3 (n - 3) n); [lia| | |].
    + apply (within_tryCatch allowed 3 0 3);
        [lia|now apply within_fetchBatch|intros; apply within_ret].
    + intros st [d'|d'] st'; [trivial|]. unfold tryCatch.
      destruct (fetchBatch w appId maxProfiles d st) as [[step|message|] st1] eqn:F;
        try discriminate.
      intros [= -> ->]. now apply fetchBatch_continue_full in F.
    + intros [d'|d'] Hd; [apply within_ret|]. apply IH.
      destruct Hd as [H1 H2].
      pose proof (batchesLeft_continue _ _ H1 H2). lia.
Qed.

Lemma within_fetchGameReviewers (n : nat) :
  3 * batchesLeft 0 <= n ->
  within allowed n (fetchGameReviewers w appId maxProfiles).
Proof.
  intros Hn. unfold fetchGameReviewers.
  apply (within_bind allowed n 0 n); [lia|now apply within_discoverFrom|].
  intros d. apply within_ret.
Qed.

End Requested.

(** *** The paginated profile fetcher *)

(** The events of a fetch of the profile at [baseUrl]: requests of its
    pages 1 to 50, and waits. *)
Definition profileEvent (baseUrl : string) (e : Event) : Prop :=
  match e with
  | EvFetch url => exists page, 1 <= page <= maxPages /\ url = pageUrl baseUrl page
  | EvDelay _ => True
  | EvNotify _ => False
  end.

(** X17: in every world, a fetch of a profile returns a list, requests
    nothing but pages 1 to 50 of that profile, and calls [fetch] at most
    150 times: 50 pages, three attempts each. *)
Theorem profile_fetch_requests (w : World) (baseUrl : string) (st : State) :
  exists found st' new,
    fetchAllReviewsFromProfile w baseUrl st = (Normal found, st')
    /\ trace st' = trace st ++ new
    /\ Forall (profileEvent baseUrl) new
    /\ List.length (fetchedUrls new) <= 150.
Proof.
  destruct (ends_returns _ st (ends_fetchAllReviewsFromProfile w baseUrl))
    as [found [st' [E _]]].
  assert (H : within (profileEvent baseUrl) 150 (fetchAllReviewsFromProfile w baseUrl)).
  { apply within_fetchAllReviewsFromProfile.
    - intros ms. exact I.
    - intros q Hq. exists q. auto.
    - unfold maxPages. lia. }
  specialize (H st). rewrite E in H. destruct H as [new [Ht [Hf Hl]]].
  exists found, st', new. auto.
Qed.

(** *** The bulk profile collector *)

(** The events of the collection for [reviewers]: requests of the pages
    of their [/profiles/] URLs, and waits. *)
Definition reviewerEvent (reviewers : list ReviewerIdentity) (e : Event) : Prop :=
  match e with
  | EvFetch url =>
      exists reviewer page,
        In reviewer reviewers /\ 1 <= page <= maxPages
        /\ url = pageUrl (profilesUrl (reviewerSteamId reviewer)) page
  | EvDelay _ => True
  | EvNotify _ => False
  end.

(** X18: in every world, the collector returns a list, requests nothing
    but pages of the [/profiles/] URL of the reviewers it is given, and
    calls [fetch] at most 150 times for each of them. *)
Theorem collector_requests (w : World) (reviewers : list ReviewerIdentity)
    (maxProfiles : nat) (st : State) :
  exists data st' new,
    fetchAllReviewerData w reviewers maxProfiles st = (Normal data, st')
    /\ trace st' = trace st ++ new
    /\ Forall (reviewerEvent reviewers) new
    /\ List.length (fetchedUrls new) <= 150 * List.length reviewers.
Proof.
  destruct (ends_returns _ st (ends_fetchAllReviewerData w reviewers maxProfiles))
    as [data [st' [E _]]].
  assert (H : within (reviewerEvent reviewers) (150 * List.length reviewers)
                (fetchAllReviewerData w reviewers maxProfiles)).
  { apply within_fetchAllReviewerData.
    - intros ms. exact I.
    - intros reviewer q Hr Hq. exists reviewer, q. auto.
    - unfold maxPages. lia. }
  specialize (H st). rewrite E in H. destruct H as [new [Ht [Hf Hl]]].
  exists data, st', new. auto.
Qed.

Lemma collectFrom_order (w : World) (rest : list ReviewerIdentity) :
  forall total c st,
    exists c' st' extra,
      collectFrom w total rest c st = (Normal c', st')
      /\ reviewerData c' = reviewerData c ++ extra
      /\ sublist (map steamId extra) (map reviewerSteamId rest)
      /\ processed c' <= processed c + List.length rest
      /\ (cancelRequestedAt w = None ->
          processed c' = processed c + List.length rest).
Proof.
  induction rest as [|reviewer rest IH]; intros total c st; cbn [collectFrom].
  - exists c, st, []. rewrite app_nil_r. simpl.
    conjuncts; try reflexivity; try lia.
  - rewrite (bind_normal _ _ _ _ _ (run_readShouldCancel w st)).
    destruct (flagSet w (flagReads st)) eqn:Hflag.
    + exists c, (afterRead st), []. rewrite app_nil_r. simpl.
      conjuncts; try reflexivity; try lia.
      * apply sublist_nil_l.
      * intros Hnever. rewrite (flagSet_never w _ Hnever) in Hflag.
        discriminate Hflag.
    + set (c1 := mkCollector (reviewerData c) (S (processed c)) (successCount c)
                             (errorCount c) (privateProfileCount c)).
      destruct (collectOne_returns w total reviewer c1 (afterRead st))
        as [l [st2 [E _]]].
      unfold bind at 1. unfold tryCatch. rewrite E.
      destruct (IH total (classified reviewer l c1) st2)
        as [c' [st' [extra [E' [Hdata [Hsub [Hle Heq]]]]]]].
      rewrite E'. unfold classified in Hdata, Hle, Heq.
      destruct (List.length l =? 0); cbn [reviewerData processed] in Hdata, Hle, Heq.
      * exists c', st', extra. unfold c1 in *. cbn [reviewerData processed] in *.
        conjuncts; try reflexivity; try assumption.
        -- cbn [map]. now apply sublist_cons.
        -- simpl. lia.
        -- intros Hnever. rewrite (Heq Hnever). simpl. lia.
      * exists c', st', (mkReviewerRecord (reviewerSteamId reviewer) l :: extra).
        unfold c1 in *. cbn [reviewerData processed] in *.
        conjuncts; try reflexivity.
        -- rewrite Hdata, <- app_assoc. reflexivity.
        -- cbn [map steamId]. now apply sublist_skip.
        -- simpl. lia.
        -- intros Hnever. rewrite (Heq Hnever). simpl. lia.
Qed.

(** X19: the records that the collector returns are in the order of the
    reviewers it is given: their ids are a sub-list of the reviewers' ids,
    and no record has an empty review list. *)
Theorem collector_keeps_order (w : World) (reviewers : list ReviewerIdentity)
    (maxProfiles : nat) (st : State) :
  exists data st',
    fetchAllReviewerData w reviewers maxProfiles st = (Normal data, st')
    /\ sublist (map steamId data) (map reviewerSteamId reviewers)
    /\ Forall (fun record => reviews record <> []) data.
Proof.
  unfold fetchAllReviewerData, collectAll.
  destruct (collectFrom_order w reviewers (List.length reviewers)
              (mkCollector [] 0 0 0 0) st)
    as [c [st' [extra [E [Hdata [Hsub _]]]]]].
  destruct (collectFrom_sound w reviewers (List.length reviewers)
              (mkCollector [] 0 0 0 0) st)
    as [c0 [st0 [E0 [[_ [_ [_ Hf]]] _]]]].
  { repeat split; constructor. }
  rewrite E in E0. injection E0 as <- <-.
  exists (reviewerData c), st'. rewrite (bind_normal _ _ _ _ _ E).
  simpl in Hdata. rewrite Hdata in *. auto.
Qed.

(** X20: the counters of the collector: the error counter stays at 0 (the
    handler of its loop never runs), every processed reviewer is counted
    either as a success, with a record, or as a private profile, and
    without a cancellation every reviewer is processed. *)
Theorem collector_counters (w : World) (reviewers : list ReviewerIdentity)
    (st : State) :
  exists c st',
    collectAll w reviewers st = (Normal c, st')
    /\ errorCount c = 0
    /\ processed c = successCount c + privateProfileCount c
    /\ List.length (reviewerData c) = successCount c
    /\ processed c <= List.length reviewers
    /\ (cancelRequestedAt w = None -> processed c = List.length reviewers).
Proof.
  unfold collectAll.
  destruct (collectFrom_order w reviewers (List.length reviewers)
              (mkCollector [] 0 0 0 0) st)
    as [c [st' [extra [E [_ [_ [Hle Heq]]]]]]].
  destruct (collectFrom_sound w reviewers (List.length reviewers)
              (mkCollector [] 0 0 0 0) st)
    as [c0 [st0 [E0 [[He [Hp [Hl _]]] _]]]].
  { repeat split; constructor. }
  rewrite E in E0. injection E0 as <- <-.
  exists c, st'. simpl in Hle, Heq. auto 10.
Qed.

(** *** Reviewer discovery *)

Definition feedEvent (appId : string) (e : Event) : Prop :=
  match e with
  | EvFetch url => exists cursor, url = feedUrl appId cursor
  | EvDelay _ => True
  | EvNotify _ => False
  end.

Lemma fetchGameReviewers_length (w : World) (appId : string) (maxProfiles : nat)
    (st st' : State) (found : list ReviewerIdentity) :
  fetchGameReviewers w appId maxProfiles st = (Normal found, st') ->
  List.length found <= maxProfiles.
Proof.
  unfold fetchGameReviewers, bind.
  destruct (discoverFrom w maxProfiles appId maxProfiles _ st) as [[d|m|] st1];
    try discriminate.
  intros [= <- _]. apply List.firstn_le_length.
Qed.

(** X21: in every world, reviewer discovery returns at most
    [maxProfiles] reviewers, requests nothing but the review feed of the
    game, and asks for at most one batch, with its three attempts, for
    every 100 reviewers wanted. *)
Theorem discovery_requests (w : World) (appId : string) (maxProfiles : nat)
    (st : State) :
  exists found st' new,
    fetchGameReviewers w appId maxProfiles st = (Normal found, st')
    /\ List.length found <= maxProfiles
    /\ trace st' = trace st ++ new
    /\ Forall (feedEvent appId) new
    /\ List.length (fetchedUrls new) <= 3 * batchesLeft maxProfiles 0.
Proof.
  destruct (ends_returns _ st (ends_fetchGameReviewers w appId maxProfiles))
    as [found [st' [E _]]].
  assert (H : within (feedEvent appId) (3 * batchesLeft maxProfiles 0)
                (fetchGameReviewers w appId maxProfiles)).
  { apply within_fetchGameReviewers.
    - intros ms. exact I.
    - intros cursor. now exists cursor.
    - lia. }
  specialize (H st). rewrite E in H. destruct H as [new [Ht [Hf Hl]]].
  exists found, st', new. conjuncts; try assumption; try reflexivity.
  now apply fetchGameReviewers_length in E.
Qed.

(** ** A whole run *)

(** The events of a run before its notification: requests of the pages
    of the subject's review history, of the review feed of the game and of
    the pages of [/profiles/] URLs, and waits. *)
Definition runEvent (p : Params) (e : Event) : Prop :=
  match e with
  | EvFetch url =>
      (exists baseUrl page,
         userBaseUrl (paramSteamId p) = Some baseUrl
         /\ 1 <= page <= maxPages /\ url = pageUrl baseUrl page)
      \/ (exists cursor, url = feedUrl (paramAppId p) cursor)
      \/ (exists steamId page,
            1 <= page <= maxPages /\ url = pageUrl (profilesUrl steamId) page)
  | EvDelay _ => True
  | EvNotify _ => False
  end.

(** The calls of [fetch] that a run can make: the subject's history, the
    batches of the feed, and one history for each reviewer. *)
Definition runBudget (maxProfiles : nat) : nat :=
  150 + 3 * batchesLeft maxProfiles 0 + 150 * maxProfiles.

(** The titles of the notifications of a trace. *)
Definition notifications (tr : list Event) : list string :=
  flat_map (fun e => match e with EvNotify title => [title] | _ => [] end) tr.

(** The failures that [analyzeGame] can end with. *)
Definition reachableFailure (message : string) : Prop :=
  message = "Cancelled" \/ message = invalidSteamId \/ message = couldNotFetch
  \/ message = noReviewersFound.

(** How a run has ended, with the events after those of [analyzeGame]:
    complete, cancelled after the analysis, failed, or cancelled by the
    error that the cancellation raises. *)
Definition runEnded (st' : State) (tail : list Event) : Prop :=
  (exists result,
     storage st' = mkStorage false ProgressComplete (Some result) None
     /\ tail = [EvNotify "Steam Analysis Complete!"])
  \/ (storage st' = mkStorage false ProgressCancelled None None /\ tail = [])
  \/ (exists message,
        storage st' = mkStorage false ProgressError None (Some message)
        /\ reachableFailure message /\ message <> "Cancelled"
        /\ tail = [EvNotify "Steam Analysis Failed"])
  \/ (analysisResult (storage st') = None /\ analysisError (storage st') = None
      /\ tail = []).

Section Run.

Variable w : World.

Lemma fetchUserReviews_nonempty (steamId : string) (st st' : State)
    (found : list Review) :
  fetchUserReviews w steamId st = (Normal found, st') ->
  (List.length found =? 0) = false.
Proof.
  unfold fetchUserReviews. destruct (userBaseUrl steamId); [|discriminate].
  unfold bind. destruct (fetchAllReviewsFromProfile w _ st) as [[l|m|] st1];
    try discriminate.
  destruct (List.length l =? 0) eqn:E; [discriminate|].
  now intros [= <- _].
Qed.

Lemma ends_fetchUserReviews_reachable (steamId : string) :
  ends reachableFailure (fetchUserReviews w steamId).
Proof.
  unfold fetchUserReviews. destruct (userBaseUrl steamId) as [baseUrl|].
  - apply ends_bind.
    + apply (ends_weaken noMessage); [intros m []|].
      apply ends_fetchAllReviewsFromProfile.
    + intros allReviews. destruct (_ =? 0); [|apply ends_ret].
      apply ends_throw. unfold reachableFailure. tauto.
  - apply ends_throw. unfold reachableFailure. tauto.
Qed.

Lemma ends_checkCancelled_reachable : ends reachableFailure (checkCancelled w).
Proof.
  unfold checkCancelled. apply ends_bind; [apply ends_readShouldCancel|].
  intros [|]; [|apply ends_ret]. apply ends_throw. now left.
Qed.

(** [analyzeGame] never throws the error of its test of an empty list of
    subject reviews: [fetchUserReviews] has thrown before. *)
Lemma ends_analyzeGame_reachable (p : Params) :
  ends reachableFailure (analyzeGame w p).
Proof.
  unfold analyzeGame.
  apply (ends_tryCatch reachableFailure);
    [|intros message H; now apply ends_throw].
  apply ends_bind; [apply ends_updateProgress|]. intros _.
  apply (ends_bind_with reachableFailure
           (fun found => (List.length found =? 0) = false));
    [apply ends_fetchUserReviews_reachable
    |intros st a st'; apply fetchUserReviews_nonempty|].
  intros userReviews Hne.
  apply ends_bind; [apply ends_checkCancelled_reachable|]. intros _.
  rewrite Hne. clear Hne.
  apply ends_bind; [apply ends_updateProgress|]. intros _.
  apply ends_bind.
  { apply (ends_weaken noMessage); [intros m []|]. apply ends_fetchGameReviewers. }
  intros gameReviewers.
  apply ends_bind; [apply ends_checkCancelled_reachable|]. intros _.
  destruct (_ =? 0); [apply ends_throw; unfold reachableFailure; tauto|].
  apply ends_bind; [apply ends_updateProgress|]. intros _.
  apply ends_bind.
  { apply (ends_weaken noMessage); [intros m []|]. apply ends_fetchAllReviewerData. }
  intros reviewerData.
  apply ends_bind; [apply ends_checkCancelled_reachable|]. intros _.
  apply ends_bind; [apply ends_updateProgress|]. intros _.
  apply ends_ret.
Qed.

Lemma runEvent_delay (p : Params) (ms : nat) : runEvent p (EvDelay ms).
Proof. exact I. Qed.

Lemma within_fetchUserReviews (p : Params) (n : nat) :
  150 <= n -> within (runEvent p) n (fetchUserReviews w (paramSteamId p)).
Proof.
  intros Hn. unfold fetchUserReviews.
  destruct (userBaseUrl (paramSteamId p)) as [baseUrl|] eqn:E;
    [|apply within_throw].
  apply (within_bind (runEvent p) n 0 n); [lia| |].
  - apply within_fetchAllReviewsFromProfile.
    + apply runEvent_delay.
    + intros q Hq. left. exists baseUrl, q. auto.
    + unfold maxPages. lia.
  - intros l. destruct (_ =? 0); [apply within_throw|apply within_ret].
Qed.

Lemma within_checkCancelled (p : Params) (n : nat) :
  within (runEvent p) n (checkCancelled w).
Proof.
  unfold checkCancelled.
  apply (within_bind (runEvent p) 0 0 n);
    [lia|apply within_readShouldCancel|].
  intros [|]; [apply within_throw|apply within_ret].
Qed.

Lemma within_analyzeGame (p : Params) :
  within (runEvent p) (runBudget (paramMaxProfiles p)) (analyzeGame w p).
Proof.
  unfold analyzeGame, runBudget.
  set (m := paramMaxProfiles p). set (b := 3 * batchesLeft m 0).
  apply (within_tryCatch (runEvent p) (150 + b + 150 * m) 0); [lia| |].
  2: { intros message. apply within_throw. }
  apply (within_bind (runEvent p) 0 (150 + b + 150 * m)); [lia| |].
  { apply within_updateProgress. }
  intros _.
  apply (within_bind (runEvent p) 150 (b + 150 * m)); [lia| |].
  { now apply within_fetchUserReviews. }
  intros userReviews.
  apply (within_bind (runEvent p) 0 (b + 150 * m)); [lia| |].
  { apply within_checkCancelled. }
  intros _. destruct (_ =? 0); [apply within_throw|].
  apply (within_bind (runEvent p) 0 (b + 150 * m)); [lia| |].
  { apply within_updateProgress. }
  intros _.
  apply (within_bind_with (runEvent p)
           (fun found => List.length found <= m) b (150 * m)); [lia| | |].
  { apply within_fetchGameReviewers; [apply runEvent_delay| |unfold b; lia].
    intros cursor. right. left. now exists cursor. }
  { intros st found st' E. now apply fetchGameReviewers_length in E. }
  intros gameReviewers Hlen.
  apply (within_bind (runEvent p) 0 (150 * m)); [lia| |].
  { apply within_checkCancelled. }
  intros _. destruct (_ =? 0); [apply within_throw|].
  apply (within_bind (runEvent p) 0 (150 * m)); [lia| |].
  { apply within_updateProgress. }
  intros _.
  apply (within_bind (runEvent p) (150 * m) 0); [lia| |].
  { apply within_fetchAllReviewerData; [apply runEvent_delay| |].
    - intros reviewer q _ Hq. right. right.
      exists (reviewerSteamId reviewer), q. auto.
    - unfold maxPages. lia. }
  intros reviewerData.
  apply (within_bind (runEvent p) 0 0); [lia| |].
  { apply within_checkCancelled. }
  intros _.
  apply (within_bind (runEvent p) 0 0); [lia| |].
  { apply within_updateProgress. }
  intros _. apply within_ret.
Qed.

(** A run: what it requests, and how it ends. *)
Lemma run_shape (p : Params) (st : State) :
  exists st' body tail,
    startBackgroundAnalysis w p st = (Normal tt, st')
    /\ trace st' = trace st ++ body ++ tail
    /\ Forall (runEvent p) body
    /\ List.length (fetchedUrls body) <= runBudget (paramMaxProfiles p)
    /\ runEnded st' tail.
Proof.
  unfold startBackgroundAnalysis. unfold bind at 1. unfold storageSet at 1.
  cbv beta iota.
  set (st0 := mkState (flagReads st) (fetchCalls st) (trace st)
                (mkStorage true ProgressStarting None None)).
  pose proof (ends_analyzeGame_reachable p st0) as He.
  pose proof (within_analyzeGame p st0) as Hw.
  unfold tryCatch, bind at 1.
  destruct (analyzeGame w p st0) as [[result|message|] st1]; [| |tauto];
    cbn [snd] in Hw; destruct Hw as [body [Ht [Hf Hl]]];
    change (trace st0) with (trace st) in Ht.
  - unfold bind at 1, readShouldCancel. cbv beta iota.
    destruct (match cancelRequestedAt w with
              | Some n => n <=? flagReads st1
              | None => false
              end).
    + eexists _, body, []. split; [reflexivity|]. cbn [trace storage].
      rewrite app_nil_r. conjuncts; try assumption.
      right. left. split; reflexivity.
    + eexists _, body, [EvNotify "Steam Analysis Complete!"].
      split; [reflexivity|]. cbn [trace storage].
      rewrite Ht, <- app_assoc. conjuncts; try assumption; try reflexivity.
      left. exists result. split; reflexivity.
  - destruct He as [Hm [He Hr]]. cbn [storage analysisError analysisResult] in He, Hr.
    destruct (String.eqb message "Cancelled") eqn:E; cbn [negb].
    + exists st1, body, []. rewrite app_nil_r.
      conjuncts; try assumption; try reflexivity.
      right. right. right. conjuncts; try assumption; reflexivity.
    + eexists _, body, [EvNotify "Steam Analysis Failed"].
      split; [reflexivity|]. cbn [trace storage].
      rewrite Ht, <- app_assoc. conjuncts; try assumption; try reflexivity.
      right. right. left. exists message. rewrite Hr.
      conjuncts; try assumption; try reflexivity.
      intros ->. rewrite String.eqb_refl in E. discriminate.
Qed.

End Run.

Lemma notifications_app (tr1 tr2 : list Event) :
  notifications (tr1 ++ tr2) = notifications tr1 ++ notifications tr2.
Proof. unfold notifications. apply flat_map_app. Qed.

Lemma runEvent_silent (p : Params) (body : list Event) :
  Forall (runEvent p) body -> notifications body = [].
Proof.
  induction 1 as [|e body He _ IH]; [reflexivity|].
  destruct e; simpl in *; try exact IH. destruct He.
Qed.

(** X22: in every world, a run requests nothing but the pages of the
    subject's review history, the review feed of the game and pages of
    [/profiles/] URLs, with at most [runBudget] calls of [fetch], and it
    notifies at most once, after everything else. *)
Theorem run_requests (w : World) (p : Params) (st : State) :
  exists st' body tail,
    startBackgroundAnalysis w p st = (Normal tt, st')
    /\ trace st' = trace st ++ body ++ tail
    /\ Forall (runEvent p) body
    /\ List.length (fetchedUrls body) <= runBudget (paramMaxProfiles p)
    /\ (tail = [] \/ exists title, tail = [EvNotify title]).
Proof.
  destruct (run_shape w p st) as [st' [body [tail [E [Ht [Hf [Hl Hend]]]]]]].
  exists st', body, tail. conjuncts; try assumption.
  destruct Hend as [[r [_ ->]] | [[_ ->] | [[m [_ [_ [_ ->]]]] | [_ [_ ->]]]]];
    eauto.
Qed.

(** X23: in every world, a run ends in one of four ways: complete, with
    the result stored and the notification of completion; cancelled after
    the analysis, with no result, no error and no notification; failed,
    with the error stored, no result and the notification of failure; or
    cancelled by the error of a cancellation check, with no result, no
    error and no notification. *)
Theorem run_outcomes (w : World) (p : Params) (st : State) :
  exists st' new,
    startBackgroundAnalysis w p st = (Normal tt, st')
    /\ trace st' = trace st ++ new
    /\ ((exists result,
           storage st' = mkStorage false ProgressComplete (Some result) None
           /\ notifications new = ["Steam Analysis Complete!"])
        \/ (storage st' = mkStorage false ProgressCancelled None None
            /\ notifications new = [])
        \/ (exists message,
              storage st' = mkStorage false ProgressError None (Some message)
              /\ message <> "Cancelled"
              /\ notifications new = ["Steam Analysis Failed"])
        \/ (analysisResult (storage st') = None
            /\ analysisError (storage st') = None
            /\ notifications new = [])).
Proof.
  destruct (run_shape w p st) as [st' [body [tail [E [Ht [Hf [Hl Hend]]]]]]].
  exists st', (body ++ tail). conjuncts; try assumption.
  rewrite notifications_app, (runEvent_silent p body Hf). cbn [app].
  destruct Hend
    as [[r [Hs ->]] | [[Hs ->] | [[m [Hs [_ [Hm ->]]]] | [Hr [He ->]]]]].
  - left. exists r. auto.
  - right. left. auto.
  - right. right. left. exists m. auto.
  - right. right. right. auto.
Qed.

(** X24: the error of the test of an empty list of subject reviews in
    [analyzeGame] is never thrown and never stored: [fetchUserReviews] throws
    its own error for an empty list, before that test. *)
Theorem no_reviews_message_unreachable (w : World) (p : Params) (st : State) :
  fst (analyzeGame w p st) <> Throw noReviewsFound
  /\ analysisError (storage (snd (startBackgroundAnalysis w p st)))
     <> Some noReviewsFound.
Proof.
  assert (Hne : forall message, reachableFailure message ->
                                message <> noReviewsFound).
  { intros message [-> | [-> | [-> | ->]]]; apply String.eqb_neq; reflexivity. }
  split.
  - pose proof (ends_analyzeGame_reachable w p st) as H.
    destruct (analyzeGame w p st) as [[result|message|] st1]; cbn [fst];
      try discriminate.
    destruct H as [H _]. intros [= ->]. now apply (Hne noReviewsFound).
  - destruct (run_shape w p st) as [st' [body [tail [E [_ [_ [_ Hend]]]]]]].
    rewrite E. cbn [snd].
    destruct Hend as [[r [Hs _]] | [[Hs _] | [[m [Hs [Hm _]]] | [_ [He _]]]]];
      try rewrite Hs; try rewrite He; cbn [analysisError]; try discriminate.
    intros [= ->]. now apply (Hne noReviewsFound).
Qed.

(** ** A blank Steam id *)

Lemma userBaseUrl_blank (steamId : string) :
  allChars isSpace steamId = true -> userBaseUrl steamId = None.
Proof.
  intros H. unfold userBaseUrl, parseSteamId.
  destruct (String.eqb steamId ""); [reflexivity|].
  assert (E : trim steamId = "").
  { rewrite <- (append_nil_r steamId).
    apply (trim_padded steamId "" ""); [exact H|reflexivity|reflexivity]. }
  rewrite E. reflexivity.
Qed.

(** X25: with a Steam id that is empty or blank, in every world, a run
    makes no request and reads no cancellation flag; it stores the error
    of an invalid Steam id and sends the notification of failure. *)
Theorem blank_steam_id_fails (w : World) (p : Params) (st : State) :
  allChars isSpace (paramSteamId p) = true ->
  startBackgroundAnalysis w p st
  = (Normal tt,
     mkState (flagReads st) (fetchCalls st)
             (trace st ++ [EvNotify "Steam Analysis Failed"])
             (mkStorage false ProgressError None (Some invalidSteamId))).
Proof.
  intros H.
  unfold startBackgroundAnalysis, analyzeGame, fetchUserReviews.
  rewrite (userBaseUrl_blank _ H). reflexivity.
Qed.

(** The theorem at a Steam id made of two spaces. *)
Lemma blank_steam_id_fails_witness :
  startBackgroundAnalysis deadWorld (mkParams "10" "  " 1 50 20)
                          (initialState idleStorage)
  = (Normal tt,
     mkState 0 0 [EvNotify "Steam Analysis Failed"]
             (mkStorage false ProgressError None (Some invalidSteamId))).
Proof.
  apply (blank_steam_id_fails deadWorld (mkParams "10" "  " 1 50 20)
           (initialState idleStorage)).
  reflexivity.
Defined.

(** ** The messages of the popup, further *)

(** The data of the first start message of a list. *)
Fixpoint firstStart (messages : list Message) : list Params :=
  match messages with
  | [] => []
  | StartAnalysis data :: _ => [data]
  | _ :: rest => firstStart rest
  end.

Lemma onMessages_busy (messages : list Message) :
  forall b,
    analysisInProgress (globals b) = true ->
    runsStarted (onMessages messages b) = runsStarted b
    /\ analysisInProgress (globals (onMessages messages b)) = true.
Proof.
  induction messages as [|message messages IH]; intros b Hb; [auto|].
  assert (H : runsStarted (onMessage b message) = runsStarted b
              /\ analysisInProgress (globals (onMessage b message)) = true).
  { destruct message; unfold onMessage; cbn; rewrite ?Hb; cbn; rewrite ?Hb; auto. }
  destruct H as [Hr Hp]. destruct (IH _ Hp) as [Hr' Hp'].
  unfold onMessages in *. cbn [fold_left]. rewrite Hr', Hr. auto.
Qed.

(** X26: although two listeners handle every message, the messages
    received while no run ends start at most one run: the one of the first
    start message, and none when an analysis is already in progress. *)
Theorem at_most_one_run_starts (messages : list Message) (b : Background) :
  runsStarted (onMessages messages b)
  = runsStarted b
    ++ (if analysisInProgress (globals b) then [] else firstStart messages).
Proof.
  revert b. induction messages as [|message messages IH]; intros b.
  - cbn. destruct (analysisInProgress (globals b)); now rewrite app_nil_r.
  - destruct (analysisInProgress (globals b)) eqn:Hb.
    + rewrite app_nil_r. now apply onMessages_busy.
    + unfold onMessages. cbn [fold_left]. fold (onMessages messages (onMessage b message)).
      destruct message as [data| |enabled|].
      * assert (Hp : analysisInProgress (globals (onMessage b (StartAnalysis data)))
                     = true).
        { unfold onMessage. cbn. rewrite Hb. reflexivity. }
        rewrite (proj1 (onMessages_busy messages _ Hp)).
        unfold onMessage. cbn. rewrite Hb. reflexivity.
      * rewrite IH. unfold onMessage. cbn. rewrite Hb. reflexivity.
      * rewrite IH. unfold onMessage. cbn. rewrite Hb. reflexivity.
      * rewrite IH. unfold onMessage. cbn. rewrite Hb. reflexivity.
Qed.
